(** * nestjs-langchain: agent execution and tool resolution pipeline

    A shallow embedding of the security middleware (rate limiter, input
    guard), the tool-creation strategy (parameter resolver, tool adapters),
    the agent service (execution orchestrator, fallback dispatcher) and the
    base agent provider (middleware pipeline), with the properties the
    specification states about them.

    Conventions of the embedding.
    - A JavaScript string is a [string]: one [ascii] per code unit, so the
      strings covered are those whose code units are below 256.
    - A JavaScript number that the code only counts, compares or adds
      ([Date.now()], [maxRequests], [windowMs], [length]) is a [Z].
    - A value thrown by the code itself or by a built-in is an [Error] and
      is represented by its message; a tool method may throw any value.
    - Logger calls have no effect on the results and are left out, except
      where evaluating their arguments can itself throw.
    - [async] functions are run to completion: a rejected promise is a
      thrown error, [await] is sequencing. *)

From Stdlib Require Import ZArith QArith Ascii String Bool Lia DecimalString.
From stdpp Require Import gmap strings list.

Local Open Scope Z_scope.

(** ** Thrown errors *)

Inductive result (A : Type) : Type :=
| Ok (a : A)
| Throw (message : string).
Arguments Ok {A} a.
Arguments Throw {A} message.

Definition bind {A B} (m : result A) (f : A -> result B) : result B :=
  match m with
  | Ok a => f a
  | Throw e => Throw e
  end.

(** [try { m } catch (error) { h error.message }] *)
Definition try_catch {A} (m : result A) (h : string -> result A) : result A :=
  match m with
  | Ok a => Ok a
  | Throw e => h e
  end.

(** Whether a computation returns. *)
Definition returns {A} (m : result A) : bool :=
  match m with
  | Ok _ => true
  | Throw _ => false
  end.

Declare Scope js_scope.
Delimit Scope js_scope with js.
Notation "x <- m ;; k" := (bind m (fun x => k))
  (at level 100, m at next level, right associativity) : js_scope.

(** ** security.middleware.ts: the rate limiter *)

Module RateLimiter.

(** [SecurityConfig.rateLimit]; the key generator plays no part in
    [rateLimit(key)]. *)
Record RateLimitConfig := {
  maxRequests : Z;
  windowMs : Z
}.

(** A value of [rateLimitStore]. *)
Record RateWindowEntry := {
  count : Z;
  resetTime : Z
}.

Record RateLimitResult := {
  allowed : bool;
  remaining : Z;
  resultResetTime : Z
}.

(** [rateLimit(key)], with [Date.now()] as the argument [now] and the
    [rateLimitStore] map passed in and returned. *)
Definition rateLimit (config : option RateLimitConfig) (now : Z)
    (key : string) (store : gmap string RateWindowEntry)
  : RateLimitResult * gmap string RateWindowEntry :=
  match config with
  | None =>
      ({| allowed := true; remaining := -1; resultResetTime := 0 |}, store)
  | Some rl =>
      let resetTime' := now + windowMs rl * 1000 in
      let fresh :=
        ({| allowed := true; remaining := maxRequests rl - 1;
            resultResetTime := resetTime' |},
         <[key := {| count := 1; resetTime := resetTime' |}]> store) in
      match store !! key with
      | None => fresh
      | Some current =>
          if resetTime current <=? now then fresh
          else if maxRequests rl <=? count current then
            ({| allowed := false; remaining := 0;
                resultResetTime := resetTime current |}, store)
          else
            let current' := {| count := count current + 1;
                               resetTime := resetTime current |} in
            ({| allowed := true;
                remaining := maxRequests rl - count current';
                resultResetTime := resetTime current' |},
             <[key := current']> store)
      end
  end.

(** [cleanupRateLimitStore()] *)
Definition cleanupRateLimitStore (now : Z)
    (store : gmap string RateWindowEntry) : gmap string RateWindowEntry :=
  filter (fun kv => ¬ (resetTime kv.2 <= now)) store.

(** A sequence of checks, each with its clock reading and key, run one
    after the other on the same store. *)
Fixpoint run (config : option RateLimitConfig) (reqs : list (Z * string))
    (store : gmap string RateWindowEntry)
  : list (string * RateLimitResult) * gmap string RateWindowEntry :=
  match reqs with
  | [] => ([], store)
  | (now, key) :: rest =>
      let '(r, store') := rateLimit config now key store in
      let '(rs, store'') := run config rest store' in
      ((key, r) :: rs, store'')
  end.

(** The results of the checks made for [key]. *)
Definition checks_of (key : string) (rs : list (string * RateLimitResult))
  : list RateLimitResult :=
  snd <$> filter (fun kr => kr.1 = key) rs.

(** How many of the checks for [key] were admitted. *)
Definition admissions (key : string) (rs : list (string * RateLimitResult))
  : nat :=
  length (filter (fun r => allowed r = true) (checks_of key rs)).

End RateLimiter.

(** ** JavaScript values *)

(** The values [JSON.parse] produces; they are also the arguments handed to
    tool methods. An object is described by its own fields. [JNative] is a
    value that [JSON.parse] never produces: a built-in function or a
    prototype object, which a property read can reach through a prototype,
    or a value that a tool method returns and that is not JSON data, such
    as the BigInt [10n]; it is told by its name. *)
#[local] Set Warnings "-register-all".
Inductive Json : Type :=
| JNull
| JBool (b : bool)
| JNum (q : Q)
| JStr (s : string)
| JArr (items : list Json)
| JObj (fields : list (string * Json))
| JNative (name : string).

(** A value that may be [undefined] is an [option Json]. *)
Abbreviation JsVal := (option Json).
Abbreviation undefined := (@None Json).

(** ** Strings: the built-in operations the code uses *)

Module JsString.

Definition code (c : ascii) : N := N_of_ascii c.

Definition in_range (lo hi : N) (c : ascii) : bool :=
  ((lo <=? code c) && (code c <=? hi))%N.

Definition dq : ascii := ascii_of_N 34.

(** [\s], and the characters [trim()] strips: TAB, LF, VT, FF, CR, SP and
    NBSP among the code units below 256. *)
Definition is_space (c : ascii) : bool :=
  in_range 9 13 c || (code c =? 32)%N || (code c =? 160)%N.

(** [\d] *)
Definition is_digit (c : ascii) : bool := in_range 48 57 c.

Definition is_upper (c : ascii) : bool := in_range 65 90 c.
Definition is_lower (c : ascii) : bool := in_range 97 122 c.
Definition is_alpha (c : ascii) : bool := is_upper c || is_lower c.

(** [\w], which decides [\b] *)
Definition is_word (c : ascii) : bool :=
  is_alpha c || is_digit c || (code c =? 95)%N.

(** [toLowerCase()] on one code unit: A-Z, and the Latin-1 capitals. *)
Definition lower_char (c : ascii) : ascii :=
  if is_upper c || in_range 192 214 c || in_range 216 222 c
  then ascii_of_N (code c + 32) else c.

Fixpoint toLowerCase (s : string) : string :=
  match s with
  | EmptyString => EmptyString
  | String c s' => String (lower_char c) (toLowerCase s')
  end.

Fixpoint startsWith (s p : string) : bool :=
  match p, s with
  | EmptyString, _ => true
  | String _ _, EmptyString => false
  | String a p', String b s' => Ascii.eqb a b && startsWith s' p'
  end.

(** [s.includes(sub)] *)
Fixpoint includes (s sub : string) : bool :=
  startsWith s sub ||
  match s with
  | EmptyString => false
  | String _ s' => includes s' sub
  end.

(** [s.endsWith(suffix)] *)
Fixpoint endsWith (s suffix : string) : bool :=
  String.eqb s suffix ||
  match s with
  | EmptyString => false
  | String _ s' => endsWith s' suffix
  end.

(** [s.split(sep)] for a separator of one character. *)
Fixpoint split (sep : ascii) (s : string) : list string :=
  match s with
  | EmptyString => [EmptyString]
  | String c s' =>
      if Ascii.eqb c sep then EmptyString :: split sep s'
      else match split sep s' with
           | h :: t => String c h :: t
           | [] => [String c EmptyString]
           end
  end.

(** [parts.join(sep)] *)
Fixpoint join (sep : string) (parts : list string) : string :=
  match parts with
  | [] => EmptyString
  | [p] => p
  | p :: rest => p +:+ sep +:+ join sep rest
  end.

Fixpoint trimStart (s : string) : string :=
  match s with
  | EmptyString => EmptyString
  | String c s' => if is_space c then trimStart s' else s
  end.

Fixpoint trimEnd (s : string) : string :=
  match s with
  | EmptyString => EmptyString
  | String c s' =>
      match trimEnd s' with
      | EmptyString => if is_space c then EmptyString else String c EmptyString
      | t => String c t
      end
  end.

(** [s.trim()] *)
Definition trim (s : string) : string := trimEnd (trimStart s).

(** [s.replace(/[class]/g, '')]: every character of the class is dropped. *)
Fixpoint remove_all (class : ascii -> bool) (s : string) : string :=
  match s with
  | EmptyString => EmptyString
  | String c s' =>
      if class c then remove_all class s' else String c (remove_all class s')
  end.

(** [s.replace(/\s+/g, ' ')]: [in_run] tells that the previous character
    belonged to the run of white space being replaced. *)
Fixpoint collapse_from (in_run : bool) (s : string) : string :=
  match s with
  | EmptyString => EmptyString
  | String c s' =>
      if is_space c then
        if in_run then collapse_from true s'
        else String " " (collapse_from true s')
      else String c (collapse_from false s')
  end.

Definition collapse_spaces (s : string) : string := collapse_from false s.

(** The decimal text of an integer number, as a template literal prints
    it. *)
Definition of_Z (z : Z) : string :=
  DecimalString.NilZero.string_of_int (Z.to_int z).

End JsString.

(** ** Regular expressions: the part of the built-in matcher the patterns of
       this code need (backtracking, leftmost match, greedy and lazy
       repetition, capture groups, [$], [\b], negative look-ahead) *)

Module Regex.
Import JsString.

Inductive regex : Type :=
| Chr (class : ascii -> bool)       (* one character of a class *)
| Eps                               (* the empty pattern *)
| Seq (a b : regex)
| Alt (a b : regex)                 (* a|b, [a] tried first *)
| Star (greedy : bool) (a : regex)  (* a* and a*? *)
| Group (n : nat) (a : regex)       (* the n-th capturing group *)
| Eol                               (* $ without the m flag *)
| WordB                             (* \b *)
| NotAhead (a : regex).             (* (?!a) *)

(** A position in the subject: the character before it, the text from it
    on, and the groups captured so far (latest first). *)
Record pos := {
  prev : option ascii;
  rest : string;
  caps : list (nat * string)
}.

Definition is_word_opt (c : option ascii) : bool :=
  match c with Some c => is_word c | None => false end.

Definition next_char (s : string) : option ascii :=
  match s with String c _ => Some c | EmptyString => None end.

Definition or_else {A} (x : option A) (y : option A) : option A :=
  match x with Some _ => x | None => y end.

(** [run r p k]: match [r] at [p], then continue with [k]; alternatives
    are tried in the order of the backtracking matcher. An iteration of a
    star that consumes nothing is rejected, as the built-in matcher does. *)
Fixpoint run (r : regex) (p : pos) (k : pos -> option pos) {struct r}
  : option pos :=
  match r with
  | Chr class =>
      match rest p with
      | String c s' =>
          if class c
          then k {| prev := Some c; rest := s'; caps := caps p |}
          else None
      | EmptyString => None
      end
  | Eps => k p
  | Seq a b => run a p (fun p' => run b p' k)
  | Alt a b =>
      match run a p k with
      | Some q => Some q
      | None => run b p k
      end
  | Star greedy a =>
      (fix loop (fuel : nat) (p : pos) {struct fuel} : option pos :=
         match fuel with
         | O => k p
         | S fuel' =>
             let again (_ : unit) :=
               run a p (fun p' =>
                 if (String.length (rest p') <? String.length (rest p))%nat
                 then loop fuel' p' else None) in
             if greedy then
               match again tt with Some q => Some q | None => k p end
             else
               match k p with Some q => Some q | None => again tt end
         end) (S (String.length (rest p))) p
  | Group n a =>
      run a p (fun p' =>
        let len := (String.length (rest p) - String.length (rest p'))%nat in
        k {| prev := prev p'; rest := rest p';
             caps := (n, String.substring 0 len (rest p)) :: caps p' |})
  | Eol =>
      match rest p with
      | EmptyString => k p
      | String _ _ => None
      end
  | WordB =>
      if xorb (is_word_opt (prev p)) (is_word_opt (next_char (rest p)))
      then k p else None
  | NotAhead a =>
      match run a p Some with
      | Some _ => None
      | None => k p
      end
  end.

(** A match: the matched text, the captures, and the position after it. *)
Record found := {
  matched : string;
  groups : list (nat * string);
  after : pos
}.

Definition match_at (r : regex) (before : option ascii) (s : string)
  : option found :=
  match run r {| prev := before; rest := s; caps := [] |} Some with
  | Some p =>
      Some {| matched :=
                String.substring 0
                  (String.length s - String.length (rest p)) s;
              groups := caps p; after := p |}
  | None => None
  end.

(** The leftmost match at or after the start of [s]. *)
Fixpoint search_from (r : regex) (before : option ascii) (s : string)
  : option found :=
  match match_at r before s with
  | Some m => Some m
  | None =>
      match s with
      | EmptyString => None
      | String c s' => search_from r (Some c) s'
      end
  end.

(** [s.match(r)] for a pattern without the [g] flag *)
Definition exec (r : regex) (s : string) : option found :=
  search_from r None s.

(** [r.test(s)] for a pattern whose [lastIndex] is 0 *)
Definition test (r : regex) (s : string) : bool :=
  match exec r s with Some _ => true | None => false end.

(** The text of group [n] in a match. *)
Definition group (n : nat) (m : found) : option string :=
  snd <$> List.find (fun c => Nat.eqb (fst c) n) (groups m).

(** [s.match(r)] for a pattern with the [g] flag: all the matches, left to
    right, not overlapping; [None] when there is none. After an empty
    match the search moves on by one character. *)
Fixpoint all_from (fuel : nat) (r : regex) (before : option ascii)
    (s : string) : list string :=
  match fuel with
  | O => []
  | S fuel' =>
      match search_from r before s with
      | None => []
      | Some m =>
          let p := after m in
          match matched m, rest p with
          | EmptyString, EmptyString => [EmptyString]
          | EmptyString, String c s' =>
              EmptyString :: all_from fuel' r (Some c) s'
          | _, _ => matched m :: all_from fuel' r (prev p) (rest p)
          end
      end
  end.

Definition match_all (r : regex) (s : string) : option (list string) :=
  match all_from (S (String.length s)) r None s with
  | [] => None
  | ms => Some ms
  end.

(** *** Writing patterns *)

(** A literal character; with the [i] flag it matches both cases. *)
Definition lit_char (ignore_case : bool) (c : ascii) : regex :=
  Chr (fun x =>
    Ascii.eqb x c ||
    (ignore_case && is_alpha c && is_alpha x
     && Ascii.eqb (lower_char x) (lower_char c))).

Fixpoint lit (ignore_case : bool) (s : string) : regex :=
  match s with
  | EmptyString => Eps
  | String c EmptyString => lit_char ignore_case c
  | String c s' => Seq (lit_char ignore_case c) (lit ignore_case s')
  end.

Fixpoint seq (rs : list regex) : regex :=
  match rs with
  | [] => Eps
  | [r] => r
  | r :: rs' => Seq r (seq rs')
  end.

Fixpoint alt (rs : list regex) : regex :=
  match rs with
  | [] => Chr (fun _ => false)
  | [r] => r
  | r :: rs' => Alt r (alt rs')
  end.

(** (w1|w2|...) without the group *)
Definition words (ignore_case : bool) (ws : list string) : regex :=
  alt (lit ignore_case <$> ws).

Definition plus (greedy : bool) (a : regex) : regex :=
  Seq a (Star greedy a).

Definition opt (a : regex) : regex := Alt a Eps.

Definition any_of (cs : string) (c : ascii) : bool :=
  existsb (Ascii.eqb c) (list_ascii_of_string cs).

End Regex.

(** ** security.middleware.ts: the input guard *)

Module InputGuard.
Import JsString Regex.

(** [SecurityConfig] without its rate-limit part. An absent
    [sanitizeInput] is [false]. *)
Record SecurityConfig := {
  maxInputLength : option Z;
  allowedDomains : option (list string);
  sanitizeInput_enabled : bool
}.

Record ValidationResult := {
  isValid : bool;
  sanitizedInput : option string;
  errors : option (list string)
}.

(** [[\x00-\x08\x0B\x0C\x0E-\x1F\x7F]] *)
Definition is_control (c : ascii) : bool :=
  in_range 0 8 c || (code c =? 11)%N || (code c =? 12)%N
  || in_range 14 31 c || (code c =? 127)%N.

(** [sanitizeInput(input)] *)
Definition sanitizeInput (input : string) : string :=
  trim
    (collapse_spaces
       (remove_all is_control
          (remove_all (fun c => (code c =? 0)%N) input))).

Definition not_char (c : ascii) : regex := Chr (fun x => negb (Ascii.eqb x c)).

Definition maliciousPatterns : list regex := [
  (* /(\b(union|select|insert|update|delete|drop|create|alter)\b)/i *)
  Group 1 (seq [WordB;
                Group 2 (words true ["union"; "select"; "insert"; "update";
                                     "delete"; "drop"; "create"; "alter"]);
                WordB]);
  (* /<script\b[^<]* (?: (?!<\/script>) <[^<]* )* <\/script>/gi,
     written here with spaces between its parts *)
  seq [lit true "<script"; WordB; Star true (not_char "<");
       Star true (seq [NotAhead (lit true "</script>"); lit true "<";
                       Star true (not_char "<")]);
       lit true "</script>"];
  (* /(\b(cmd|powershell|bash|sh|exec|system|eval)\b)/i *)
  Group 1 (seq [WordB;
                Group 2 (words true ["cmd"; "powershell"; "bash"; "sh";
                                     "exec"; "system"; "eval"]);
                WordB]);
  (* /\.\.\// *)
  lit false "../";
  (* /\.(php|asp|jsp|exe|bat|cmd|ps1)$/i *)
  seq [lit true ".";
       Group 1 (words true ["php"; "asp"; "jsp"; "exe"; "bat"; "cmd";
                            "ps1"]);
       Eol]
].

(** [containsMaliciousContent(input)] *)
Definition containsMaliciousContent (input : string) : bool :=
  existsb (fun pattern => test pattern input) maliciousPatterns.

(** [/https?:\/\/[^\s]+/gi] *)
Definition urlPattern : regex :=
  seq [lit true "http"; opt (lit true "s"); lit true "://";
       plus true (Chr (fun c => negb (is_space c)))].

(** [containsExternalUrls(input)] *)
Definition containsExternalUrls (input : string) : bool :=
  test urlPattern input.

(** [extractUrls(input)] *)
Definition extractUrls (input : string) : list string :=
  match match_all urlPattern input with
  | Some urls => urls
  | None => []
  end.

Section Validation.

(** [new URL(url).hostname]; [None] when the constructor throws. *)
Variable url_hostname : string -> option string.

Variable config : SecurityConfig.

(** [isAllowedDomain(url)] *)
Definition isAllowedDomain (url : string) : bool :=
  match allowedDomains config with
  | None => true
  | Some domains =>
      match url_hostname url with
      | Some domain =>
          existsb (fun allowed =>
                     String.eqb domain allowed
                     || endsWith domain ("." +:+ allowed)) domains
      | None => false
      end
  end.

Definition length_error (max : Z) : string :=
  "Input length exceeds maximum allowed length of " +:+ of_Z max
  +:+ " characters".

Definition malicious_error : string :=
  "Input contains potentially malicious content".

Definition url_error (disallowed : list string) : string :=
  "External URLs not allowed: " +:+ join ", " disallowed.

(** [errors.push(message)] *)
Definition push (errors : list string) (message : string) : list string :=
  errors ++ [message].

(** [validateInput(input, context)]; the argument is whatever value the
    caller passed. *)
Definition validateInput (input : JsVal) : ValidationResult :=
  let errors : list string := [] in
  match input with
  | Some (JStr (String _ _ as input)) =>
      (* Check input length *)
      let errors :=
        match maxInputLength config with
        | Some max =>
            if negb (max =? 0) && (max <? Z.of_nat (String.length input))
            then push errors (length_error max) else errors
        | None => errors
        end in
      (* Sanitize input if enabled *)
      let sanitized :=
        if sanitizeInput_enabled config then sanitizeInput input
        else input in
      (* Check for malicious content *)
      let errors :=
        if containsMaliciousContent sanitized
        then push errors malicious_error else errors in
      (* Check for allowed domains *)
      let errors :=
        match allowedDomains config with
        | Some _ =>
            if containsExternalUrls sanitized then
              let urls := extractUrls sanitized in
              let disallowedUrls :=
                List.filter (fun url => negb (isAllowedDomain url)) urls in
              if (0 <? length disallowedUrls)%nat
              then push errors (url_error disallowedUrls) else errors
            else errors
        | None => errors
        end in
      {| isValid := (length errors =? 0)%nat;
         sanitizedInput :=
           if (length errors =? 0)%nat then Some sanitized else None;
         errors := if (0 <? length errors)%nat then Some errors
                   else None |}
  | _ =>
      let errors := push errors "Input must be a non-empty string" in
      {| isValid := false; sanitizedInput := None;
         errors := Some errors |}
  end.

End Validation.

End InputGuard.

(** ** strategies/tool-creation.strategy.ts: the parameter resolver and the
       tool adapters *)

Module ToolStrategy.
Import JsString Regex.

(** [ToolParameter]; an absent [required] is [false]. *)
Record ToolParameter := {
  param_type : string;
  param_description : string;
  param_enum : option (list string);
  required : bool
}.

(** [ToolMetadata & { instance }]. [parameters] lists the entries of the
    parameter object in the order [Object.entries] gives them; [instance]
    is the identity of the object that owns the method. *)
Record ToolMetadata := {
  name : string;
  description : string;
  parameters : option (list (string * ToolParameter));
  methodName : string;
  instance : nat
}.

(** What [new DynamicTool({ name, description, func })] holds. *)
Record DynamicTool := {
  tool_name : string;
  tool_description : string;
  func : string -> result string
}.

(** How a call of a tool method ends: with the value it returns, or with
    the value it throws (for an [async] method, the value its promise is
    rejected with). *)
Inductive Completion :=
| Returns (value : JsVal)
| Throws (error : JsVal).

(** The built-ins and the tool methods the strategy calls. *)
Record Platform := {
  (** [JSON.parse(text)] *)
  JSON_parse : string -> result Json;
  (** The message of the error [JSON.stringify(value)] throws, when it
      throws. *)
  JSON_stringify_error : JsVal -> option string;
  (** [String(value)] *)
  js_String : JsVal -> result string;
  (** [value[k]] for a [k] other than [__proto__] that is not an own
      property of [value]: the member found on the prototype chain, as
      [constructor] is on that of every object. *)
  inherited : Json -> string -> JsVal;
  (** [await instance[methodName](argument)] *)
  call_method : nat -> string -> Json -> Completion
}.

(** *** Property access on parsed values *)

Fixpoint get_field (k : string) (fields : list (string * Json)) : JsVal :=
  match fields with
  | [] => undefined
  | (k', v) :: rest => if String.eqb k' k then Some v else get_field k rest
  end.

(** Writing the own field [k]. The list keeps the order of the
    assignments; the order in which an object enumerates index-like
    names is not represented. *)
Fixpoint put_field (k : string) (v : Json) (fields : list (string * Json))
  : list (string * Json) :=
  match fields with
  | [] => [(k, v)]
  | (k', v') :: rest =>
      if String.eqb k' k then (k, v) :: rest
      else (k', v') :: put_field k v rest
  end.

(** The own fields after [object[k] = v] on an object made by an object
    literal: for [__proto__] the assignment goes to the setter that
    [Object.prototype] provides, which creates no field. *)
Definition set_field (k : string) (v : Json) (fields : list (string * Json))
  : list (string * Json) :=
  if String.eqb k "__proto__" then fields else put_field k v fields.

Definition digits_value (s : string) : N :=
  fold_left (fun acc c => (acc * 10 + (code c - 48))%N)
    (list_ascii_of_string s) 0%N.

(** The index a property name denotes: the name is the decimal text of
    the index. *)
Definition array_index (k : string) : option nat :=
  let n := digits_value k in
  if String.eqb (of_Z (Z.of_N n)) k then Some (N.to_nat n) else None.

Definition js_number (n : nat) : Json := JNum (inject_Z (Z.of_nat n)).

(** The own property [k] of a value: a field of an object; the [length]
    and the elements of an array; the [length] and the characters of a
    string. *)
Definition own_property (value : Json) (k : string) : JsVal :=
  match value with
  | JObj fields => get_field k fields
  | JArr items =>
      if String.eqb k "length" then Some (js_number (length items))
      else match array_index k with
           | Some i => nth_error items i
           | None => undefined
           end
  | JStr s =>
      if String.eqb k "length" then Some (js_number (String.length s))
      else match array_index k with
           | Some i =>
               match String.get i s with
               | Some c => Some (JStr (String c EmptyString))
               | None => undefined
               end
           | None => undefined
           end
  | _ => undefined
  end.

(** [Object.getPrototypeOf(Object(value))] for a parsed value *)
Definition prototype_of (value : Json) : Json :=
  JNative (match value with
           | JArr _ => "Array.prototype"
           | JStr _ => "String.prototype"
           | JNum _ => "Number.prototype"
           | JBool _ => "Boolean.prototype"
           | _ => "Object.prototype"
           end).

(** [value[k]]: a [TypeError] on [null]; an own property; the prototype
    for [__proto__]; or else what the prototype chain gives. *)
Definition js_get (platform : Platform) (value : Json) (k : string)
  : result JsVal :=
  match value with
  | JNull =>
      Throw ("Cannot read properties of null (reading '" +:+ k +:+ "')")
  | JNative _ => Ok (inherited platform value k)
  | _ =>
      match own_property value k with
      | Some v => Ok (Some v)
      | None =>
          if String.eqb k "__proto__" then Ok (Some (prototype_of value))
          else Ok (inherited platform value k)
      end
  end.

(** [value[k]] for a value that may be [undefined] *)
Definition js_member (platform : Platform) (value : JsVal) (k : string)
  : result JsVal :=
  match value with
  | None =>
      Throw ("Cannot read properties of undefined (reading '" +:+ k
             +:+ "')")
  | Some v => js_get platform v k
  end.

Fixpoint chars (s : string) : list Json :=
  match s with
  | EmptyString => []
  | String c s' => JStr (String c EmptyString) :: chars s'
  end.

(** [Object.values(value)] *)
Definition Object_values (value : Json) : result (list Json) :=
  match value with
  | JNull => Throw "Cannot convert undefined or null to object"
  | JObj fields => Ok (snd <$> fields)
  | JArr items => Ok items
  | JStr s => Ok (chars s)
  | _ => Ok []
  end.

Definition is_string (v : Json) : bool :=
  match v with JStr _ => true | _ => false end.

(** Truthiness; a [JNative] is an object, a function or a BigInt other
    than zero. *)
Definition truthy (v : JsVal) : bool :=
  match v with
  | None | Some JNull => false
  | Some (JBool b) => b
  | Some (JNum q) => negb (Qnum q =? 0)
  | Some (JStr s) => negb (String.eqb s EmptyString)
  | Some (JArr _) | Some (JObj _) | Some (JNative _) => true
  end.

(** *** [extractParameterFromString] *)

(** [parseFloat(n)] for a text of the form digits, or digits.digits; the
    rounding to a double is not represented. *)
Definition parseFloat (n : string) : Q :=
  match split "." n with
  | [whole; fraction] =>
      let scale := (10 ^ N.of_nat (String.length fraction))%N in
      Qmake (Z.of_N (digits_value whole * scale + digits_value fraction))
            (N.succ_pos (N.pred scale))
  | _ => inject_Z (Z.of_N (digits_value n))
  end.

(** /(?:in|for|at)\s+([A-Za-z\s]+?)(?:\?|$|,|\.)/i *)
Definition cityPattern : regex :=
  seq [words true ["in"; "for"; "at"];
       plus true (Chr is_space);
       Group 1 (plus false (Chr (fun c => is_alpha c || is_space c)));
       alt [lit false "?"; Eol; lit false ","; lit false "."]].

(** A double quote, group 1 of one or more characters other than a double
    quote, a double quote. *)
Definition quotedPattern : regex :=
  seq [Chr (Ascii.eqb dq);
       Group 1 (plus true (Chr (fun c => negb (Ascii.eqb c dq))));
       Chr (Ascii.eqb dq)].

(** /(add|subtract|multiply|divide|power|sqrt)/i *)
Definition operationPattern : regex :=
  Group 1 (words true ["add"; "subtract"; "multiply"; "divide"; "power";
                       "sqrt"]).

(** /(\d+(?:\.\d+)?)/g *)
Definition numberPattern : regex :=
  Group 1 (Seq (plus true (Chr is_digit))
               (opt (Seq (lit false ".") (plus true (Chr is_digit))))).

(** /([a-zA-Z0-9._%+-]+@[a-zA-Z0-9.-]+\.[a-zA-Z]{2,})/ *)
Definition emailPattern : regex :=
  let alnum c := is_alpha c || is_digit c in
  Group 1 (seq [plus true (Chr (fun c => alnum c || any_of "._%+-" c));
                lit false "@";
                plus true (Chr (fun c => alnum c || any_of ".-" c));
                lit false ".";
                Chr is_alpha; Chr is_alpha; Star true (Chr is_alpha)]).

Definition group1 (m : found) : string :=
  match group 1 m with Some g => g | None => EmptyString end.

(** The result is [None] where the code returns [null]. *)
Definition extractParameterFromString (input paramName : string)
  : option Json :=
  if String.eqb paramName "city" then
    match exec cityPattern input with
    | Some cityMatch => Some (JStr (trim (group1 cityMatch)))
    | None =>
        match exec quotedPattern input with
        | Some quotedCityMatch => Some (JStr (trim (group1 quotedCityMatch)))
        | None => None
        end
    end
  else if String.eqb paramName "operation" then
    match exec operationPattern input with
    | Some operationMatch =>
        Some (JStr (toLowerCase (group1 operationMatch)))
    | None => None
    end
  else if String.eqb paramName "a" || String.eqb paramName "b" then
    match match_all numberPattern input with
    | Some numberMatch =>
        let numbers := parseFloat <$> numberMatch in
        if String.eqb paramName "a" && (0 <? length numbers)%nat then
          JNum <$> numbers !! 0%nat
        else if String.eqb paramName "b" && (1 <? length numbers)%nat then
          JNum <$> numbers !! 1%nat
        else None
    | None => None
    end
  else if String.eqb paramName "text" then
    match exec quotedPattern input with
    | Some textMatch => Some (JStr (trim (group1 textMatch)))
    | None => None
    end
  else if String.eqb paramName "email" then
    match exec emailPattern input with
    | Some emailMatch => Some (JStr (group1 emailMatch))
    | None => None
    end
  else None.

(** The parameter names [extractParameterFromString] knows. *)
Definition extraction_table : list string :=
  ["city"; "operation"; "a"; "b"; "text"; "email"].

(** *** [parseInput] *)

Definition missing_in_json (paramName : string) : string :=
  "Required parameter '" +:+ paramName +:+ "' not found in input".

Definition missing_in_string (paramName input : string) : string :=
  "Required parameter '" +:+ paramName +:+ "' not found in input: "
  +:+ String dq input +:+ String dq EmptyString.

(** [extractedParams[k] = v] in the [try] block. [locked] tells that the
    prototype of [extractedParams] has become [String.prototype], whose
    [length] cannot be written: the assignment then throws, the class
    body being strict code. *)
Definition assign (locked : bool) (k : string) (v : Json)
    (acc : list (string * Json)) : result (list (string * Json)) :=
  if locked && String.eqb k "length" then
    Throw ("Cannot assign to read only property 'length' of object "
           +:+ "'[object Object]'")
  else Ok (set_field k v acc).

(** Whether [extractedParams.__proto__ = jsonInput.__proto__] makes
    [String.prototype] the prototype: a string has no own [__proto__],
    and no other parsed value has that prototype. *)
Definition locks (jsonInput : Json) (k : string) : bool :=
  String.eqb k "__proto__"
  && match jsonInput with JStr _ => true | _ => false end.

(** The loop of the [try] block: [acc] holds the own fields of
    [extractedParams], and the loop leaves [hasExtractedParams] true
    exactly when it has made an assignment. *)
Fixpoint extract_from_json (platform : Platform) (input : string)
    (jsonInput : Json) (params : list (string * ToolParameter))
    (acc : list (string * Json)) (hasExtractedParams locked : bool)
  : result (list (string * Json) * bool) :=
  match params with
  | [] => Ok (acc, hasExtractedParams)
  | (paramName, paramConfig) :: rest =>
      bind (js_get platform jsonInput paramName) (fun field =>
      match field with
      | Some v =>
          bind (assign locked paramName v acc) (fun acc' =>
          extract_from_json platform input jsonInput rest acc' true
            (locked || locks jsonInput paramName))
      | None =>
          if required paramConfig then
            match extractParameterFromString input paramName with
            | Some extracted =>
                bind (assign locked paramName extracted acc) (fun acc' =>
                extract_from_json platform input jsonInput rest acc' true
                  locked)
            | None => Throw (missing_in_json paramName)
            end
          else
            extract_from_json platform input jsonInput rest acc
              hasExtractedParams locked
      end)
  end.

(** The loop of the [catch] block. *)
Fixpoint extract_from_string (input : string)
    (params : list (string * ToolParameter))
    (acc : list (string * Json)) (hasExtractedParams : bool)
  : result (list (string * Json) * bool) :=
  match params with
  | [] => Ok (acc, hasExtractedParams)
  | (paramName, paramConfig) :: rest =>
      match extractParameterFromString input paramName with
      | Some extracted =>
          extract_from_string input rest
            (set_field paramName extracted acc) true
      | None =>
          if required paramConfig
          then Throw (missing_in_string paramName input)
          else extract_from_string input rest acc hasExtractedParams
      end
  end.


(** Whether the parsed object has a field [q]. *)
Definition present (fields : list (string * Json)) (q : string) : bool :=
  match get_field q fields with Some _ => true | None => false end.

Section Strategy.
Variable platform : Platform.

(** The body of the [try] block of [parseInput]. *)
Definition parse_structured (input : string) (tool : ToolMetadata)
  : result Json :=
  bind (JSON_parse platform input) (fun jsonInput =>
  bind (match parameters tool with
        | Some params =>
            bind (extract_from_json platform input jsonInput params []
                    false false)
              (fun '(extractedParams, hasExtractedParams) =>
                 if hasExtractedParams
                 then Ok (Some (JObj extractedParams)) else Ok None)
        | None => Ok None
        end) (fun extracted =>
  match extracted with
  | Some extractedParams => Ok extractedParams
  | None =>
      (* Fallback to simple input extraction *)
      bind (js_get platform jsonInput "input") (fun input_field =>
      if truthy input_field then
        Ok (match input_field with Some v => v | None => JNull end)
      else
        bind (Object_values jsonInput) (fun values =>
        match List.find is_string values with
        | Some v => if truthy (Some v) then Ok v else Ok (JStr input)
        | None => Ok (JStr input)
        end))
  end)).

(** The body of the [catch] block of [parseInput]. *)
Definition parse_free_text (input : string) (tool : ToolMetadata)
  : result Json :=
  match parameters tool with
  | Some params =>
      bind (extract_from_string input params [] false)
        (fun '(extractedParams, hasExtractedParams) =>
           if hasExtractedParams then Ok (JObj extractedParams)
           else Ok (JStr input))
  | None => Ok (JStr input)
  end.

(** [parseInput(input, tool)] *)
Definition parseInput (input : string) (tool : ToolMetadata)
  : result Json :=
  try_catch (parse_structured input tool)
    (fun _ => parse_free_text input tool).

(** The text [error.message] gives in a template literal; reading the
    property of [null] or [undefined] throws. *)
Definition error_text (error : JsVal) : result string :=
  bind (js_member platform error "message") (fun message =>
  match message with
  | Some (JStr text) => Ok text
  | None => Ok "undefined"
  | other => js_String platform other
  end).

(** The [func] of the adapter built for [tool]. [caught] is the
    [catch] block; it receives an [Error] of the resolver or of a
    built-in by its message, and the value a tool method throws as it
    is. The two debug logs of the [try] block that look at values of
    the resolver cannot throw; the third evaluates
    [JSON.stringify(result)]. *)
Definition adapter (tool : ToolMetadata) (input : string) : result string :=
  let caught (message : result string) : result string :=
    bind message (fun text => Ok ("Error: " +:+ text)) in
  match parseInput input tool with
  | Throw message => caught (Ok message)
  | Ok parsedInput =>
      match call_method platform (instance tool) (methodName tool)
              parsedInput with
      | Throws error => caught (error_text error)
      | Returns result =>
          match JSON_stringify_error platform result with
          | Some message => caught (Ok message)
          | None =>
              match js_String platform result with
              | Throw message => caught (Ok message)
              | Ok text => Ok text
              end
          end
      end
  end.

(** [createToolsFromMetadata(tools)]; the argument lists the entries of
    the map in iteration order. *)
Definition createToolsFromMetadata (tools : list (string * ToolMetadata))
  : list DynamicTool :=
  (fun entry =>
     let tool := snd entry in
     {| tool_name := name tool;
        tool_description := description tool;
        func := adapter tool |}) <$> tools.

End Strategy.

End ToolStrategy.

(** ** repositories/agent-repository.ts *)

Module Repository.
Import ToolStrategy.

(** [AgentConfig] *)
Record AgentConfig := {
  agent_name : string;
  agent_description : string;
  model : option string;
  temperature : option Q;
  maxTokens : option Z;
  systemPrompt : option string
}.

Record AgentEntry := {
  metadata : AgentConfig;
  agent_instance : nat
}.

(** [InMemoryAgentRepository]: the agents by name, and the tools as the
    entries of their [Map] in insertion order. *)
Record Repo := {
  agents : gmap string AgentEntry;
  tools : list (string * ToolMetadata)
}.

(** [map.set(key, value)] on the entries of a [Map]: a present key keeps
    its place. *)
Fixpoint map_set {V} (key : string) (value : V) (entries : list (string * V))
  : list (string * V) :=
  match entries with
  | [] => [(key, value)]
  | (k, v) :: rest =>
      if String.eqb k key then (key, value) :: rest
      else (k, v) :: map_set key value rest
  end.

Definition saveAgent (name : string) (metadata : AgentConfig)
    (instance : nat) (r : Repo) : Repo :=
  {| agents := <[name := {| metadata := metadata;
                            agent_instance := instance |}]> (agents r);
     tools := tools r |}.

Definition getAgent (name : string) (r : Repo) : option AgentEntry :=
  agents r !! name.

Definition saveTool (name : string) (tool : ToolMetadata) (r : Repo) : Repo :=
  {| agents := agents r; tools := map_set name tool (tools r) |}.

Definition getAllTools (r : Repo) : list (string * ToolMetadata) := tools r.

End Repository.

(** ** services/agent.service.ts, with factories/agent-factory.ts,
       commands/agent-execution.command.ts and
       observers/agent-event.observer.ts *)

Module AgentService.
Import JsString ToolStrategy Repository.

(** [AgentContext]; [input] is whatever value the caller put there. *)
Record AgentContext := {
  input : JsVal;
  history : option (list (string * string));
  sessionId : option string
}.

(** The metadata object of a response. *)
Record ResponseMetadata := {
  meta_agentName : option string;
  meta_tools : list string;
  meta_availableTools : list string;
  meta_fallbackUsed : bool;
  meta_error : option string
}.

(** [AgentResponse] *)
Record AgentResponse := {
  output : string;
  response_metadata : ResponseMetadata
}.

(** The events [AgentEventSubject] hands to its observers. *)
Inductive AgentEvent : Type :=
| AgentRegistered (agentName : string)
| AgentExecuted (agentName : string) (context : AgentContext)
    (response : AgentResponse)
| AgentError (agentName : string) (error : string)
| ToolRegistered (toolName : string).

(** The state of the service: the repository, and the events emitted so
    far, oldest first. *)
Record State := {
  repo : Repo;
  events : list AgentEvent
}.

Definition emit (e : AgentEvent) (st : State) : State :=
  {| repo := repo st; events := events st ++ [e] |}.

(** *** The language-model side *)

Inductive ProviderType := openai | anthropic | google | azure | custom.

(** A chat model object. *)
Record LLM := {
  llm_id : nat;
  llm_modelName : option string;
  llm_temperature : option Q;
  llm_maxTokens : option Z
}.

(** [AIProviderConfig] *)
Record AIProviderConfig := {
  provider_type : ProviderType;
  apiKey : option string;
  customLLM : option LLM
}.

(** [new AgentExecutor({ agent, tools, verbose, maxIterations, ... })] *)
Record AgentExecutor := {
  executor_agent : nat;
  executor_tools : list DynamicTool;
  maxIterations : Z
}.

(** What the service gets from outside: the platform of the tool strategy,
    the environment, the constructors of the model libraries, and the
    executor's [invoke], of whose result the [output] is kept ([None]
    when it is [undefined]). *)
Record World := {
  platform : Platform;
  getenv : string -> option string;
  new_model : ProviderType -> AgentConfig -> AIProviderConfig -> result LLM;
  fromTemplate : string -> result string;
  createOpenAIFunctionsAgent :
    LLM -> list DynamicTool -> string -> result nat;
  invoke :
    AgentExecutor -> JsVal -> list (string * string)
    -> result (option string)
}.

Section Service.
Variable world : World.

(** [AgentFactory.aiProviderConfig] *)
Variable aiProviderConfig : option AIProviderConfig.

Definition is_set (v : option string) : bool :=
  match v with
  | Some s => negb (String.eqb s EmptyString)
  | None => false
  end.

(** [getDefaultProviderConfig()] *)
Definition getDefaultProviderConfig : AIProviderConfig :=
  let env := getenv world in
  if is_set (env "OPENAI_API_KEY") then
    {| provider_type := openai; apiKey := env "OPENAI_API_KEY";
       customLLM := None |}
  else if is_set (env "ANTHROPIC_API_KEY") then
    {| provider_type := anthropic; apiKey := env "ANTHROPIC_API_KEY";
       customLLM := None |}
  else if is_set (env "GOOGLE_API_KEY") then
    {| provider_type := google; apiKey := env "GOOGLE_API_KEY";
       customLLM := None |}
  else if is_set (env "AZURE_OPENAI_API_KEY") then
    {| provider_type := azure; apiKey := env "AZURE_OPENAI_API_KEY";
       customLLM := None |}
  else {| provider_type := openai; apiKey := None; customLLM := None |}.

(** [createCustomLLM(config, providerConfig)] *)
Definition createCustomLLM (config : AgentConfig)
    (providerConfig : AIProviderConfig) : result LLM :=
  match customLLM providerConfig with
  | None =>
      Throw
        "Custom LLM instance is required when using custom provider type"
  | Some llm =>
      Ok {| llm_id := llm_id llm;
            llm_modelName :=
              if is_set (model config) then model config
              else llm_modelName llm;
            llm_temperature :=
              match temperature config with
              | Some t => Some t
              | None => llm_temperature llm
              end;
            llm_maxTokens :=
              match maxTokens config with
              | Some m => Some m
              | None => llm_maxTokens llm
              end |}
  end.

(** [createLLM(config)]: errors are logged and thrown again. *)
Definition createLLM (config : AgentConfig) : result LLM :=
  let providerConfig :=
    match aiProviderConfig with
    | Some c => c
    | None => getDefaultProviderConfig
    end in
  match provider_type providerConfig with
  | openai => new_model world openai config providerConfig
  | anthropic =>
      try_catch (new_model world anthropic config providerConfig)
        (fun _ => Throw
           ("Anthropic provider requires @langchain/anthropic package. "
            +:+ "Install it with: npm install @langchain/anthropic"))
  | google =>
      try_catch (new_model world google config providerConfig)
        (fun _ => Throw
           ("Google provider requires @langchain/google-genai package. "
            +:+ "Install it with: npm install @langchain/google-genai"))
  | azure => new_model world azure config providerConfig
  | custom => createCustomLLM config providerConfig
  end.

Definition defaultSystemPrompt : string :=
  "You are an intelligent assistant with access to various tools and skills.

Your capabilities include:
- Mathematical calculations
- Weather information retrieval
- Date formatting and manipulation
- Email validation
- Password generation
- Sentiment analysis
- Text summarization
- Currency conversion

Please use the appropriate tools when needed to provide accurate and helpful responses.".

(** [createSystemPrompt(config)] *)
Definition createSystemPrompt (config : AgentConfig) : string :=
  if is_set (systemPrompt config)
  then match systemPrompt config with Some p => p | None => EmptyString end
  else defaultSystemPrompt.

(** [createAgentExecutor(llm, tools, systemPrompt)] *)
Definition createAgentExecutor (llm : LLM) (tools : list DynamicTool)
    (systemPrompt : string) : result AgentExecutor :=
  bind (fromTemplate world
          (systemPrompt +:+ "

Current conversation:
{chat_history}
Human: {input}
{agent_scratchpad}")) (fun prompt =>
  bind (createOpenAIFunctionsAgent world llm tools prompt) (fun agent =>
  Ok {| executor_agent := agent; executor_tools := tools;
        maxIterations := 3 |})).

(** *** The fallback dispatcher *)

Definition apology : string :=
  "I'm sorry, I couldn't process your request properly. Please try rephrasing your question.".

(** The value of [isRelevant] for a tool and the lower-cased input. *)
Definition isRelevant (tool : DynamicTool) (inputLower : string) : bool :=
  let toolName := toLowerCase (tool_name tool) in
  let toolDescription := toLowerCase (tool_description tool) in
  includes inputLower toolName
  || existsb (fun word => includes inputLower word) (split "-" toolName)
  || existsb (fun word => (3 <? String.length word)%nat
                          && includes inputLower word)
       (split " " toolDescription).

(** [executeToolsDirectly(tools, input)]: each turn of the loop runs
    inside its own [try]; a turn that returns ends the loop, a turn that
    throws or finds the tool irrelevant goes on to the next tool. On an
    [input] that is not a string, [input.toLowerCase()] throws in every
    turn. *)
Fixpoint executeToolsDirectly (tools : list DynamicTool) (input : JsVal)
  : result string :=
  match tools with
  | [] => Ok apology
  | tool :: rest =>
      let turn : result (option string) :=
        match input with
        | Some (JStr text) =>
            if isRelevant tool (toLowerCase text) then
              bind (func tool text) (fun result =>
                Ok (Some ("Based on the " +:+ tool_name tool
                          +:+ " information: " +:+ result)))
            else Ok None
        | _ => Throw "input.toLowerCase is not a function"
        end in
      match try_catch turn (fun _ => Ok None) with
      | Ok (Some answer) => Ok answer
      | _ => executeToolsDirectly rest input
      end
  end.

(** A tool is relevant to an input when, all in lower case, the input
    contains the tool's name, or one of the parts of the name between
    hyphens, or a word of the description longer than 3 characters. *)
Definition relevant (tool : DynamicTool) (text : string) : Prop :=
  let inputLower := toLowerCase text in
  includes inputLower (toLowerCase (tool_name tool)) = true
  ∨ (∃ word, word ∈ split "-" (toLowerCase (tool_name tool))
             ∧ includes inputLower word = true)
  ∨ (∃ word, word ∈ split " " (toLowerCase (tool_description tool))
             ∧ (3 < String.length word)%nat
             ∧ includes inputLower word = true).

(** The tool does not answer: it is not relevant, or its callable
    throws. *)
Definition passed_over (tool : DynamicTool) (text : string) : Prop :=
  ¬ relevant tool text ∨ ∃ e, func tool text = Throw e.

Definition based_on (tool : DynamicTool) (result : string) : string :=
  "Based on the " +:+ tool_name tool +:+ " information: " +:+ result.

(** [new FallbackToolExecutionCommand(tools, input, executor).execute()] *)
Definition fallbackCommand (tools : list DynamicTool) (input : JsVal)
  : result AgentResponse :=
  bind (executeToolsDirectly tools input) (fun result =>
  Ok {| output := result;
        response_metadata :=
          {| meta_agentName := None; meta_tools := [];
             meta_availableTools := tool_name <$> tools;
             meta_fallbackUsed := true; meta_error := None |} |}).

(** *** The orchestrator *)

Definition stopped : string := "Agent stopped due to max iterations.".

(** [result.output && result.output !== 'Agent stopped due to max
    iterations.'], with the answer when it holds. *)
Definition usable_output (output : option string) : option string :=
  match output with
  | Some answer =>
      if negb (String.eqb answer EmptyString) && negb (String.eqb answer stopped)
      then Some answer else None
  | None => None
  end.

(** [executeAgentInternal(agentName, context)] *)
Definition executeAgentInternal (agentName : string)
    (context : AgentContext) (r : Repo) : result AgentResponse :=
  match getAgent agentName r with
  | None =>
      Throw "Cannot destructure property 'metadata' of 'agent' as it is undefined."
  | Some agent =>
      let metadata := metadata agent in
      let allTools := getAllTools r in
      let agentTools :=
        List.filter
          (fun entry => Nat.eqb (instance (snd entry)) (agent_instance agent))
          allTools in
      let tools := createToolsFromMetadata (platform world) agentTools in
      bind (createLLM metadata) (fun llm =>
      let systemPrompt := createSystemPrompt metadata in
      bind (createAgentExecutor llm tools systemPrompt) (fun agentExecutor =>
      let meta fallback error :=
        {| meta_agentName := Some agentName;
           meta_tools := fst <$> agentTools;
           meta_availableTools := tool_name <$> tools;
           meta_fallbackUsed := fallback;
           meta_error := error |} in
      try_catch
        (bind (invoke world agentExecutor (input context)
                 (match history context with Some h => h | None => [] end))
           (fun result =>
            match usable_output result with
            | Some answer =>
                Ok {| output := answer;
                      response_metadata := meta false None |}
            | None =>
                bind (fallbackCommand tools (input context))
                  (fun fallbackResponse =>
                   Ok {| output := output fallbackResponse;
                         response_metadata := meta true None |})
            end))
        (fun message =>
           Ok {| output :=
                   "I encountered an error while processing your request: "
                   +:+ message;
                 response_metadata := meta false (Some message) |})))
  end.

(** The adapters [executeAgentInternal] builds for an agent, and the
    names of the agent's tools. *)
Definition tools_of (agent : AgentEntry) (r : Repo) : list DynamicTool :=
  createToolsFromMetadata (platform world)
    (List.filter
       (fun entry => Nat.eqb (instance (snd entry)) (agent_instance agent))
       (getAllTools r)).

Definition tool_names_of (agent : AgentEntry) (r : Repo) : list string :=
  fst <$> List.filter
            (fun entry =>
               Nat.eqb (instance (snd entry)) (agent_instance agent))
            (getAllTools r).

(** [!context.input || typeof context.input !== 'string'] *)
Definition invalid_input (v : JsVal) : bool :=
  negb (truthy v) ||
  negb (match v with Some (JStr _) => true | _ => false end).

(** [executeAgent(agentName, context)]; [None] is an absent context. *)
Definition executeAgent (agentName : string)
    (context : option AgentContext) (st : State)
  : result AgentResponse * State :=
  match context with
  | None => (Throw "Context is required for agent execution", st)
  | Some context =>
      if invalid_input (input context) then
        (Throw "Valid input string is required for agent execution", st)
      else
        match getAgent agentName (repo st) with
        | None => (Throw ("Agent " +:+ agentName +:+ " not found"), st)
        | Some _ =>
            match executeAgentInternal agentName context (repo st) with
            | Ok response =>
                (Ok response,
                 emit (AgentExecuted agentName context response) st)
            | Throw error =>
                (Throw error, emit (AgentError agentName error) st)
            end
        end
  end.

End Service.

End AgentService.

(** ** abstracts/base-agent-provider.abstract.ts *)

Module BaseAgentProvider.
Import Repository AgentService.

(** An agent provider: its name, the metadata the reflector returns for
    its class, and its two optional hooks. *)
Record Provider := {
  agentName : string;
  reflected_metadata : option AgentConfig;
  beforeModelCall :
    option (AgentContext -> option AgentConfig -> result AgentContext);
  afterModelCall :
    option (AgentContext -> AgentResponse -> option AgentConfig
            -> result AgentResponse)
}.

(** [value.length], evaluated for the performance log. *)
Definition js_length (v : JsVal) : result unit :=
  match v with
  | None => Throw "Cannot read properties of undefined (reading 'length')"
  | Some JNull => Throw "Cannot read properties of null (reading 'length')"
  | Some _ => Ok tt
  end.

Section Execute.
Variable world : World.
Variable aiProviderConfig : option AIProviderConfig.
Variable provider : Provider.

(** The before stage: the context handed to the core execution. *)
Definition before_stage (context : AgentContext) : AgentContext :=
  match beforeModelCall provider with
  | Some hook =>
      match hook context (reflected_metadata provider) with
      | Ok processedContext => processedContext
      | Throw _ => context
      end
  | None => context
  end.

(** The after stage: the response returned to the caller. *)
Definition after_stage (context : AgentContext) (result : AgentResponse)
  : AgentResponse :=
  match afterModelCall provider with
  | Some hook =>
      match hook context result (reflected_metadata provider) with
      | Ok finalResult => finalResult
      | Throw _ => result
      end
  | None => result
  end.

(** [execute(context)]; whatever is thrown inside the outer [try] is
    logged and thrown again. *)
Definition execute (context : option AgentContext) (st : State)
  : result AgentResponse * State :=
  match context with
  | None => (Throw "Context is required for agent execution", st)
  | Some context =>
      let processedContext := before_stage context in
      match executeAgent world aiProviderConfig (agentName provider)
              (Some processedContext) st with
      | (Ok result, st') =>
          let finalResult := after_stage context result in
          match js_length (input context) with
          | Ok _ => (Ok finalResult, st')
          | Throw error => (Throw error, st')
          end
      | (Throw error, st') => (Throw error, st')
      end
  end.

End Execute.

End BaseAgentProvider.

(** ** Predicates used to state the properties *)

Module Shape.
Import JsString.

(** Every character of [s] satisfies [P]. *)
Fixpoint all_chars (P : ascii -> bool) (s : string) : bool :=
  match s with
  | EmptyString => true
  | String c s' => P c && all_chars P s'
  end.

(** The white space of [s] consists of single blanks; [after_space] tells
    that the character before [s] was white space. *)
Fixpoint tidy (after_space : bool) (s : string) : bool :=
  match s with
  | EmptyString => true
  | String c s' =>
      if is_space c
      then Ascii.eqb c " " && negb after_space && tidy true s'
      else tidy false s'
  end.

(** [s] does not start with white space. *)
Definition starts_clean (s : string) : bool :=
  match s with
  | EmptyString => true
  | String c _ => negb (is_space c)
  end.

End Shape.

(** What each step of [validateInput] after the first reports on its own:
    no error, or its one error. *)
Module GuardSteps.
Import JsString InputGuard.

Definition length_step (config : SecurityConfig) (input : string)
  : list string :=
  match maxInputLength config with
  | Some max =>
      if negb (max =? 0) && (max <? Z.of_nat (String.length input))
      then [length_error max] else []
  | None => []
  end.

Definition malicious_step (sanitized : string) : list string :=
  if containsMaliciousContent sanitized then [malicious_error] else [].

Definition disallowed_urls (url_hostname : string -> option string)
    (config : SecurityConfig) (sanitized : string) : list string :=
  match allowedDomains config with
  | Some _ =>
      List.filter (fun url => negb (isAllowedDomain url_hostname config url))
        (extractUrls sanitized)
  | None => []
  end.

Definition url_step (url_hostname : string -> option string)
    (config : SecurityConfig) (sanitized : string) : list string :=
  if containsExternalUrls sanitized then
    match disallowed_urls url_hostname config sanitized with
    | [] => []
    | urls => [url_error urls]
    end
  else [].

(** The text the later steps look at. *)
Definition sanitized_text (config : SecurityConfig) (input : string)
  : string :=
  if sanitizeInput_enabled config then sanitizeInput input else input.

End GuardSteps.

(** ** Sample data for the examples *)

Module Samples.
Import JsString ToolStrategy Repository AgentService.

(** The text [{"zip":"0150"}]. *)
Definition zip_payload : string :=
  "{" +:+ String dq "zip" +:+ String dq ":" +:+ String dq "0150"
  +:+ String dq "}".

(** The text [{"__proto__":"0150"}]. *)
Definition proto_payload : string :=
  "{" +:+ String dq "__proto__" +:+ String dq ":" +:+ String dq "0150"
  +:+ String dq "}".

(** [JSON.parse] on the texts of the examples: [zip_payload] and
    [proto_payload] are the ones among them that are JSON. *)
Definition sample_JSON_parse (text : string) : result Json :=
  if String.eqb text zip_payload
  then Ok (JObj [("zip", JStr "0150")])
  else if String.eqb text proto_payload
  then Ok (JObj [("__proto__", JStr "0150")])
  else Throw "Unexpected token in JSON at position 0".

(** [JSON.stringify] rejects a BigInt, and none of the other values of
    the examples. *)
Definition sample_JSON_stringify_error (value : JsVal) : option string :=
  match value with
  | Some (JNative "10n") => Some "Do not know how to serialize a BigInt"
  | _ => None
  end.

(** [String(value)] on strings, [undefined], the BigInt [10n] and
    objects. *)
Definition sample_String (value : JsVal) : result string :=
  match value with
  | Some (JStr s) => Ok s
  | None => Ok "undefined"
  | Some (JNative "10n") => Ok "10"
  | Some _ => Ok "[object Object]"
  end.

(** The members an object made by [JSON.parse] inherits from
    [Object.prototype]; the members of the other prototypes are not
    listed, no example reads one. *)
Definition sample_inherited (value : Json) (k : string) : JsVal :=
  match value with
  | JObj _ =>
      if existsb (String.eqb k)
           ["constructor"; "hasOwnProperty"; "isPrototypeOf";
            "propertyIsEnumerable"; "toLocaleString"; "toString";
            "valueOf"; "__defineGetter__"; "__defineSetter__";
            "__lookupGetter__"; "__lookupSetter__"]
      then Some (JNative ("Object.prototype." +:+ k))
      else undefined
  | _ => undefined
  end.

(** [new Error(message)] as a thrown value *)
Definition js_Error (message : string) : JsVal :=
  Some (JObj [("message", JStr message)]).

(** The methods of instance 1: [getWeather] answers for an object with a
    [zip] field and fails otherwise. *)
Definition sample_call_method (instance : nat) (methodName : string)
    (argument : Json) : Completion :=
  match argument with
  | JObj fields =>
      match get_field "zip" fields with
      | Some (JStr zip) => Returns (Some (JStr ("Sunny in " +:+ zip)))
      | _ => Throws (js_Error "zip is required")
      end
  | _ => Throws (js_Error "zip is required")
  end.

(** [new URL(url).hostname] on the URLs of the examples. *)
Definition sample_hostname (url : string) : option string :=
  if startsWith url "https://api.openai.com/" then Some "api.openai.com"
  else None.

Definition sample_platform : Platform :=
  {| JSON_parse := sample_JSON_parse;
     JSON_stringify_error := sample_JSON_stringify_error;
     js_String := sample_String;
     inherited := sample_inherited;
     call_method := sample_call_method |}.

Definition zip_parameter : ToolParameter :=
  {| param_type := "string"; param_description := "Postal code";
     param_enum := None; required := true |}.

Definition weather_tool : ToolMetadata :=
  {| name := "get-weather";
     description := "Get current weather for a postal code";
     parameters := Some [("zip", zip_parameter)];
     methodName := "getWeather";
     instance := 1 |}.

Definition weather_agent : AgentConfig :=
  {| agent_name := "assistant"; agent_description := "Sample assistant";
     model := None; temperature := None; maxTokens := None;
     systemPrompt := None |}.

Definition sample_repo : Repo :=
  saveTool "get-weather" weather_tool
    (saveAgent "assistant" weather_agent 1
       {| agents := ∅; tools := [] |}).

Definition sample_state : State :=
  {| repo := sample_repo; events := [] |}.

Definition sample_llm : LLM :=
  {| llm_id := 0; llm_modelName := Some "gpt-3.5-turbo";
     llm_temperature := None; llm_maxTokens := None |}.

(** A world whose model libraries work and whose executor fails with a
    network error. *)
Definition failing_world : World :=
  {| platform := sample_platform;
     getenv := fun _ => None;
     new_model := fun _ _ _ => Ok sample_llm;
     fromTemplate := fun template => Ok template;
     createOpenAIFunctionsAgent := fun _ _ _ => Ok 0%nat;
     invoke := fun _ _ _ => Throw "connect ECONNREFUSED" |}.

(** The same world with an executor that stops without an answer. *)
Definition stopping_world : World :=
  {| platform := sample_platform;
     getenv := fun _ => None;
     new_model := fun _ _ _ => Ok sample_llm;
     fromTemplate := fun template => Ok template;
     createOpenAIFunctionsAgent := fun _ _ _ => Ok 0%nat;
     invoke := fun _ _ _ => Ok (Some stopped) |}.

(** The same world with a prompt library that rejects the template. *)
Definition broken_template_world : World :=
  {| platform := sample_platform;
     getenv := fun _ => None;
     new_model := fun _ _ _ => Ok sample_llm;
     fromTemplate := fun _ => Throw "Single '}' in template.";
     createOpenAIFunctionsAgent := fun _ _ _ => Ok 0%nat;
     invoke := fun _ _ _ => Ok (Some stopped) |}.

(** The provider configuration that names a custom model and gives
    none. *)
Definition custom_without_model : AIProviderConfig :=
  {| provider_type := custom; apiKey := None; customLLM := None |}.

Definition calculator_adapter : DynamicTool :=
  {| tool_name := "calculator";
     tool_description := "Add two numbers";
     func := fun _ => Ok "4" |}.

Definition weather_adapter : DynamicTool :=
  {| tool_name := "get-weather";
     tool_description := "Get current weather for a postal code";
     func := adapter sample_platform weather_tool |}.

Definition sample_context (text : string) : AgentContext :=
  {| input := Some (JStr text); history := None; sessionId := None |}.

End Samples.

Module SampleProviders.
Import Repository AgentService BaseAgentProvider.

(** A provider for the sample agent whose two hooks both throw. *)
Definition failing_hooks : Provider :=
  {| agentName := "assistant";
     reflected_metadata := Some Samples.weather_agent;
     beforeModelCall := Some (fun _ _ => Throw "before hook failed");
     afterModelCall := Some (fun _ _ _ => Throw "after hook failed") |}.

(** An after hook that always throws. *)
Definition failing_after (context : AgentContext) (response : AgentResponse)
    (metadata : option AgentConfig) : result AgentResponse :=
  Throw "after hook failed".

(** A provider whose before hook supplies the input of a context that
    has none, and whose after hook is [failing_after]. *)
Definition supplying_hooks : Provider :=
  {| agentName := "assistant";
     reflected_metadata := Some Samples.weather_agent;
     beforeModelCall :=
       Some (fun _ _ => Ok (Samples.sample_context "how is the weather"));
     afterModelCall := Some failing_after |}.

(** A context without input. *)
Definition empty_context : AgentContext :=
  {| input := None; history := None; sessionId := None |}.

End SampleProviders.

(** ** security.middleware.ts: keys and authentication *)

Module Authentication.
Import JsString.

(** The request headers the middleware reads. *)
Record Headers := {
  authorization : option string;
  x_api_key : option string
}.

(** The fields of the request context the middleware reads; an absent or
    empty field is falsy. *)
Record RequestContext := {
  headers : option Headers;
  ip : option string;
  userId : option string;
  sessionId : option string
}.

(** [object?.field] *)
Definition optional {A B} (object : option A) (field : A -> option B)
  : option B :=
  match object with
  | Some o => field o
  | None => None
  end.

(** [value || fallback] on strings that may be absent. *)
Definition or_string (value : option string) (fallback : option string)
  : option string :=
  match value with
  | Some (String _ _) => value
  | _ => fallback
  end.

(** [generateRateLimitKey(context)]: [keyGenerator] is the configured
    [rateLimit.keyGenerator], when there is one. *)
Definition generateRateLimitKey
    (keyGenerator : option (option RequestContext -> string))
    (context : option RequestContext) : string :=
  match keyGenerator with
  | Some generate => generate context
  | None =>
      match or_string (optional context ip)
              (or_string (optional context userId)
                 (or_string (optional context sessionId)
                    (Some "anonymous"))) with
      | Some key => key
      | None => "anonymous"
      end
  end.

Inductive AuthType := jwt | api_key | oauth.

(** [SecurityConfig.authentication]; [validKeys] is [config?.validKeys]. *)
Record AuthConfig := {
  enabled : bool;
  auth_type : AuthType;
  validKeys : option (list string)
}.

Record User := {
  user_id : string;
  role : string
}.

Record AuthResult := {
  authenticated : bool;
  user : option User;
  error : option string
}.

(** [s.replace(pattern, replacement)] for a string pattern: the first
    occurrence only. *)
Fixpoint drop_chars (n : nat) (s : string) : string :=
  match n, s with
  | S n', String _ s' => drop_chars n' s'
  | _, _ => s
  end.

Fixpoint replace_first (pattern replacement s : string) : string :=
  if startsWith s pattern
  then replacement +:+ drop_chars (String.length pattern) s
  else match s with
       | EmptyString => EmptyString
       | String c s' => String c (replace_first pattern replacement s')
       end.

(** [context?.headers?.authorization?.replace('Bearer ', '')] *)
Definition bearer_token (context : option RequestContext) : option string :=
  match optional (optional context headers) authorization with
  | Some header => Some (replace_first "Bearer " EmptyString header)
  | None => None
  end.

(** [validateJWT(context, config)] *)
Definition validateJWT (context : option RequestContext) : AuthResult :=
  match or_string (bearer_token context) None with
  | None =>
      {| authenticated := false; user := None;
         error := Some "No JWT token provided" |}
  | Some _ =>
      {| authenticated := true;
         user := Some {| user_id := "user-123"; role := "user" |};
         error := None |}
  end.

(** [context?.headers?.['x-api-key'] || context?.headers?.authorization] *)
Definition presented_key (context : option RequestContext) : option string :=
  or_string (optional (optional context headers) x_api_key)
    (optional (optional context headers) authorization).

(** [validateApiKey(context, config)] *)
Definition validateApiKey (context : option RequestContext)
    (config : AuthConfig) : AuthResult :=
  match or_string (presented_key context) None with
  | None =>
      {| authenticated := false; user := None;
         error := Some "No API key provided" |}
  | Some apiKey =>
      let keys := match validKeys config with Some ks => ks | None => [] end in
      if existsb (String.eqb apiKey) keys then
        {| authenticated := true;
           user := Some {| user_id := "api-user"; role := "api" |};
           error := None |}
      else
        {| authenticated := false; user := None;
           error := Some "Invalid API key" |}
  end.

(** [validateOAuth(context, config)] *)
Definition validateOAuth : AuthResult :=
  {| authenticated := true;
     user := Some {| user_id := "oauth-user"; role := "user" |};
     error := None |}.

(** [validateAuthentication(context)]; the argument [config] is
    [this.config.authentication]. *)
Definition validateAuthentication (config : option AuthConfig)
    (context : option RequestContext) : AuthResult :=
  match config with
  | Some auth =>
      if enabled auth then
        match auth_type auth with
        | jwt => validateJWT context
        | api_key => validateApiKey context auth
        | oauth => validateOAuth
        end
      else {| authenticated := true; user := None; error := None |}
  | None => {| authenticated := true; user := None; error := None |}
  end.

End Authentication.

(** ** repositories/agent-repository.ts: the rest of the tool map, and the
       registration methods of services/agent.service.ts *)

Module Registry.
Import ToolStrategy Repository AgentService.

(** [map.get(key)] on the entries of a [Map] *)
Fixpoint map_get {V} (key : string) (entries : list (string * V))
  : option V :=
  match entries with
  | [] => None
  | (k, v) :: rest => if String.eqb k key then Some v else map_get key rest
  end.

(** [map.delete(key)]: the entries left, and whether the key was there. *)
Fixpoint map_delete {V} (key : string) (entries : list (string * V))
  : list (string * V) * bool :=
  match entries with
  | [] => ([], false)
  | (k, v) :: rest =>
      if String.eqb k key then (rest, true)
      else let '(rest', found) := map_delete key rest in
           ((k, v) :: rest', found)
  end.

Definition getTool (name : string) (r : Repo) : option ToolMetadata :=
  map_get name (tools r).

Definition deleteTool (name : string) (r : Repo) : Repo * bool :=
  let '(tools', found) := map_delete name (tools r) in
  ({| agents := agents r; tools := tools' |}, found).

Definition agentExists (name : string) (r : Repo) : bool :=
  bool_decide (is_Some (agents r !! name)).

Definition deleteAgent (name : string) (r : Repo) : Repo * bool :=
  ({| agents := delete name (agents r); tools := tools r |},
   agentExists name r).

(** [{ ...tool, instance }] *)
Definition with_instance (tool : ToolMetadata) (instance : nat)
  : ToolMetadata :=
  {| name := name tool; description := description tool;
     parameters := parameters tool; methodName := methodName tool;
     instance := instance |}.

(** [registerAgent(agentClass, instance)]; [metadata] is what
    [Reflect.getMetadata(AGENT_METADATA_KEY, agentClass)] returns. *)
Definition registerAgent (metadata : option AgentConfig) (instance : nat)
    (st : State) : State :=
  match metadata with
  | Some m =>
      emit (AgentRegistered (agent_name m))
        {| repo := saveAgent (agent_name m) m instance (repo st);
           events := events st |}
  | None => st
  end.

(** One turn of the [forEach] of [registerTools]. *)
Definition register_one (instance : nat) (st : State) (tool : ToolMetadata)
  : State :=
  emit (ToolRegistered (name tool))
    {| repo := saveTool (name tool) (with_instance tool instance) (repo st);
       events := events st |}.

(** [registerTools(agentClass, instance)]; [tools] is
    [Object.values(Reflect.getMetadata(TOOL_METADATA_KEY, agentClass))],
    [None] when the class has no tool metadata. *)
Definition registerTools (tools : option (list ToolMetadata))
    (instance : nat) (st : State) : State :=
  match tools with
  | Some ts => fold_left (register_one instance) ts st
  | None => st
  end.

(** [registerCustomTool(tool)] *)
Definition registerCustomTool (tool : ToolMetadata) (st : State) : State :=
  emit (ToolRegistered (name tool))
    {| repo := saveTool (name tool) tool (repo st); events := events st |}.

(** [getRegisteredTools()] *)
Definition getRegisteredTools (st : State) : list string :=
  fst <$> getAllTools (repo st).

End Registry.

(** ** observers/agent-event.observer.ts: the subject's observer list *)

Module EventSubject.
Import AgentService.

(** Observers are told apart by identity. *)
Definition addObserver (observer : nat) (observers : list nat) : list nat :=
  observers ++ [observer].

(** [observers.indexOf(observer)] followed by [splice(index, 1)] when the
    index is not -1: the first occurrence goes. *)
Fixpoint removeObserver (observer : nat) (observers : list nat) : list nat :=
  match observers with
  | [] => []
  | o :: rest =>
      if Nat.eqb o observer then rest
      else o :: removeObserver observer rest
  end.

(** [notifyObservers(event)]: the calls of [onAgentEvent], in order. *)
Definition notifyObservers (event : AgentEvent) (observers : list nat)
  : list (nat * AgentEvent) :=
  (fun o => (o, event)) <$> observers.

End EventSubject.

(** ** services/agent-logger.service.ts: the level filter *)

Module Logger.

(** [LoggingConfig]: [enabled] and [level], each possibly absent. *)
Record LoggingConfig := {
  enabled : option bool;
  level : option string
}.

Definition levels : list string := ["debug"; "info"; "warn"; "error"].

(** [array.indexOf(value)] *)
Fixpoint indexOf_from (i : Z) (value : string) (array : list string) : Z :=
  match array with
  | [] => -1
  | x :: rest =>
      if String.eqb x value then i else indexOf_from (i + 1) value rest
  end.

Definition indexOf (value : string) (array : list string) : Z :=
  indexOf_from 0 value array.

(** [isEnabled()] *)
Definition isEnabled (config : LoggingConfig) : bool :=
  match enabled config with
  | Some false => false
  | _ => true
  end.

(** [shouldLog(level)] *)
Definition shouldLog (config : LoggingConfig) (current : string) : bool :=
  if negb (isEnabled config) then false
  else
    let configLevel :=
      match level config with
      | Some (String _ _ as l) => l
      | _ => "info"
      end in
    let configLevelIndex := indexOf configLevel levels in
    let currentLevelIndex := indexOf current levels in
    configLevelIndex <=? currentLevelIndex.

End Logger.

(** ** services/agent-provider.service.ts *)

Module AgentProviderService.
Import Repository AgentService BaseAgentProvider.

(** [registerAgentProvider(provider)] on the entries of the provider map *)
Definition registerAgentProvider (provider : Provider)
    (providers : list (string * Provider)) : list (string * Provider) :=
  map_set (agentName provider) provider providers.

(** [registerAgentProviders(providers)] *)
Definition registerAgentProviders (new : list Provider)
    (providers : list (string * Provider)) : list (string * Provider) :=
  fold_left (fun acc provider => registerAgentProvider provider acc)
    new providers.

Definition getAgentProvider (agentName : string)
    (providers : list (string * Provider)) : option Provider :=
  Registry.map_get agentName providers.

Definition isAgentRegistered (agentName : string)
    (providers : list (string * Provider)) : bool :=
  match Registry.map_get agentName providers with
  | Some _ => true
  | None => false
  end.

Definition getRegisteredAgentNames (providers : list (string * Provider))
  : list string :=
  fst <$> providers.

(** [unregisterAgentProvider(agentName)]: the entries left and
    [wasRegistered]. *)
Definition unregisterAgentProvider (agentName : string)
    (providers : list (string * Provider))
  : list (string * Provider) * bool :=
  if isAgentRegistered agentName providers
  then ((Registry.map_delete agentName providers).1, true)
  else (providers, false).

Section Dispatch.
Variable world : World.
Variable aiProviderConfig : option AIProviderConfig.

(** [LoggingConfig.detailedExecution] of the logger: when set,
    [logAgentExecution] evaluates [input.substring(0, 100)]. *)
Variable detailedExecution : bool.

(** [executeAgent(agentName, context)]; the debug log reads
    [context.input] before anything else. *)
Definition executeAgent (providers : list (string * Provider))
    (agentName : string) (context : option AgentContext) (st : State)
  : result AgentResponse * State :=
  match context with
  | None =>
      (Throw "Cannot read properties of undefined (reading 'input')", st)
  | Some ctx =>
      match Registry.map_get agentName providers with
      | None =>
          (Throw ("Agent provider '" +:+ agentName +:+ "' not found"), st)
      | Some provider =>
          match execute world aiProviderConfig provider (Some ctx) st with
          | (Ok result, st') =>
              if detailedExecution then
                match input ctx with
                | Some (JStr _) => (Ok result, st')
                | _ => (Throw "input.substring is not a function", st')
                end
              else (Ok result, st')
          | (Throw error, st') => (Throw error, st')
          end
      end
  end.

End Dispatch.

End AgentProviderService.

Module ShapeMore.
Import JsString.

(** [s] does not end with white space. *)
Fixpoint ends_clean (s : string) : bool :=
  match s with
  | EmptyString => true
  | String c EmptyString => negb (is_space c)
  | String _ s' => ends_clean s'
  end.

End ShapeMore.

Module ResolverShape.
Import ToolStrategy.

(** Two schemas with the same names and the same required flags, in the
    same order. *)
Definition same_names (ps ps' : list (string * ToolParameter)) : Prop :=
  Forall2 (λ a b, a.1 = b.1 ∧ required a.2 = required b.2) ps ps'.


(** The words of the operation pattern. *)
Definition operation_words : list string :=
  ["add"; "subtract"; "multiply"; "divide"; "power"; "sqrt"].

End ResolverShape.

Module SamplesMore.
Import ToolStrategy.

(** A [zip] parameter declared as a number with an enumeration. *)
Definition typed_zip_parameter : ToolParameter :=
  {| param_type := "number"; param_description := "Digits only";
     param_enum := Some ["0150"; "0151"]; required := true |}.

Definition other_zip_tool : ToolMetadata :=
  {| name := "other"; description := "Another tool";
     parameters := Some [("zip", typed_zip_parameter)];
     methodName := "other"; instance := 2 |}.

(** An optional parameter. *)
Definition optional_parameter : ToolParameter :=
  {| param_type := "string"; param_description := "Optional";
     param_enum := None; required := false |}.

(** A tool without parameters. *)
Definition echo_tool : ToolMetadata :=
  {| name := "echo"; description := "Echo the message";
     parameters := None; methodName := "echo"; instance := 1 |}.


(** The platform of the examples with tool methods that reject without
    a reason, as [Promise.reject()] does. *)
Definition rejecting_platform : Platform :=
  {| JSON_parse := Samples.sample_JSON_parse;
     JSON_stringify_error := Samples.sample_JSON_stringify_error;
     js_String := Samples.sample_String;
     inherited := Samples.sample_inherited;
     call_method := fun _ _ _ => Throws None |}.

(** The platform of the examples with tool methods that return the
    BigInt [10n]. *)
Definition bigint_platform : Platform :=
  {| JSON_parse := Samples.sample_JSON_parse;
     JSON_stringify_error := Samples.sample_JSON_stringify_error;
     js_String := Samples.sample_String;
     inherited := Samples.sample_inherited;
     call_method := fun _ _ _ => Returns (Some (JNative "10n")) |}.

End SamplesMore.

(** ** Stores compared up to expired entries *)

Module StoreShape.
Import RateLimiter.

(** Two stores that differ only by entries expired at [now]. *)
Definition same_live (now : Z) (s1 s2 : gmap string RateWindowEntry)
  : Prop :=
  ∀ key, s1 !! key = s2 !! key
         ∨ (s1 !! key = None ∧ ∃ e, s2 !! key = Some e ∧ resetTime e ≤ now).

End StoreShape.

(** ** middleware/security.middleware.ts: the statistics *)

Module SecurityStats.
Import RateLimiter.

Record Stats := {
  rateLimitEntries : Z;
  blockedRequests : Z;
  maliciousContentDetected : Z
}.

(** [getSecurityStats()], with the [rateLimitStore] passed in. *)
Definition getSecurityStats (store : gmap string RateWindowEntry) : Stats :=
  {| rateLimitEntries := Z.of_nat (size store);
     blockedRequests := 0;
     maliciousContentDetected := 0 |}.

End SecurityStats.

(** * Properties *)

(** ** The embedding on concrete inputs *)

Section Examples.
Import JsString Regex InputGuard ToolStrategy AgentService.

(** The scenario of the specification: from "what's 2 + 2?" the numbers
    are found for [a] and [b], and no operation is, the plus sign not
    being in the vocabulary. *)
Example extract_two_plus_two :
  extractParameterFromString "what's 2 + 2?" <$> ["a"; "b"; "operation"]
  = [Some (JNum (2 # 1)); Some (JNum (2 # 1)); None].
Proof. vm_compute. reflexivity. Qed.

Example extract_city :
  extractParameterFromString "Weather in New York?" "city"
  = Some (JStr "New York").
Proof. vm_compute. reflexivity. Qed.

(** The pattern has no word boundary: the "at" of "What" starts the
    match. *)
Example extract_city_from_what :
  extractParameterFromString "What is the weather in New York?" "city"
  = Some (JStr "is the weather in New York").
Proof. vm_compute. reflexivity. Qed.

Example extract_operation_and_decimals :
  extractParameterFromString "Multiply 2.5 by 10" <$> ["operation"; "a"; "b"]
  = [Some (JStr "multiply"); Some (JNum (25 # 10)); Some (JNum (10 # 1))].
Proof. vm_compute. reflexivity. Qed.

Example extract_email :
  extractParameterFromString "write to jo.doe@example.co.uk, please" "email"
  = Some (JStr "jo.doe@example.co.uk").
Proof. vm_compute. reflexivity. Qed.

(** Property reads on parsed values: own properties of strings and
    arrays, members inherited from a prototype, and the prototype
    itself. *)
Example reads_on_parsed_values :
  js_get Samples.sample_platform (JStr "abc") <$> ["length"; "1"; "3"; "01"]
  = [Ok (Some (JNum (3 # 1))); Ok (Some (JStr "b")); Ok None; Ok None]
  ∧ js_get Samples.sample_platform (JArr [JStr "x"; JNull])
      <$> ["length"; "1"; "2"]
    = [Ok (Some (JNum (2 # 1))); Ok (Some JNull); Ok None]
  ∧ js_get Samples.sample_platform (JObj [("zip", JStr "0150")])
      <$> ["zip"; "constructor"; "__proto__"; "city"]
    = [Ok (Some (JStr "0150"));
       Ok (Some (JNative "Object.prototype.constructor"));
       Ok (Some (JNative "Object.prototype")); Ok None].
Proof. vm_compute. done. Qed.

(** Optional parameters named after inherited members are filled from
    the prototype chain, and [__proto__] leaves no field. *)
Example inherited_members_are_extracted :
  extract_from_json Samples.sample_platform "{}" (JObj [])
    [("constructor", SamplesMore.optional_parameter);
     ("__proto__", SamplesMore.optional_parameter);
     ("city", SamplesMore.optional_parameter)] [] false false
  = Ok ([("constructor", JNative "Object.prototype.constructor")], true).
Proof. vm_compute. reflexivity. Qed.

(** On a parsed string, [__proto__] makes [String.prototype] the
    prototype of the extracted object, and the assignment of [length]
    throws. *)
Example length_is_read_only_after_proto :
  returns
    (extract_from_json Samples.sample_platform "x" (JStr "abc")
       [("__proto__", SamplesMore.optional_parameter);
        ("length", SamplesMore.optional_parameter)] [] false false)
  = false
  ∧ extract_from_json Samples.sample_platform "x" (JStr "abc")
      [("length", SamplesMore.optional_parameter);
       ("__proto__", SamplesMore.optional_parameter)] [] false false
    = Ok ([("length", JNum (3 # 1))], true).
Proof. vm_compute. done. Qed.

Example malicious_inputs :
  containsMaliciousContent <$>
    ["please DROP the table"; "a dropdown menu"; "run bash now";
     "<script>alert(1)</script>"; "open ../etc/passwd"; "photo.exe";
     "photo.exe is attached"]
  = [true; false; true; true; true; true; false].
Proof. vm_compute. reflexivity. Qed.

Example sanitize_text :
  sanitizeInput ("  what " +:+ String (ascii_of_N 0) (String (ascii_of_N 9)
                   (String (ascii_of_N 7) "  is   this  ")))
  = "what is this".
Proof. vm_compute. reflexivity. Qed.

Example urls_of_text :
  extractUrls "see https://api.openai.com/v1 and HTTP://evil.example/x now"
  = ["https://api.openai.com/v1"; "HTTP://evil.example/x"].
Proof. vm_compute. reflexivity. Qed.

Example validate_reports_all :
  validateInput Samples.sample_hostname
    {| maxInputLength := Some 20;
       allowedDomains := Some ["api.openai.com"];
       sanitizeInput_enabled := true |}
    (Some (JStr "select   from https://evil.example/x  "))
  = {| isValid := false; sanitizedInput := None;
       errors :=
         Some ["Input length exceeds maximum allowed length of 20 characters";
               "Input contains potentially malicious content";
               "External URLs not allowed: https://evil.example/x"] |}.
Proof. vm_compute. reflexivity. Qed.

Example relevance_by_name_part :
  isRelevant Samples.weather_adapter (toLowerCase "Will I GET wet?") = true
  ∧ isRelevant Samples.calculator_adapter (toLowerCase "Will I GET wet?")
    = false.
Proof. vm_compute. done. Qed.

Example rate_limit_of_one :
  (RateLimiter.run
     (Some {| RateLimiter.maxRequests := 1; RateLimiter.windowMs := 60 |})
     [(1000, "10.0.0.1"); (2000, "10.0.0.1"); (61000, "10.0.0.1")] ∅).1
  = [("10.0.0.1", {| RateLimiter.allowed := true; RateLimiter.remaining := 0;
                     RateLimiter.resultResetTime := 61000 |});
     ("10.0.0.1", {| RateLimiter.allowed := false; RateLimiter.remaining := 0;
                     RateLimiter.resultResetTime := 61000 |});
     ("10.0.0.1", {| RateLimiter.allowed := true; RateLimiter.remaining := 0;
                     RateLimiter.resultResetTime := 121000 |})].
Proof. vm_compute. reflexivity. Qed.

End Examples.

(** ** The rate limiter *)

Section RateLimiterProperties.
Import RateLimiter.

Variable rl : RateLimitConfig.
Variable k : string.


Lemma checks_of_cons_same r rs :
  checks_of k ((k, r) :: rs) = r :: checks_of k rs.
Proof. unfold checks_of. rewrite filter_cons_True by done. done. Qed.

Lemma checks_of_cons_other k' r rs :
  k' ≠ k → checks_of k ((k', r) :: rs) = checks_of k rs.
Proof. intros. unfold checks_of. rewrite filter_cons_False by done. done. Qed.

Lemma admissions_cons_same r rs :
  admissions k ((k, r) :: rs)
  = ((if allowed r then 1 else 0) + admissions k rs)%nat.
Proof.
  unfold admissions. rewrite checks_of_cons_same.
  destruct (allowed r) eqn:E.
  - rewrite filter_cons_True by done. done.
  - rewrite filter_cons_False by (rewrite E; done). done.
Qed.

Lemma admissions_cons_other k' r rs :
  k' ≠ k → admissions k ((k', r) :: rs) = admissions k rs.
Proof. intros. unfold admissions. by rewrite checks_of_cons_other. Qed.

(** A check for another key leaves the entry of [k] alone. *)
Lemma rateLimit_other now k' (store : gmap string RateWindowEntry) :
  k' ≠ k → (rateLimit (Some rl) now k' store).2 !! k = store !! k.
Proof.
  intros Hne. unfold rateLimit; simpl.
  destruct (store !! k') as [cur|]; simpl.
  - destruct (resetTime cur <=? now); simpl.
    + by rewrite lookup_insert_ne.
    + destruct (maxRequests rl <=? count cur); simpl; [done|].
      by rewrite lookup_insert_ne.
  - by rewrite lookup_insert_ne.
Qed.

(** A check for [k] inside its window. *)
Lemma rateLimit_in_window now (store : gmap string RateWindowEntry) e :
  store !! k = Some e → now < resetTime e →
  rateLimit (Some rl) now k store =
    if maxRequests rl <=? count e then
      ({| allowed := false; remaining := 0;
          resultResetTime := resetTime e |}, store)
    else
      ({| allowed := true; remaining := maxRequests rl - (count e + 1);
          resultResetTime := resetTime e |},
       <[k := {| count := count e + 1; resetTime := resetTime e |}]> store).
Proof.
  intros He Hlt. unfold rateLimit; simpl. rewrite He.
  destruct (Z.leb_spec (resetTime e) now); [lia|]. done.
Qed.

Lemma run_cons now k' reqs (store : gmap string RateWindowEntry) :
  run (Some rl) ((now, k') :: reqs) store =
    let step := rateLimit (Some rl) now k' store in
    let rest := run (Some rl) reqs step.2 in
    ((k', step.1) :: rest.1, rest.2).
Proof.
  cbn [run]. destruct (rateLimit (Some rl) now k' store) as [r store'].
  destruct (run (Some rl) reqs store') as [rs store''] eqn:E. cbn. rewrite E. done.
Qed.

(** Inside a window the entry of [k] counts the admissions, never passes
    [maxRequests], and every check made once the count has reached
    [maxRequests] is denied. *)
Lemma run_in_window reqs : ∀ (store : gmap string RateWindowEntry) e,
  store !! k = Some e →
  count e ≤ maxRequests rl →
  (∀ t, (t, k) ∈ reqs → t < resetTime e) →
  ∃ e', (run (Some rl) reqs store).2 !! k = Some e'
    ∧ resetTime e' = resetTime e
    ∧ count e' = count e + Z.of_nat (admissions k (run (Some rl) reqs store).1)
    ∧ count e' ≤ maxRequests rl
    ∧ ∀ i r, checks_of k (run (Some rl) reqs store).1 !! i = Some r →
        maxRequests rl ≤ count e + Z.of_nat i → allowed r = false ∧ remaining r = 0.
Proof.
  induction reqs as [|[now k'] reqs IH]; intros store e He Hc Hin.
  - exists e. cbn. split_and!; try done; lia.
  - rewrite run_cons. cbn zeta. cbn [fst snd].
    destruct (decide (k' = k)) as [->|Hne].
    + assert (Hnow : now < resetTime e) by (apply Hin; left).
      rewrite (rateLimit_in_window _ _ _ He Hnow).
      rewrite admissions_cons_same, checks_of_cons_same.
      destruct (Z.leb_spec (maxRequests rl) (count e)) as [Hfull|Hroom]; cbn [fst snd allowed].
      * destruct (IH store e He Hc) as (e' & H1 & H2 & H3 & H4 & H5).
        { intros t Ht. apply Hin. by right. }
        exists e'. split_and!; try done.
        intros [|i] r0; cbn.
        -- intros [= <-] _. done.
        -- intros Hi Hge. apply (H5 i r0 Hi). lia.
      * set (e1 := {| count := count e + 1; resetTime := resetTime e |}).
        destruct (IH (<[k := e1]> store) e1) as (e' & H1 & H2 & H3 & H4 & H5).
        { apply lookup_insert_eq. }
        { cbn. lia. }
        { intros t Ht. cbn. apply Hin. by right. }
        cbn [count resetTime e1] in *.
        exists e'. split_and!; try done; try lia.
        intros [|i] r0; cbn.
        -- intros [= <-] Hge. lia.
        -- intros Hi Hge. apply (H5 i r0 Hi). lia.
    + assert (Hst : (rateLimit (Some rl) now k' store).2 !! k = Some e).
      { by rewrite rateLimit_other. }
      destruct (IH _ e Hst Hc) as (e' & H1 & H2 & H3 & H4 & H5).
      { intros t Ht. apply Hin. by right. }
      exists e'. rewrite admissions_cons_other, checks_of_cons_other by done.
      done.
Qed.

(** The first check for a key, or the first one after its window has
    elapsed, opens a new window. *)
Lemma rateLimit_fresh now (store : gmap string RateWindowEntry) :
  (∀ e, store !! k = Some e → resetTime e ≤ now) →
  rateLimit (Some rl) now k store =
    ({| allowed := true; remaining := maxRequests rl - 1;
        resultResetTime := now + windowMs rl * 1000 |},
     <[k := {| count := 1; resetTime := now + windowMs rl * 1000 |}]> store).
Proof.
  intros Hexp. unfold rateLimit; simpl.
  destruct (store !! k) as [cur|] eqn:Hcur; [|done].
  specialize (Hexp cur eq_refl).
  destruct (Z.leb_spec (resetTime cur) now); [done|lia].
Qed.

(** C1 (as amended: [maxRequests] a whole number, at least 1). From the
    check that opens a window for a key, and for as long as the later
    checks for that key come before the window's reset time (checks for
    other keys may come in between), at every point of the run: the
    checks admitted for the key number at most [maxRequests]; the stored
    count equals that number and so never exceeds [maxRequests]; and
    every check for the key after the first [maxRequests] ones is denied
    with [remaining = 0]. *)
Theorem rateLimit_window_bound (store : gmap string RateWindowEntry)
    (t0 : Z) (reqs : list (Z * string)) (n : nat) :
  1 ≤ maxRequests rl →
  (∀ e, store !! k = Some e → resetTime e ≤ t0) →
  (∀ t, (t, k) ∈ reqs → t < t0 + windowMs rl * 1000) →
  let out := run (Some rl) ((t0, k) :: take n reqs) store in
  Z.of_nat (admissions k out.1) ≤ maxRequests rl
  ∧ (∃ e, out.2 !! k = Some e
       ∧ resetTime e = t0 + windowMs rl * 1000
       ∧ count e = Z.of_nat (admissions k out.1)
       ∧ count e ≤ maxRequests rl)
  ∧ (∀ i r, checks_of k out.1 !! i = Some r →
       maxRequests rl ≤ Z.of_nat i →
       allowed r = false ∧ remaining r = 0).
Proof.
  intros HM Hopen Hin out. subst out.
  rewrite run_cons. cbn zeta. rewrite (rateLimit_fresh _ _ Hopen).
  cbn [fst snd]. rewrite admissions_cons_same, checks_of_cons_same.
  cbn [allowed].
  set (e0 := {| count := 1; resetTime := t0 + windowMs rl * 1000 |}).
  destruct (run_in_window (take n reqs) (<[k := e0]> store) e0)
    as (e' & H1 & H2 & H3 & H4 & H5).
  { apply lookup_insert_eq. }
  { cbn. lia. }
  { intros t Ht. cbn. apply Hin. eapply subseteq_take, Ht. }
  cbn [count resetTime e0] in *.
  split_and!.
  - lia.
  - exists e'. split_and!; try done; lia.
  - intros [|i] r; cbn.
    + intros _ Hge. lia.
    + intros Hi Hge. apply (H5 i r Hi). lia.
Qed.

(** C9. The first check for a key, and any check made once the stored
    window's reset time has been reached, replaces the entry by
    [{count = 1, resetTime = now + windowMs * 1000}] and is allowed; with
    [maxRequests = 1], of two checks for the key in one window the first
    is allowed with [remaining = 0] and the second is denied. *)
Theorem rateLimit_new_window (store : gmap string RateWindowEntry)
    (now : Z) :
  (∀ e, store !! k = Some e → resetTime e ≤ now) →
  let first := rateLimit (Some rl) now k store in
  first.2 = <[k := {| count := 1;
                      resetTime := now + windowMs rl * 1000 |}]> store
  ∧ allowed first.1 = true
  ∧ remaining first.1 = maxRequests rl - 1
  ∧ resultResetTime first.1 = now + windowMs rl * 1000
  ∧ (maxRequests rl = 1 →
     ∀ now', now' < now + windowMs rl * 1000 →
       let second := rateLimit (Some rl) now' k first.2 in
       remaining first.1 = 0
       ∧ allowed second.1 = false
       ∧ remaining second.1 = 0
       ∧ second.2 = first.2).
Proof.
  intros Hopen first. subst first. rewrite (rateLimit_fresh _ _ Hopen).
  cbn [fst snd allowed remaining resultResetTime].
  split_and!; try done.
  intros HM now' Hlt.
  set (e0 := {| count := 1; resetTime := now + windowMs rl * 1000 |}).
  rewrite (rateLimit_in_window now' (<[k := e0]> store) e0);
    [|apply lookup_insert_eq|done].
  rewrite HM. cbn. done.
Qed.

End RateLimiterProperties.

(** The run used to exercise the window bound: three checks for one client
    and one for another, all within a minute, with two requests allowed. *)
Lemma rateLimit_window_bound_witness :
  let rl := {| RateLimiter.maxRequests := 2; RateLimiter.windowMs := 60 |} in
  let out := RateLimiter.run (Some rl)
               ((0, "10.0.0.1") :: take 3 [(1, "10.0.0.1"); (2, "10.0.0.2");
                                           (3, "10.0.0.1")]) ∅ in
  Z.of_nat (RateLimiter.admissions "10.0.0.1" out.1) ≤ 2
  ∧ (∃ e, out.2 !! "10.0.0.1" = Some e
       ∧ RateLimiter.resetTime e = 0 + 60 * 1000
       ∧ RateLimiter.count e
         = Z.of_nat (RateLimiter.admissions "10.0.0.1" out.1)
       ∧ RateLimiter.count e ≤ 2)
  ∧ (∀ i r, RateLimiter.checks_of "10.0.0.1" out.1 !! i = Some r →
       2 ≤ Z.of_nat i →
       RateLimiter.allowed r = false ∧ RateLimiter.remaining r = 0).
Proof.
  apply (rateLimit_window_bound
           {| RateLimiter.maxRequests := 2; RateLimiter.windowMs := 60 |}
           "10.0.0.1" ∅ 0
           [(1, "10.0.0.1"); (2, "10.0.0.2"); (3, "10.0.0.1")] 3).
  - cbn. lia.
  - intros e He. rewrite lookup_empty in He. discriminate He.
  - intros t Ht. cbn.
    repeat (apply elem_of_cons in Ht as [Ht|Ht];
            [injection Ht as ->; lia || discriminate|]);
      try (injection Ht as ->; lia).
    all: try (by apply elem_of_nil in Ht).
Defined.

(** With [maxRequests = 0] the check that opens a window is admitted all the
    same: one admission against a maximum of zero, and a stored count of 1. *)
Lemma rateLimit_zero_quota_admits :
  let rl := {| RateLimiter.maxRequests := 0; RateLimiter.windowMs := 60 |} in
  let out := RateLimiter.run (Some rl) [(0, "10.0.0.1")] ∅ in
  RateLimiter.checks_of "10.0.0.1" out.1
    = [{| RateLimiter.allowed := true; RateLimiter.remaining := -1;
          RateLimiter.resultResetTime := 60000 |}]
  ∧ out.2 !! "10.0.0.1"
    = Some {| RateLimiter.count := 1; RateLimiter.resetTime := 60000 |}
  ∧ ¬ (Z.of_nat (RateLimiter.admissions "10.0.0.1" out.1)
       ≤ RateLimiter.maxRequests rl).
Proof.
  cbn zeta. split_and!.
  - vm_compute. reflexivity.
  - vm_compute. reflexivity.
  - vm_compute. intros H. apply H. reflexivity.
Qed.

Lemma rateLimit_new_window_witness :
  let rl := {| RateLimiter.maxRequests := 1; RateLimiter.windowMs := 60 |} in
  let first := RateLimiter.rateLimit (Some rl) 5 "10.0.0.1" ∅ in
  first.2 = <[ "10.0.0.1" := {| RateLimiter.count := 1;
                                RateLimiter.resetTime := 5 + 60 * 1000 |}]> ∅
  ∧ RateLimiter.allowed first.1 = true
  ∧ RateLimiter.remaining first.1 = 1 - 1
  ∧ RateLimiter.resultResetTime first.1 = 5 + 60 * 1000
  ∧ (1 = 1 →
     ∀ now', now' < 5 + 60 * 1000 →
       let second := RateLimiter.rateLimit (Some rl) now' "10.0.0.1" first.2 in
       RateLimiter.remaining first.1 = 0
       ∧ RateLimiter.allowed second.1 = false
       ∧ RateLimiter.remaining second.1 = 0
       ∧ second.2 = first.2).
Proof.
  apply (rateLimit_new_window
           {| RateLimiter.maxRequests := 1; RateLimiter.windowMs := 60 |}
           "10.0.0.1" ∅ 5).
  intros e He. rewrite lookup_empty in He. discriminate He.
Defined.

(** ** The input guard *)

Section SanitizeProperties.
Import JsString InputGuard Shape.

Lemma remove_all_clean class s :
  all_chars (fun c => negb (class c)) (remove_all class s) = true.
Proof.
  induction s as [|c s IH]; [done|]. cbn.
  destruct (class c) eqn:E; [done|]. cbn. by rewrite E.
Qed.

Lemma remove_all_id class s :
  all_chars (fun c => negb (class c)) s = true → remove_all class s = s.
Proof.
  induction s as [|c s IH]; [done|]. cbn.
  destruct (class c); cbn; [done|]. intros H. by rewrite IH.
Qed.

Lemma all_chars_mono (P Q : ascii → bool) s :
  (∀ c, P c = true → Q c = true) →
  all_chars P s = true → all_chars Q s = true.
Proof.
  intros HPQ. induction s as [|c s IH]; [done|]. cbn.
  intros [Hc Hs]%andb_true_iff. rewrite (HPQ _ Hc). by apply IH.
Qed.

Lemma all_chars_collapse P b s :
  P " "%char = true →
  all_chars P s = true → all_chars P (collapse_from b s) = true.
Proof.
  intros Hsp. revert b. induction s as [|c s IH]; intros b; [done|]. cbn.
  intros [Hc Hs]%andb_true_iff.
  destruct (is_space c), b; cbn; rewrite ?Hsp, ?Hc; cbn; by apply IH.
Qed.

Lemma all_chars_trimStart P s :
  all_chars P s = true → all_chars P (trimStart s) = true.
Proof.
  induction s as [|c s IH]; [done|]. cbn.
  intros [Hc Hs]%andb_true_iff.
  destruct (is_space c); [by apply IH|]. cbn. by rewrite Hc.
Qed.

Lemma all_chars_trimEnd P s :
  all_chars P s = true → all_chars P (trimEnd s) = true.
Proof.
  induction s as [|c s IH]; [done|]. cbn.
  intros [Hc Hs]%andb_true_iff. specialize (IH Hs).
  destruct (trimEnd s) as [|d t].
  - destruct (is_space c); [done|]. cbn. by rewrite Hc.
  - cbn in *. by rewrite Hc.
Qed.

Lemma tidy_weaken b s : tidy b s = true → tidy false s = true.
Proof.
  destruct s as [|c s]; [done|]. cbn.
  destruct (is_space c); [|done].
  intros [[-> _]%andb_true_iff ->]%andb_true_iff. done.
Qed.

Lemma tidy_collapse b s : tidy b (collapse_from b s) = true.
Proof.
  revert b. induction s as [|c s IH]; intros b; [done|]. cbn.
  destruct (is_space c) eqn:E.
  - destruct b; [apply IH|]. cbn. apply IH.
  - cbn. rewrite E. apply IH.
Qed.

Lemma collapse_tidy b s : tidy b s = true → collapse_from b s = s.
Proof.
  revert b. induction s as [|c s IH]; intros b; [done|]. cbn.
  destruct (is_space c).
  - intros [[Hc Hb]%andb_true_iff Hs]%andb_true_iff.
    apply Ascii.eqb_eq in Hc as ->.
    destruct b; [done|]. by rewrite IH.
  - intros Hs. by rewrite IH.
Qed.

Lemma tidy_trimStart b s : tidy b s = true → tidy false (trimStart s) = true.
Proof.
  revert b. induction s as [|c s IH]; intros b; [done|]. cbn.
  destruct (is_space c) eqn:E.
  - intros [_ Hs]%andb_true_iff. by apply (IH true).
  - intros Hs. cbn. by rewrite E.
Qed.

Lemma tidy_trimEnd b s : tidy b s = true → tidy b (trimEnd s) = true.
Proof.
  revert b. induction s as [|c s IH]; intros b; [done|]. cbn.
  destruct (is_space c) eqn:E.
  - intros [Hcb Hs]%andb_true_iff. specialize (IH true Hs).
    destruct (trimEnd s) as [|d t]; [done|].
    cbn [tidy]. rewrite E, Hcb. exact IH.
  - intros Hs. specialize (IH false Hs).
    destruct (trimEnd s) as [|d t]; cbn [tidy]; rewrite E; [done|exact IH].
Qed.

Lemma trimEnd_idem s : trimEnd (trimEnd s) = trimEnd s.
Proof.
  induction s as [|c s IH]; [done|]. cbn.
  destruct (trimEnd s) as [|d t] eqn:Et.
  - destruct (is_space c) eqn:E; [done|]. cbn. by rewrite E.
  - cbn [trimEnd] in *. by rewrite IH.
Qed.

Lemma starts_clean_trimStart s : starts_clean (trimStart s) = true.
Proof.
  induction s as [|c s IH]; [done|]. cbn.
  destruct (is_space c) eqn:E; [done|]. cbn. by rewrite E.
Qed.

Lemma starts_clean_trimEnd s :
  starts_clean s = true → starts_clean (trimEnd s) = true.
Proof.
  destruct s as [|c s]; [done|]. cbn.
  destruct (trimEnd s); destruct (is_space c) eqn:E; cbn; by rewrite ?E.
Qed.

Lemma trimStart_id s : starts_clean s = true → trimStart s = s.
Proof. destruct s as [|c s]; [done|]. cbn. by destruct (is_space c). Qed.

Lemma trim_idem s : trim (trim s) = trim s.
Proof.
  unfold trim.
  rewrite (trimStart_id (trimEnd (trimStart s))).
  - apply trimEnd_idem.
  - apply starts_clean_trimEnd, starts_clean_trimStart.
Qed.

Lemma nul_is_control c : (code c =? 0)%N = true → is_control c = true.
Proof.
  intros H%N.eqb_eq. unfold is_control, in_range. rewrite H. done.
Qed.

(** What [sanitizeInput] returns holds no control character, only single
    blanks as white space, and none of them at either end. *)
Lemma sanitizeInput_shape x :
  let y := sanitizeInput x in
  all_chars (fun c => negb (is_control c)) y = true
  ∧ tidy false y = true
  ∧ trim y = y.
Proof.
  cbn zeta. unfold sanitizeInput. split_and!.
  - apply all_chars_trimEnd, all_chars_trimStart, all_chars_collapse;
      [done|]. apply remove_all_clean.
  - apply tidy_trimEnd, (tidy_trimStart false), tidy_collapse.
  - apply trim_idem.
Qed.

Lemma sanitizeInput_idempotent x :
  sanitizeInput (sanitizeInput x) = sanitizeInput x.
Proof.
  destruct (sanitizeInput_shape x) as (Hctl & Htidy & Htrim).
  set (y := sanitizeInput x) in *.
  unfold sanitizeInput at 1.
  rewrite (remove_all_id _ y).
  2: { eapply all_chars_mono; [|exact Hctl].
       intros c Hc. cbn beta in *.
       destruct (code c =? 0)%N eqn:E; [|done].
       by rewrite (nul_is_control c E) in Hc. }
  rewrite (remove_all_id _ y Hctl).
  unfold collapse_spaces. rewrite (collapse_tidy _ _ Htidy). exact Htrim.
Qed.

End SanitizeProperties.

Section ValidateProperties.
Import JsString InputGuard GuardSteps.

Variable url_hostname : string → option string.
Variable config : SecurityConfig.

(** On a string that is not empty, the result of [validateInput] is fixed
    by what the three later steps report. *)
Lemma validateInput_string c text :
  let input := String c text in
  let reported :=
    length_step config input
    ++ malicious_step (sanitized_text config input)
    ++ url_step url_hostname config (sanitized_text config input) in
  validateInput url_hostname config (Some (JStr input)) =
    {| isValid := match reported with [] => true | _ => false end;
       sanitizedInput :=
         match reported with
         | [] => Some (sanitized_text config input)
         | _ => None
         end;
       errors := match reported with [] => None | _ => Some reported end |}.
Proof.
  cbn zeta. unfold validateInput, length_step, malicious_step, url_step,
    disallowed_urls, sanitized_text, push.
  set (input := String c text).
  set (sanitized := if sanitizeInput_enabled config then _ else _).
  destruct (maxInputLength config) as [max|];
    [destruct (negb (max =? 0) && (max <? Z.of_nat (String.length input)))|];
    destruct (containsMaliciousContent sanitized);
    destruct (allowedDomains config) as [domains|];
    destruct (containsExternalUrls sanitized);
    try destruct (List.filter _ (extractUrls sanitized));
    reflexivity.
Qed.

(** C7. [validateInput] returns [isValid = true] exactly when it reports
    no errors, which is when none of its steps produced one, and a
    [sanitizedInput] exactly when the result is valid. An input that is
    not a string, or is the empty string, gives the one error of the
    first check and nothing else. On any other input the errors reported
    are those of the length check, of the malicious-content check and of
    the domain check, each present when its check fails, whatever the
    other checks found. *)
Theorem validateInput_result (input : JsVal) :
  let r := validateInput url_hostname config input in
  (isValid r = true ↔ errors r = None)
  ∧ (is_Some (sanitizedInput r) ↔ isValid r = true)
  ∧ match input with
    | Some (JStr (String _ _ as text)) =>
        let sanitized := sanitized_text config text in
        let reported :=
          length_step config text
          ++ malicious_step sanitized
          ++ url_step url_hostname config sanitized in
        (isValid r = true ↔ reported = [])
        ∧ errors r = (match reported with [] => None | _ => Some reported end)
        ∧ sanitizedInput r
          = (match reported with [] => Some sanitized | _ => None end)
    | _ =>
        r = {| isValid := false; sanitizedInput := None;
               errors := Some ["Input must be a non-empty string"] |}
    end.
Proof.
  assert (Hshort : ∀ r : ValidationResult,
    r = {| isValid := false; sanitizedInput := None;
           errors := Some ["Input must be a non-empty string"] |} →
    (isValid r = true ↔ errors r = None)
    ∧ (is_Some (sanitizedInput r) ↔ isValid r = true)
    ∧ r = {| isValid := false; sanitizedInput := None;
             errors := Some ["Input must be a non-empty string"] |}).
  { intros r ->. cbn. split_and!; [done| |done].
    split; [by intros [? ?]|done]. }
  destruct input as [[| | |[|c text]| | |]|]; try (by apply Hshort).
  cbn zeta. rewrite validateInput_string. cbn zeta.
  destruct (length_step config (String c text) ++ _) as [|e es];
    cbn; split_and!; done.
Qed.

End ValidateProperties.

Section FixedPoint.
Import JsString InputGuard GuardSteps.

(** C8 (as amended: with [sanitizeInput] enabled). [sanitizeInput] is
    idempotent; and when the configuration enables sanitization, the
    [sanitizedInput] that [validateInput] returns is a fixed point of
    [sanitizeInput]. *)
Theorem sanitizedInput_fixed_point :
  (∀ x, sanitizeInput (sanitizeInput x) = sanitizeInput x)
  ∧ (∀ url_hostname config input y,
       sanitizeInput_enabled config = true →
       sanitizedInput (validateInput url_hostname config input) = Some y →
       sanitizeInput y = y).
Proof.
  split; [apply sanitizeInput_idempotent|].
  intros url_hostname config input y Hon.
  destruct input as [[| | |[|c text]| | |]|]; try done.
  rewrite validateInput_string. cbn zeta. unfold sanitized_text.
  rewrite Hon.
  destruct (length_step config (String c text) ++ _); [|done].
  cbn [sanitizedInput]. intros [= <-]. apply sanitizeInput_idempotent.
Qed.

End FixedPoint.

Lemma sanitizedInput_fixed_point_witness :
  let config := {| InputGuard.maxInputLength := Some 10000;
                   InputGuard.allowedDomains := None;
                   InputGuard.sanitizeInput_enabled := true |} in
  InputGuard.validateInput Samples.sample_hostname config
    (Some (JStr "  What is   the weather  "))
  = {| InputGuard.isValid := true;
       InputGuard.sanitizedInput := Some "What is the weather";
       InputGuard.errors := None |}
  ∧ InputGuard.sanitizeInput "What is the weather" = "What is the weather".
Proof.
  cbn zeta. split; [vm_compute; reflexivity|].
  apply (proj2 sanitizedInput_fixed_point Samples.sample_hostname
           {| InputGuard.maxInputLength := Some 10000;
              InputGuard.allowedDomains := None;
              InputGuard.sanitizeInput_enabled := true |}
           (Some (JStr "  What is   the weather  "))).
  - reflexivity.
  - vm_compute. reflexivity.
Defined.

(** With sanitization left off, a valid input is returned as it came: two
    blanks in a row stay, and [sanitizeInput] would change them. *)
Lemma sanitizedInput_unsanitized_when_disabled :
  let config := {| InputGuard.maxInputLength := Some 10000;
                   InputGuard.allowedDomains := None;
                   InputGuard.sanitizeInput_enabled := false |} in
  InputGuard.validateInput Samples.sample_hostname config (Some (JStr "a  b"))
  = {| InputGuard.isValid := true;
       InputGuard.sanitizedInput := Some "a  b";
       InputGuard.errors := None |}
  ∧ InputGuard.sanitizeInput "a  b" = "a b"
  ∧ InputGuard.sanitizeInput "a  b" ≠ "a  b".
Proof.
  cbn zeta. split_and!.
  - vm_compute. reflexivity.
  - vm_compute. reflexivity.
  - vm_compute. discriminate.
Qed.

(** ** The parameter resolver and the tool adapters *)

Section ResolverProperties.
Import JsString ToolStrategy.

Variable platform : Platform.

Lemma extract_outside_table input paramName :
  paramName ∉ extraction_table →
  extractParameterFromString input paramName = None.
Proof.
  intros Hout. unfold extractParameterFromString.
  repeat match goal with
  | |- context [String.eqb paramName ?k] =>
      destruct (String.eqb_spec paramName k) as [->|_];
      [exfalso; apply Hout; unfold extraction_table; set_solver|]
  end.
  done.
Qed.














(** What an adapter answers when it returns. *)
Lemma adapter_answer tool input answer :
  adapter platform tool input = Ok answer →
  (∃ message, answer = "Error: " +:+ message)
  ∨ ∃ parsedInput value,
      parseInput platform input tool = Ok parsedInput
      ∧ call_method platform (instance tool) (methodName tool) parsedInput
        = Returns value
      ∧ js_String platform value = Ok answer.
Proof.
  unfold adapter.
  destruct (parseInput platform input tool) as [parsed|message].
  2: { intros [= <-]. left. by exists message. }
  destruct (call_method platform _ _ parsed) as [value|error] eqn:Hcall.
  - destruct (JSON_stringify_error platform value) as [message|].
    { intros [= <-]. left. by exists message. }
    destruct (js_String platform value) as [text|message] eqn:Htext.
    + intros [= <-]. right. by exists parsed, value.
    + intros [= <-]. left. by exists message.
  - destruct (error_text platform error) as [text|]; [|done].
    intros [= <-]. left. by exists text.
Qed.

(** C6. The callable of an adapter can throw, and can report an error
    for a call that succeeded. When the tool method throws [undefined]
    or [null], the [catch] block reads [error.message] of it and the
    callable rejects with the [TypeError]. When the tool method returns
    a value that [JSON.stringify] rejects, the debug log inside the
    [try] block throws, and the callable returns the error text in place
    of the text of the result. *)
Theorem adapter_can_reject tool input parsedInput :
  parseInput platform input tool = Ok parsedInput →
  let outcome :=
    call_method platform (instance tool) (methodName tool) parsedInput in
  (outcome = Throws None →
   adapter platform tool input
   = Throw "Cannot read properties of undefined (reading 'message')")
  ∧ (outcome = Throws (Some JNull) →
     adapter platform tool input
     = Throw "Cannot read properties of null (reading 'message')")
  ∧ (∀ value message,
       outcome = Returns value →
       JSON_stringify_error platform value = Some message →
       adapter platform tool input = Ok ("Error: " +:+ message)).
Proof.
  intros Hparse. cbn zeta. unfold adapter. rewrite Hparse. split_and!.
  - by intros ->.
  - by intros ->.
  - intros value message -> Hjson. by rewrite Hjson.
Qed.

End ResolverProperties.



Lemma adapter_can_reject_witness :
  (fun t => ToolStrategy.func t "hello")
    <$> ToolStrategy.createToolsFromMetadata SamplesMore.rejecting_platform
          [("echo", SamplesMore.echo_tool)]
  = [Throw "Cannot read properties of undefined (reading 'message')"]
  ∧ (fun t => ToolStrategy.func t "hello")
      <$> ToolStrategy.createToolsFromMetadata SamplesMore.bigint_platform
            [("echo", SamplesMore.echo_tool)]
    = [Ok "Error: Do not know how to serialize a BigInt"]
  ∧ ToolStrategy.js_String SamplesMore.bigint_platform
      (Some (JNative "10n")) = Ok "10".
Proof.
  split_and!.
  - refine (f_equal (fun x => [x]) _).
    apply (proj1 (adapter_can_reject SamplesMore.rejecting_platform
                    SamplesMore.echo_tool "hello" (JStr "hello") eq_refl)).
    reflexivity.
  - refine (f_equal (fun x => [x]) _).
    apply (proj2 (proj2 (adapter_can_reject SamplesMore.bigint_platform
                           SamplesMore.echo_tool "hello" (JStr "hello")
                           eq_refl))
             (Some (JNative "10n")) "Do not know how to serialize a BigInt");
      reflexivity.
  - reflexivity.
Defined.

(** ** The fallback dispatcher *)

Section FallbackProperties.
Import JsString ToolStrategy AgentService.

Lemma isRelevant_spec tool text :
  isRelevant tool (toLowerCase text) = true ↔ relevant tool text.
Proof.
  unfold isRelevant, relevant. cbn zeta.
  rewrite !orb_true_iff, !existsb_exists.
  split.
  - intros [[H|(w & Hin & Hw)]|(w & Hin & Hw)].
    + by left.
    + right; left. exists w. by rewrite list_elem_of_In.
    + right; right. exists w. rewrite list_elem_of_In.
      apply andb_true_iff in Hw as [Hlen Hw].
      apply Nat.ltb_lt in Hlen. done.
  - intros [H|[(w & Hin & Hw)|(w & Hin & Hlen & Hw)]].
    + by left; left.
    + left; right. exists w. by rewrite <- list_elem_of_In.
    + right. exists w. rewrite <- list_elem_of_In. split; [done|].
      apply andb_true_iff. split; [by apply Nat.ltb_lt|done].
Qed.

(** One turn of the loop. *)
Lemma executeToolsDirectly_cons tool rest text :
  executeToolsDirectly (tool :: rest) (Some (JStr text))
  = if isRelevant tool (toLowerCase text) then
      match func tool text with
      | Ok result => Ok (based_on tool result)
      | Throw _ => executeToolsDirectly rest (Some (JStr text))
      end
    else executeToolsDirectly rest (Some (JStr text)).
Proof.
  cbn [executeToolsDirectly].
  destruct (isRelevant tool (toLowerCase text)); [|done].
  by destruct (func tool text).
Qed.

Lemma executeToolsDirectly_passed_over tool rest text :
  passed_over tool text →
  executeToolsDirectly (tool :: rest) (Some (JStr text))
  = executeToolsDirectly rest (Some (JStr text)).
Proof.
  intros Hpass. rewrite executeToolsDirectly_cons.
  destruct (isRelevant tool (toLowerCase text)) eqn:Hrel; [|done].
  destruct Hpass as [Hno|[e He]].
  - exfalso. by apply Hno, isRelevant_spec.
  - by rewrite He.
Qed.

(** C5. The dispatcher goes through the tools in order. The first tool
    that is relevant to the input and whose callable, given the raw
    input, returns, decides the answer: "Based on the <name> information:
    <result>". Tools that are not relevant, and relevant tools whose
    callable throws, are passed over; when every tool is passed over the
    answer is the fixed apology. *)
Theorem executeToolsDirectly_first_match (tools : list DynamicTool)
    (text : string) :
  (∀ before tool after result,
     tools = before ++ tool :: after →
     (∀ earlier, earlier ∈ before → passed_over earlier text) →
     relevant tool text →
     func tool text = Ok result →
     executeToolsDirectly tools (Some (JStr text))
     = Ok ("Based on the " +:+ tool_name tool +:+ " information: "
           +:+ result))
  ∧ ((∀ tool, tool ∈ tools → passed_over tool text) →
     executeToolsDirectly tools (Some (JStr text)) = Ok apology).
Proof.
  split.
  - intros before tool after result -> Hbefore Hrel Hres.
    induction before as [|b before IH].
    + cbn [app]. rewrite executeToolsDirectly_cons.
      apply isRelevant_spec in Hrel. by rewrite Hrel, Hres.
    + cbn [app]. rewrite executeToolsDirectly_passed_over.
      * apply IH. intros e He. apply Hbefore. by right.
      * apply Hbefore. by left.
  - induction tools as [|tool tools IH]; intros Hall; [done|].
    rewrite executeToolsDirectly_passed_over.
    + apply IH. intros t Ht. apply Hall. by right.
    + apply Hall. by left.
Qed.

End FallbackProperties.

(** Two tools and the input "What is the WEATHER like": the first tool is
    not relevant, the second is, by a word of its description, and its
    callable answers with an error text. *)
Lemma executeToolsDirectly_first_match_witness :
  let text := "What is the WEATHER like" in
  let result := "Error: " +:+ ToolStrategy.missing_in_string "zip" text in
  AgentService.executeToolsDirectly
    [Samples.calculator_adapter; Samples.weather_adapter] (Some (JStr text))
  = Ok ("Based on the " +:+ "get-weather" +:+ " information: " +:+ result)
  ∧ AgentService.executeToolsDirectly [Samples.calculator_adapter]
      (Some (JStr text))
    = Ok AgentService.apology.
Proof.
  cbn zeta.
  assert (Hcalc : AgentService.passed_over Samples.calculator_adapter
                    "What is the WEATHER like").
  { left. intros H%isRelevant_spec. vm_compute in H. discriminate H. }
  split.
  - apply (proj1 (executeToolsDirectly_first_match
                    [Samples.calculator_adapter; Samples.weather_adapter]
                    "What is the WEATHER like")
             [Samples.calculator_adapter] Samples.weather_adapter []
             ("Error: " +:+ ToolStrategy.missing_in_string "zip"
                              "What is the WEATHER like") eq_refl).
    + intros earlier [->|H]%elem_of_cons; [done|by apply elem_of_nil in H].
    + apply isRelevant_spec. vm_compute. reflexivity.
    + vm_compute. reflexivity.
  - apply (proj2 (executeToolsDirectly_first_match
                    [Samples.calculator_adapter] "What is the WEATHER like")).
    intros tool [->|H]%elem_of_cons; [done|by apply elem_of_nil in H].
Defined.

(** ** The execution orchestrator *)

Section OrchestratorProperties.
Import JsString ToolStrategy Repository AgentService.

Variable world : World.
Variable aiProviderConfig : option AIProviderConfig.

(** The fallback dispatcher never throws. *)
Lemma executeToolsDirectly_total tools input :
  ∃ answer, executeToolsDirectly tools input = Ok answer.
Proof.
  induction tools as [|tool tools IH]; [by eexists|].
  cbn [executeToolsDirectly].
  destruct input as [[| | |text| | |]|]; cbn; try exact IH.
  destruct (isRelevant tool (toLowerCase text)); cbn; [|exact IH].
  destruct (func tool text); cbn; [by eexists|exact IH].
Qed.

Lemma invalid_input_string text :
  text ≠ EmptyString → invalid_input (Some (JStr text)) = false.
Proof.
  intros Hne. unfold invalid_input. cbn.
  destruct (String.eqb_spec text EmptyString); done.
Qed.

Lemma invalid_input_not_string v :
  (∀ text, v ≠ Some (JStr text)) → invalid_input v = true.
Proof.
  intros Hno. unfold invalid_input.
  destruct v as [[| | |text| | |]|]; cbn; rewrite ?orb_true_r; try done.
  by destruct (Hno text).
Qed.

(** C2 (as amended). For a registered agent and an input that is a
    non-empty string: once the model and the executor have been created,
    [executeAgent] returns a response and never throws, whatever the
    invocation and the fallback do; when the invocation throws, the
    response carries the apology with the error message, and the message
    again in its metadata. An error thrown while the model or the
    executor is being created is not caught: [executeAgent] emits an
    agent-error event and throws it to its caller. *)
Theorem executeAgent_reports_invocation_errors name ctx st agent text :
  getAgent name (repo st) = Some agent →
  input ctx = Some (JStr text) →
  text ≠ EmptyString →
  let tools := tools_of world agent (repo st) in
  let prompt := createSystemPrompt (metadata agent) in
  let run := executeAgent world aiProviderConfig name (Some ctx) st in
  (∀ llm executor,
     createLLM world aiProviderConfig (metadata agent) = Ok llm →
     createAgentExecutor world llm tools prompt = Ok executor →
     (∃ response,
        run = (Ok response, emit (AgentExecuted name ctx response) st))
     ∧ (∀ message,
          invoke world executor (input ctx)
            (match history ctx with Some h => h | None => [] end)
          = Throw message →
          let response :=
            {| output :=
                 "I encountered an error while processing your request: "
                 +:+ message;
               response_metadata :=
                 {| meta_agentName := Some name;
                    meta_tools := tool_names_of agent (repo st);
                    meta_availableTools := tool_name <$> tools;
                    meta_fallbackUsed := false;
                    meta_error := Some message |} |} in
          run = (Ok response, emit (AgentExecuted name ctx response) st)))
  ∧ (∀ message,
       createLLM world aiProviderConfig (metadata agent) = Throw message
       ∨ (∃ llm,
            createLLM world aiProviderConfig (metadata agent) = Ok llm
            ∧ createAgentExecutor world llm tools prompt = Throw message) →
       run = (Throw message, emit (AgentError name message) st)).
Proof.
  intros Hagent Hinput Htext tools prompt run.
  subst run. unfold executeAgent.
  rewrite Hinput, (invalid_input_string _ Htext), Hagent.
  unfold executeAgentInternal. rewrite Hagent. cbn zeta.
  fold (tools_of world agent (repo st)). fold tools. fold prompt.
  fold (tool_names_of agent (repo st)).
  split.
  - intros llm executor Hllm Hexec. rewrite Hllm. cbn [bind].
    rewrite Hexec. cbn [bind]. split.
    + destruct (invoke world executor _ _) as [out|e]; cbn;
        [|by eexists].
      destruct (usable_output out); [by eexists|].
      unfold fallbackCommand.
      destruct (executeToolsDirectly_total tools (input ctx))
        as [answer ->].
      cbn. by eexists.
    + intros message Hthrow. cbn zeta. by rewrite Hinput, Hthrow.
  - intros message [Hllm|(llm & Hllm & Hexec)].
    + by rewrite Hllm.
    + rewrite Hllm. cbn [bind]. by rewrite Hexec.
Qed.

(** C10. [executeAgent] refuses a call by throwing, with the state as it
    was (no event, the repository untouched) and with no use of the
    model, the tools or any other collaborator: without a context, with
    an input that is missing or not a string, and for an agent that is
    not registered, in which case the error names the agent when the
    context passes the first two checks. *)
Theorem executeAgent_preconditions name context st :
  let run := executeAgent world aiProviderConfig name context st in
  (context = None →
   run = (Throw "Context is required for agent execution", st))
  ∧ (∀ ctx, context = Some ctx →
       (∀ text, input ctx ≠ Some (JStr text)) →
       run = (Throw "Valid input string is required for agent execution",
              st))
  ∧ (∀ ctx, context = Some ctx →
       getAgent name (repo st) = None →
       run = (Throw (if invalid_input (input ctx)
                     then "Valid input string is required for agent execution"
                     else "Agent " +:+ name +:+ " not found"), st)).
Proof.
  cbn zeta. split_and!.
  - by intros ->.
  - intros ctx -> Hno. cbn. by rewrite (invalid_input_not_string _ Hno).
  - intros ctx -> Hagent. cbn. rewrite Hagent.
    by destruct (invalid_input (input ctx)).
Qed.

End OrchestratorProperties.

Lemma executeAgent_reports_invocation_errors_witness :
  let ctx := Samples.sample_context "how is the weather" in
  let message := "connect ECONNREFUSED" in
  let response :=
    {| AgentService.output :=
         "I encountered an error while processing your request: "
         +:+ message;
       AgentService.response_metadata :=
         {| AgentService.meta_agentName := Some "assistant";
            AgentService.meta_tools := ["get-weather"];
            AgentService.meta_availableTools := ["get-weather"];
            AgentService.meta_fallbackUsed := false;
            AgentService.meta_error := Some message |} |} in
  AgentService.executeAgent Samples.failing_world None "assistant"
    (Some ctx) Samples.sample_state
  = (Ok response,
     AgentService.emit (AgentService.AgentExecuted "assistant" ctx response)
       Samples.sample_state).
Proof.
  cbn zeta.
  set (agent := {| Repository.metadata := Samples.weather_agent;
                   Repository.agent_instance := 1 |}).
  assert (Hagent : Repository.getAgent "assistant"
                     (AgentService.repo Samples.sample_state) = Some agent).
  { vm_compute. reflexivity. }
  destruct (executeAgent_reports_invocation_errors Samples.failing_world None
              "assistant" (Samples.sample_context "how is the weather")
              Samples.sample_state agent "how is the weather"
              Hagent eq_refl ltac:(discriminate)) as [Hok _].
  destruct (Hok Samples.sample_llm
              {| AgentService.executor_agent := 0;
                 AgentService.executor_tools :=
                   AgentService.tools_of Samples.failing_world agent
                     (AgentService.repo Samples.sample_state);
                 AgentService.maxIterations := 3 |}
              eq_refl eq_refl) as [_ Hthrow].
  exact (Hthrow "connect ECONNREFUSED" eq_refl).
Defined.

(** A provider configuration that asks for a custom model and supplies
    none: creating the model throws, before the executor is invoked, and
    [executeAgent] throws to its caller. The same happens when the executor
    cannot be created because the prompt template is rejected. *)
Lemma executeAgent_rethrows_model_creation_error :
  AgentService.executeAgent Samples.stopping_world
    (Some Samples.custom_without_model)
    "assistant" (Some (Samples.sample_context "how is the weather"))
    Samples.sample_state
  = (Throw "Custom LLM instance is required when using custom provider type",
     AgentService.emit
       (AgentService.AgentError "assistant"
          "Custom LLM instance is required when using custom provider type")
       Samples.sample_state)
  ∧ AgentService.executeAgent Samples.broken_template_world None
      "assistant" (Some (Samples.sample_context "how is the weather"))
      Samples.sample_state
    = (Throw "Single '}' in template.",
       AgentService.emit
         (AgentService.AgentError "assistant" "Single '}' in template.")
         Samples.sample_state).
Proof. split; vm_compute; reflexivity. Qed.

(** ** The middleware pipeline *)

Section PipelineProperties.
Import JsString ToolStrategy Repository AgentService BaseAgentProvider.

Variable world : World.
Variable aiProviderConfig : option AIProviderConfig.
Variable provider : Provider.

(** The core execution only succeeds on a context whose input is a
    string. *)
Lemma executeAgent_ok_input name ctx st response st' :
  executeAgent world aiProviderConfig name (Some ctx) st
  = (Ok response, st') →
  ∃ text, input ctx = Some (JStr text).
Proof.
  unfold executeAgent.
  destruct (invalid_input (input ctx)) eqn:Hin; [done|]. intros _.
  unfold invalid_input in Hin.
  destruct (input ctx) as [[| | |text| | |]|];
    cbn in Hin; rewrite ?orb_true_r in Hin; try done.
  by exists text.
Qed.

(** C3. When the before hook throws, the core execution runs on the
    original context and the outcome of [execute] is that of the core
    execution, followed by the after stage: the hook's error is not
    surfaced. When the after hook throws, [execute] returns the response
    of the core execution as it is, provided the input of the original
    context is neither [undefined] nor [null]: the performance log that
    follows the after stage reads its length. An error thrown by the core
    execution is thrown by [execute]. *)
Theorem execute_isolates_hooks (ctx : AgentContext) (st : State) :
  let meta := reflected_metadata provider in
  let core c :=
    executeAgent world aiProviderConfig (agentName provider) (Some c) st in
  let run := execute world aiProviderConfig provider (Some ctx) st in
  (∀ hook e,
     beforeModelCall provider = Some hook →
     hook ctx meta = Throw e →
     before_stage provider ctx = ctx
     ∧ run = match core ctx with
             | (Ok result, st') =>
                 (Ok (after_stage provider ctx result), st')
             | (Throw error, st') => (Throw error, st')
             end)
  ∧ (∀ hook e result st',
       afterModelCall provider = Some hook →
       input ctx ≠ None → input ctx ≠ Some JNull →
       core (before_stage provider ctx) = (Ok result, st') →
       hook ctx result meta = Throw e →
       run = (Ok result, st'))
  ∧ (∀ error st',
       core (before_stage provider ctx) = (Throw error, st') →
       run = (Throw error, st')).
Proof.
  cbn zeta. unfold execute. split_and!.
  - intros hook e Hhook Hthrow.
    assert (Hb : before_stage provider ctx = ctx).
    { unfold before_stage. by rewrite Hhook, Hthrow. }
    split; [done|]. rewrite Hb.
    destruct (executeAgent _ _ _ _ _) as [[result|error] st'] eqn:Hcore;
      [|done].
    destruct (executeAgent_ok_input _ _ _ _ _ Hcore) as [text ->]. done.
  - intros hook e result st' Hhook Hdefined Hnotnull Hcore Hthrow.
    rewrite Hcore. unfold after_stage. rewrite Hhook, Hthrow.
    by destruct (input ctx) as [[| | | | | |]|].
  - intros error st' Hcore. by rewrite Hcore.
Qed.

End PipelineProperties.

Lemma execute_isolates_hooks_witness :
  let ctx := Samples.sample_context "how is the weather" in
  ∃ result st',
    AgentService.executeAgent Samples.stopping_world None "assistant"
      (Some ctx) Samples.sample_state = (Ok result, st')
    ∧ BaseAgentProvider.execute Samples.stopping_world None
        SampleProviders.failing_hooks (Some ctx) Samples.sample_state
      = (Ok result, st').
Proof.
  cbn zeta.
  destruct (execute_isolates_hooks Samples.stopping_world None
              SampleProviders.failing_hooks
              (Samples.sample_context "how is the weather")
              Samples.sample_state) as (Hbefore & Hafter & _).
  destruct (Hbefore (fun _ _ => Throw "before hook failed")
              "before hook failed" eq_refl eq_refl) as [Hctx _].
  eexists. eexists. split.
  - vm_compute. reflexivity.
  - apply (Hafter (fun _ _ _ => Throw "after hook failed")
             "after hook failed" _ _ eq_refl).
    + discriminate.
    + discriminate.
    + rewrite Hctx. vm_compute. reflexivity.
    + reflexivity.
Defined.

(** A context without input, a before hook that supplies one, and an after
    hook that throws: the core execution returns a response, and [execute]
    throws the [TypeError] of the performance log in place of returning
    it. *)
Lemma execute_throws_after_core_response :
  BaseAgentProvider.afterModelCall SampleProviders.supplying_hooks
  = Some SampleProviders.failing_after
  ∧ BaseAgentProvider.before_stage SampleProviders.supplying_hooks
      SampleProviders.empty_context
    = Samples.sample_context "how is the weather"
  ∧ returns
      (AgentService.executeAgent Samples.stopping_world None "assistant"
         (Some (Samples.sample_context "how is the weather"))
         Samples.sample_state).1 = true
  ∧ (BaseAgentProvider.execute Samples.stopping_world None
       SampleProviders.supplying_hooks
       (Some SampleProviders.empty_context) Samples.sample_state).1
    = Throw "Cannot read properties of undefined (reading 'length')".
Proof. split_and!; vm_compute; reflexivity. Qed.

(** ** More on the rate limiter *)

Section RateLimiterIsolation.
Import RateLimiter.

Variable config : option RateLimitConfig.
Variable k : string.

(** The answer to a check for [k], and the entry of [k] afterwards,
    depend on the store through the entry of [k] only. *)
Lemma rateLimit_entry_only now (s1 s2 : gmap string RateWindowEntry) :
  s1 !! k = s2 !! k →
  (rateLimit config now k s1).1 = (rateLimit config now k s2).1
  ∧ (rateLimit config now k s1).2 !! k = (rateLimit config now k s2).2 !! k.
Proof.
  intros Heq. unfold rateLimit. destruct config as [rl|]; [|by cbn].
  rewrite <- Heq. destruct (s1 !! k) as [cur|] eqn:Hcur.
  - destruct (resetTime cur <=? now); cbn.
    + by rewrite !lookup_insert_eq.
    + destruct (maxRequests rl <=? count cur); cbn.
      * split; [done|congruence].
      * by rewrite !lookup_insert_eq.
  - cbn. by rewrite !lookup_insert_eq.
Qed.

Lemma rateLimit_other_key now k' (store : gmap string RateWindowEntry) :
  k' ≠ k → (rateLimit config now k' store).2 !! k = store !! k.
Proof.
  intros Hne. unfold rateLimit. destruct config as [rl|]; [|done].
  destruct (store !! k') as [cur|]; cbn.
  - destruct (resetTime cur <=? now); cbn.
    + by rewrite lookup_insert_ne.
    + destruct (maxRequests rl <=? count cur); cbn; [done|].
      by rewrite lookup_insert_ne.
  - by rewrite lookup_insert_ne.
Qed.

Lemma run_step now k' reqs (store : gmap string RateWindowEntry) :
  run config ((now, k') :: reqs) store =
    let step := rateLimit config now k' store in
    let rest := run config reqs step.2 in
    ((k', step.1) :: rest.1, rest.2).
Proof.
  cbn [run]. destruct (rateLimit config now k' store) as [r store'].
  destruct (run config reqs store') as [rs store''] eqn:E.
  cbn. by rewrite E.
Qed.

Lemma checks_of_cons key r rs :
  checks_of k ((key, r) :: rs)
  = if decide (key = k) then r :: checks_of k rs else checks_of k rs.
Proof.
  unfold checks_of. destruct (decide (key = k)) as [->|Hne].
  - by rewrite filter_cons_True.
  - by rewrite filter_cons_False.
Qed.

Lemma run_isolated reqs : ∀ (s1 s2 : gmap string RateWindowEntry),
  s1 !! k = s2 !! k →
  checks_of k (run config reqs s1).1
  = checks_of k (run config (filter (λ r, r.2 = k) reqs) s2).1
  ∧ (run config reqs s1).2 !! k
    = (run config (filter (λ r, r.2 = k) reqs) s2).2 !! k.
Proof.
  induction reqs as [|[now k'] reqs IH]; intros s1 s2 Heq; [done|].
  rewrite run_step. cbn zeta. cbn [fst snd].
  destruct (decide (k' = k)) as [->|Hne].
  - rewrite filter_cons_True by done. rewrite run_step. cbn zeta.
    cbn [fst snd]. rewrite !checks_of_cons. rewrite !decide_True by done.
    destruct (rateLimit_entry_only now s1 s2 Heq) as [Hr Hs].
    destruct (IH _ _ Hs) as [H1 H2]. by rewrite Hr, H1, H2.
  - rewrite filter_cons_False by done. rewrite checks_of_cons.
    rewrite decide_False by done. apply IH.
    by rewrite rateLimit_other_key.
Qed.

(** X1. Keys do not interfere: in any run of checks, the answers given
    to one key, and its entry at the end, are those of the run from which
    the checks of all other keys have been removed. *)
Theorem rateLimit_keys_independent (reqs : list (Z * string))
    (store : gmap string RateWindowEntry) :
  let mixed := run config reqs store in
  let alone := run config (filter (λ r, r.2 = k) reqs) store in
  checks_of k mixed.1 = checks_of k alone.1
  ∧ mixed.2 !! k = alone.2 !! k.
Proof. cbn zeta. by apply run_isolated. Qed.

(** X2. A check is denied exactly when rate limiting is configured and
    the key has an entry that has not expired and whose count has reached
    [maxRequests]; a denied check changes nothing in the store, reports
    [remaining = 0] and the reset time of the stored window, which it does
    not move. *)
Theorem rateLimit_denied_iff (now : Z)
    (store : gmap string RateWindowEntry) :
  let out := rateLimit config now k store in
  (allowed out.1 = false ↔
     ∃ rl e, config = Some rl ∧ store !! k = Some e
             ∧ now < resetTime e ∧ maxRequests rl ≤ count e)
  ∧ (allowed out.1 = false →
     out.2 = store ∧ remaining out.1 = 0
     ∧ ∃ e, store !! k = Some e ∧ resultResetTime out.1 = resetTime e).
Proof.
  cbn zeta. unfold rateLimit. destruct config as [rl|]; cbn.
  2: { split; [|done]. split; [done|]. by intros (? & ? & ? & _). }
  destruct (store !! k) as [cur|] eqn:Hcur; cbn.
  2: { split; [|done]. split; [done|]. by intros (? & ? & _ & ? & _). }
  destruct (Z.leb_spec (resetTime cur) now) as [Hexp|Hlive]; cbn.
  { split; [|done]. split; [done|].
    intros (? & e & _ & [= <-] & ? & _). lia. }
  destruct (Z.leb_spec (maxRequests rl) (count cur)) as [Hfull|Hroom]; cbn.
  - split.
    + split; [|done]. intros _. by exists rl, cur.
    + intros _. split_and!; [done..|]. by exists cur.
  - split; [|done]. split; [done|].
    intros (? & e & [= <-] & [= <-] & _ & ?). lia.
Qed.

End RateLimiterIsolation.

Section Cleanup.
Import RateLimiter StoreShape.

Variable config : option RateLimitConfig.

(** The entries [cleanupRateLimitStore] keeps. *)
Lemma cleanup_lookup now (store : gmap string RateWindowEntry) key :
  cleanupRateLimitStore now store !! key
  = match store !! key with
    | Some e => if resetTime e <=? now then None else Some e
    | None => None
    end.
Proof.
  unfold cleanupRateLimitStore.
  destruct (store !! key) as [e|] eqn:He.
  - destruct (Z.leb_spec (resetTime e) now) as [Hexp|Hlive].
    + apply map_lookup_filter_None. right. intros e' He'. cbn.
      rewrite He in He'. injection He' as <-. intros Hn. by apply Hn.
    + apply map_lookup_filter_Some. split; [done|]. cbn. lia.
  - apply map_lookup_filter_None. by left.
Qed.

Lemma rateLimit_same_live now t key (s1 s2 : gmap string RateWindowEntry) :
  now ≤ t → same_live now s1 s2 →
  (rateLimit config t key s1).1 = (rateLimit config t key s2).1
  ∧ same_live now (rateLimit config t key s1).2
      (rateLimit config t key s2).2.
Proof.
  intros Ht Hsame. unfold rateLimit. destruct config as [rl|]; [|done].
  assert (Hins : ∀ e, same_live now (<[key := e]> s1) (<[key := e]> s2)).
  { intros e key'. destruct (decide (key = key')) as [->|Hne].
    - left. by rewrite !lookup_insert_eq.
    - rewrite !lookup_insert_ne by done. apply Hsame. }
  destruct (Hsame key) as [Heq|(Hnone & e & He & Hexp)].
  - rewrite <- Heq. destruct (s1 !! key) as [cur|]; cbn; [|done].
    destruct (resetTime cur <=? t); cbn; [done|].
    destruct (maxRequests rl <=? count cur); cbn; done.
  - rewrite Hnone, He. cbn.
    destruct (Z.leb_spec (resetTime e) t); [done|lia].
Qed.

Lemma run_same_live now reqs : ∀ (s1 s2 : gmap string RateWindowEntry),
  (∀ t key, (t, key) ∈ reqs → now ≤ t) →
  same_live now s1 s2 →
  (run config reqs s1).1 = (run config reqs s2).1.
Proof.
  induction reqs as [|[t key] reqs IH]; intros s1 s2 Hlater Hsame; [done|].
  cbn [run].
  destruct (rateLimit_same_live now t key s1 s2) as [Hr Hs];
    [apply (Hlater t key); left|done|].
  destruct (rateLimit config t key s1) as [r1 s1'].
  destruct (rateLimit config t key s2) as [r2 s2']. cbn in Hr, Hs.
  specialize (IH s1' s2' (λ t' key' Hin, Hlater t' key'
                            (list_elem_of_further _ _ _ Hin)) Hs).
  destruct (run config reqs s1') as [rs1 ?].
  destruct (run config reqs s2') as [rs2 ?]. cbn in *. congruence.
Qed.

(** X3. [cleanupRateLimitStore] removes the entries whose reset time has
    been reached and keeps the others as they are; and it is invisible to
    the limiter: every later run of checks is answered as it would have
    been without the clean-up. *)
Theorem cleanup_is_transparent (now : Z)
    (store : gmap string RateWindowEntry) (reqs : list (Z * string)) :
  (∀ t key, (t, key) ∈ reqs → now ≤ t) →
  (∀ key, cleanupRateLimitStore now store !! key
          = match store !! key with
            | Some e => if resetTime e <=? now then None else Some e
            | None => None
            end)
  ∧ (run config reqs (cleanupRateLimitStore now store)).1
    = (run config reqs store).1.
Proof.
  intros Hlater. split; [apply cleanup_lookup|].
  apply (run_same_live now); [done|].
  intros key. rewrite cleanup_lookup.
  destruct (store !! key) as [e|]; [|by left].
  destruct (Z.leb_spec (resetTime e) now); [right|by left].
  split; [done|]. by exists e.
Qed.

End Cleanup.

Lemma cleanup_is_transparent_witness :
  let config := Some {| RateLimiter.maxRequests := 1;
                        RateLimiter.windowMs := 60 |} in
  let store :=
    (RateLimiter.run config [(0, "10.0.0.1"); (50000, "10.0.0.2")] ∅).2 in
  RateLimiter.cleanupRateLimitStore 70000 store !! "10.0.0.1" = None
  ∧ RateLimiter.cleanupRateLimitStore 70000 store !! "10.0.0.2"
    = Some {| RateLimiter.count := 1; RateLimiter.resetTime := 110000 |}
  ∧ (RateLimiter.run config [(80000, "10.0.0.2"); (90000, "10.0.0.1")]
       (RateLimiter.cleanupRateLimitStore 70000 store)).1
    = (RateLimiter.run config [(80000, "10.0.0.2"); (90000, "10.0.0.1")]
         store).1.
Proof.
  cbn zeta.
  set (config := Some {| RateLimiter.maxRequests := 1;
                         RateLimiter.windowMs := 60 |}).
  set (store := (RateLimiter.run config
                   [(0, "10.0.0.1"); (50000, "10.0.0.2")] ∅).2).
  destruct (cleanup_is_transparent config 70000 store
              [(80000, "10.0.0.2"); (90000, "10.0.0.1")]) as [Hlook Hrun].
  { intros t key Hin.
    repeat (apply elem_of_cons in Hin as [Hin|Hin];
            [injection Hin as -> _; lia|]).
    by apply elem_of_nil in Hin. }
  split_and!.
  - rewrite Hlook. vm_compute. reflexivity.
  - rewrite Hlook. vm_compute. reflexivity.
  - exact Hrun.
Defined.

(** ** Keys and authentication *)

Section AuthenticationProperties.
Import JsString Authentication.

Lemma or_string_some value fallback key :
  or_string value fallback = Some key →
  (value = Some key ∧ key ≠ EmptyString)
  ∨ ((value = None ∨ value = Some EmptyString) ∧ fallback = Some key).
Proof.
  destruct value as [[|c s]|]; cbn.
  - intros ->. right. split; [by right|done].
  - intros [= <-]. by left.
  - intros ->. right. split; [by left|done].
Qed.

(** X4. Without a key generator the rate-limit key is the first of the
    IP address, the user id and the session id, in this order, that is
    present and not empty, and ["anonymous"] when there is none, so that
    all the requests without an identity share one window; it is never
    empty. *)
Theorem generateRateLimitKey_default (context : option RequestContext) :
  let key := generateRateLimitKey None context in
  let blank (v : option string) := v = None ∨ v = Some EmptyString in
  key ≠ EmptyString
  ∧ (∀ v, optional context ip = Some v → v ≠ EmptyString → key = v)
  ∧ (blank (optional context ip) →
     ∀ v, optional context userId = Some v → v ≠ EmptyString → key = v)
  ∧ (blank (optional context ip) → blank (optional context userId) →
     ∀ v, optional context sessionId = Some v → v ≠ EmptyString →
          key = v)
  ∧ (blank (optional context ip) → blank (optional context userId) →
     blank (optional context sessionId) → key = "anonymous").
Proof.
  cbn zeta. unfold generateRateLimitKey.
  destruct (optional context ip) as [[|c1 s1]|];
    destruct (optional context userId) as [[|c2 s2]|];
    destruct (optional context sessionId) as [[|c3 s3]|]; cbn;
    split_and!; try done;
    repeat match goal with
           | |- _ ∨ _ → _ => intros [?|?]; try done
           | |- ∀ _, _ => intro
           end; try congruence.
Qed.

(** X5. With API-key authentication a request is authenticated exactly
    when the key it presents (the [x-api-key] header, or the
    [authorization] header when that one is absent or empty) is not empty
    and is one of the configured valid keys; without configured keys no
    request is. *)
Theorem validateApiKey_iff (auth : AuthConfig)
    (context : option RequestContext) :
  enabled auth = true → auth_type auth = api_key →
  let result := validateAuthentication (Some auth) context in
  (authenticated result = true ↔
     ∃ key keys, presented_key context = Some key ∧ key ≠ EmptyString
                 ∧ validKeys auth = Some keys ∧ key ∈ keys)
  ∧ (validKeys auth = None → authenticated result = false).
Proof.
  intros Hen Hty. cbn zeta. unfold validateAuthentication.
  rewrite Hen, Hty. unfold validateApiKey.
  destruct (presented_key context) as [[|c s]|] eqn:Hkey; cbn [or_string].
  - split; [|done]. split; [done|]. by intros (? & ? & [= <-] & ? & _).
  - destruct (validKeys auth) as [keys|].
    + split; [|done].
      destruct (existsb (String.eqb (String c s)) keys) eqn:Hex;
        cbn [authenticated].
      * split; [|done]. intros _.
        apply existsb_exists in Hex as (x & Hin & Heq).
        apply String.eqb_eq in Heq as <-.
        exists (String c s), keys. split_and!; try done.
        by apply list_elem_of_In.
      * split; [done|]. intros (key & keys' & [= <-] & _ & [= <-] & Hin).
        assert (existsb (String.eqb (String c s)) keys = true) as Hyes.
        { apply existsb_exists. exists (String c s).
          split; [by apply list_elem_of_In|apply String.eqb_refl]. }
        congruence.
    + split; [|done]. split; [done|]. by intros (? & ? & _ & _ & ? & _).
  - split; [|done]. split; [done|]. by intros (? & ? & ? & _).
Qed.

(** X6. What the other schemes accept. With authentication absent or
    disabled, and with the OAuth scheme, every request is authenticated,
    even one without a context. With the JWT scheme a request is
    authenticated exactly when its [authorization] header, once the first
    ["Bearer "] is taken out, is not empty: the token itself is never
    looked at, and the user is always [user-123]. *)
Theorem validateAuthentication_unverified (config : option AuthConfig)
    (context : option RequestContext) :
  let result := validateAuthentication config context in
  (config = None → authenticated result = true)
  ∧ (∀ auth, config = Some auth →
       (enabled auth = false → authenticated result = true)
       ∧ (enabled auth = true → auth_type auth = oauth →
          authenticated result = true)
       ∧ (enabled auth = true → auth_type auth = jwt →
          (authenticated result = true ↔
             ∃ token, bearer_token context = Some token
                      ∧ token ≠ EmptyString)
          ∧ (authenticated result = true →
             user result = Some {| user_id := "user-123";
                                   role := "user" |}))).
Proof.
  cbn zeta. split; [by intros ->|].
  intros auth ->. unfold validateAuthentication. split_and!.
  - by intros ->.
  - by intros -> ->.
  - intros -> ->. unfold validateJWT.
    destruct (bearer_token context) as [[|c s]|]; cbn.
    + split; [|done]. split; [done|]. by intros (? & [= <-] & ?).
    + split; [|done]. split; [|done]. intros _. by exists (String c s).
    + split; [|done]. split; [done|]. by intros (? & ? & _).
Qed.

End AuthenticationProperties.

Lemma validateApiKey_iff_witness :
  let auth := {| Authentication.enabled := true;
                 Authentication.auth_type := Authentication.api_key;
                 Authentication.validKeys := Some ["k-1"; "k-2"] |} in
  let context :=
    Some {| Authentication.headers :=
              Some {| Authentication.authorization := Some "k-2";
                      Authentication.x_api_key := None |};
            Authentication.ip := None; Authentication.userId := None;
            Authentication.sessionId := None |} in
  Authentication.authenticated
    (Authentication.validateAuthentication (Some auth) context) = true.
Proof.
  cbn zeta.
  apply (proj1 (validateApiKey_iff
                  {| Authentication.enabled := true;
                     Authentication.auth_type := Authentication.api_key;
                     Authentication.validKeys := Some ["k-1"; "k-2"] |}
                  _ eq_refl eq_refl)).
  exists "k-2", ["k-1"; "k-2"]. split_and!; try done.
  right. left.
Defined.

(** ** More on the input guard *)

Section GuardMore.
Import JsString Regex InputGuard GuardSteps Shape.

Lemma endsWith_iff s suffix :
  endsWith s suffix = true ↔ ∃ front, s = front +:+ suffix.
Proof.
  split.
  - induction s as [|c s IH]; cbn [endsWith].
    + intros [H|H]%orb_true_iff; [|done].
      apply String.eqb_eq in H as <-. by exists EmptyString.
    + intros [H|H]%orb_true_iff.
      * apply String.eqb_eq in H as <-. by exists EmptyString.
      * destruct (IH H) as [front ->]. by exists (String c front).
  - intros [front ->]. induction front as [|c front IH].
    + change (EmptyString +:+ suffix) with suffix.
      destruct suffix; cbn [endsWith]; by rewrite String.eqb_refl.
    + change (String c front +:+ suffix) with (String c (front +:+ suffix)).
      cbn [endsWith]. rewrite IH. apply orb_true_r.
Qed.

(** X7. With an allowlist configured, a URL is allowed exactly when its
    host name is an entry of the list or ends with a dot followed by an
    entry; a URL whose host name cannot be read is not allowed. *)
Theorem isAllowedDomain_iff (url_hostname : string → option string)
    (config : SecurityConfig) (domains : list string) (url : string) :
  allowedDomains config = Some domains →
  (isAllowedDomain url_hostname config url = true ↔
     ∃ host allowed,
       url_hostname url = Some host ∧ allowed ∈ domains
       ∧ (host = allowed ∨ ∃ sub, host = sub +:+ "." +:+ allowed))
  ∧ (url_hostname url = None →
     isAllowedDomain url_hostname config url = false).
Proof.
  intros Hcfg. unfold isAllowedDomain. rewrite Hcfg.
  destruct (url_hostname url) as [host|]; [|split; [|done]].
  - split; [|done]. rewrite existsb_exists. split.
    + intros (allowed & Hin & [Heq|Hsub]%orb_true_iff);
        exists host, allowed; (split_and!; [done|by apply list_elem_of_In|]).
      * left. by apply String.eqb_eq.
      * right. by apply endsWith_iff.
    + intros (? & allowed & [= <-] & Hin & Hmatch).
      exists allowed. split; [by apply list_elem_of_In|].
      apply orb_true_iff. destruct Hmatch as [->|Hsub].
      * left. apply String.eqb_refl.
      * right. by apply endsWith_iff.
  - split; [done|]. by intros (? & ? & ? & _).
Qed.

Lemma test_false_no_match r s : test r s = false → match_all r s = None.
Proof.
  unfold test, exec, match_all. cbn [all_from].
  by destruct (search_from r None s).
Qed.

Lemma test_true_some_match r s :
  test r s = true → ∃ m ms, match_all r s = Some (m :: ms).
Proof.
  unfold test, exec, match_all. cbn [all_from].
  destruct (search_from r None s) as [m|]; [intros _|done].
  destruct (matched m) as [|c t]; destruct (rest (after m));
    by eexists _, _.
Qed.

Lemma filter_nil_all {A} (f : A → bool) (l : list A) :
  List.filter f l = [] → ∀ x, x ∈ l → f x = false.
Proof.
  induction l as [|a l IH]; cbn; intros Hnil x Hin.
  - by apply elem_of_nil in Hin.
  - destruct (f a) eqn:Ha; [done|].
    apply elem_of_cons in Hin as [->|Hin]; [done|by apply IH].
Qed.

(** X8. What a valid result guarantees: the input was a string, not
    empty, and no longer than a configured non-zero maximum; the
    [sanitizedInput] returned is the sanitized text when sanitization is
    enabled and the input itself otherwise; it matches none of the
    malicious patterns; and with an allowlist configured every URL found
    in it is an allowed one. *)
Theorem validateInput_valid_guarantees
    (url_hostname : string → option string) (config : SecurityConfig)
    (input : JsVal) :
  isValid (validateInput url_hostname config input) = true →
  ∃ text,
    input = Some (JStr text) ∧ text ≠ EmptyString
    ∧ sanitizedInput (validateInput url_hostname config input)
      = Some (sanitized_text config text)
    ∧ (∀ max, maxInputLength config = Some max → max ≠ 0 →
         Z.of_nat (String.length text) ≤ max)
    ∧ containsMaliciousContent (sanitized_text config text) = false
    ∧ (∀ domains url,
         allowedDomains config = Some domains →
         url ∈ extractUrls (sanitized_text config text) →
         isAllowedDomain url_hostname config url = true).
Proof.
  destruct input as [[| | |[|c text]| | |]|]; try done.
  rewrite validateInput_string. cbn zeta.
  set (san := sanitized_text config (String c text)) in *.
  destruct (length_step config (String c text) ++ malicious_step san
            ++ url_step url_hostname config san) eqn:Hrep; [|done].
  intros _. apply app_eq_nil in Hrep as [Hlen Hrep].
  apply app_eq_nil in Hrep as [Hmal Hurl].
  exists (String c text). split_and!; try done.
  - intros max Hmax Hnz. unfold length_step in Hlen. rewrite Hmax in Hlen.
    destruct (Z.ltb_spec max (Z.of_nat (String.length (String c text))))
      as [Hlt|]; [|lia].
    apply Z.ltb_lt in Hlt. apply Z.eqb_neq in Hnz.
    by rewrite Hnz in Hlen.
  - fold san. unfold malicious_step in Hmal. revert Hmal.
    by destruct (containsMaliciousContent san).
  - fold san. intros domains url Hdom Hin. unfold url_step in Hurl.
    destruct (containsExternalUrls san) eqn:Hext.
    + unfold disallowed_urls in Hurl. rewrite Hdom in Hurl.
      destruct (List.filter _ (extractUrls san)) eqn:Hf; [|done].
      apply negb_false_iff. by apply (filter_nil_all _ _ Hf).
    + unfold extractUrls, containsExternalUrls in *.
      rewrite (test_false_no_match _ _ Hext) in Hin.
      by apply elem_of_nil in Hin.
Qed.

(** X9. An allowlist that is configured but empty allows no URL at all:
    every input in which a URL is found is invalid. *)
Theorem empty_allowlist_rejects_urls
    (url_hostname : string → option string) (config : SecurityConfig)
    (c : ascii) (text : string) :
  allowedDomains config = Some [] →
  containsExternalUrls (sanitized_text config (String c text)) = true →
  isValid (validateInput url_hostname config (Some (JStr (String c text))))
  = false.
Proof.
  intros Hdom Hext. rewrite validateInput_string. cbn zeta.
  set (san := sanitized_text config (String c text)) in *.
  assert (Hurl : url_step url_hostname config san ≠ []).
  { unfold url_step, disallowed_urls. rewrite Hext, Hdom.
    unfold extractUrls, containsExternalUrls in *.
    destruct (test_true_some_match _ _ Hext) as (m & ms & ->).
    assert (isAllowedDomain url_hostname config m = false) as Hno.
    { unfold isAllowedDomain. rewrite Hdom.
      by destruct (url_hostname m). }
    cbn [List.filter]. by rewrite Hno. }
  destruct (length_step _ _ ++ malicious_step san ++ _) eqn:Hrep; [|done].
  apply app_eq_nil in Hrep as [_ Hrep].
  by apply app_eq_nil in Hrep as [_ Hrep].
Qed.

(** *** The shape and the content of sanitized text *)

Lemma length_remove_all class s :
  (String.length (remove_all class s) ≤ String.length s)%nat.
Proof.
  induction s as [|c s IH]; cbn; [done|]. destruct (class c); cbn; lia.
Qed.

Lemma length_collapse b s :
  (String.length (collapse_from b s) ≤ String.length s)%nat.
Proof.
  revert b. induction s as [|c s IH]; intros b; cbn; [done|].
  destruct (is_space c), b; cbn.
  - specialize (IH true). lia.
  - specialize (IH true). lia.
  - specialize (IH false). lia.
  - specialize (IH false). lia.
Qed.

Lemma length_trimStart s :
  (String.length (trimStart s) ≤ String.length s)%nat.
Proof.
  induction s as [|c s IH]; cbn; [done|]. destruct (is_space c); cbn; lia.
Qed.

Lemma length_trimEnd s :
  (String.length (trimEnd s) ≤ String.length s)%nat.
Proof.
  induction s as [|c s IH]; cbn; [done|].
  destruct (trimEnd s) as [|d t]; [destruct (is_space c)|]; cbn in *; lia.
Qed.

Lemma ends_clean_trimEnd s : ShapeMore.ends_clean (trimEnd s) = true.
Proof.
  induction s as [|c s IH]; [done|]. cbn [trimEnd].
  destruct (trimEnd s) as [|d t] eqn:Et.
  - destruct (is_space c) eqn:E; [done|]. cbn. by rewrite E.
  - exact IH.
Qed.

(** X10. Sanitized text holds none of the removed control characters; its
    white space consists of single blanks, with none at its start and
    none at its end; and it is never longer than the input. *)
Theorem sanitizeInput_result_shape (x : string) :
  let y := sanitizeInput x in
  all_chars (fun c => negb (is_control c)) y = true
  ∧ tidy false y = true
  ∧ starts_clean y = true
  ∧ ShapeMore.ends_clean y = true
  ∧ (String.length y ≤ String.length x)%nat.
Proof.
  cbn zeta. destruct (sanitizeInput_shape x) as (Hctl & Htidy & _).
  split_and!; try done.
  - unfold sanitizeInput, trim.
    apply starts_clean_trimEnd, starts_clean_trimStart.
  - unfold sanitizeInput, trim. apply ends_clean_trimEnd.
  - unfold sanitizeInput, trim, collapse_spaces.
    etrans; [apply length_trimEnd|]. etrans; [apply length_trimStart|].
    etrans; [apply length_collapse|]. etrans; [apply length_remove_all|].
    apply length_remove_all.
Qed.

Lemma remove_all_remove_all p q s :
  remove_all p (remove_all q s) = remove_all (fun c => q c || p c) s.
Proof.
  induction s as [|c s IH]; cbn; [done|].
  destruct (q c); cbn; [done|]. destruct (p c); by rewrite IH.
Qed.

Lemma remove_all_ext p q s :
  (∀ c, p c = q c) → remove_all p s = remove_all q s.
Proof.
  intros H. induction s as [|c s IH]; cbn; [done|].
  by rewrite H, IH.
Qed.

Lemma remove_space_collapse b s :
  remove_all is_space (collapse_from b s) = remove_all is_space s.
Proof.
  revert b. induction s as [|c s IH]; intros b; cbn; [done|].
  destruct (is_space c) eqn:E.
  - destruct b; cbn; by rewrite IH.
  - cbn. by rewrite E, IH.
Qed.

Lemma remove_space_trimStart s :
  remove_all is_space (trimStart s) = remove_all is_space s.
Proof.
  induction s as [|c s IH]; cbn; [done|].
  destruct (is_space c) eqn:E; [done|]. cbn. by rewrite E.
Qed.

Lemma remove_space_trimEnd s :
  remove_all is_space (trimEnd s) = remove_all is_space s.
Proof.
  induction s as [|c s IH]; cbn; [done|].
  destruct (trimEnd s) as [|d t] eqn:Et.
  - destruct (is_space c) eqn:E; cbn; rewrite ?E; by rewrite <- IH.
  - cbn [remove_all] in *. by rewrite IH.
Qed.

(** X11. Sanitizing loses no visible character: apart from white space,
    the sanitized text is the input without its control characters, in
    the same order. *)
Theorem sanitizeInput_keeps_visible (x : string) :
  remove_all is_space (sanitizeInput x)
  = remove_all (fun c => is_control c || is_space c) x.
Proof.
  unfold sanitizeInput, trim, collapse_spaces.
  rewrite remove_space_trimEnd, remove_space_trimStart,
    remove_space_collapse, !remove_all_remove_all.
  apply remove_all_ext. intros c.
  destruct (code c =? 0)%N eqn:E; [|done].
  by rewrite (nul_is_control c E).
Qed.

End GuardMore.

Lemma isAllowedDomain_iff_witness :
  let config := {| InputGuard.maxInputLength := None;
                   InputGuard.allowedDomains := Some ["openai.com"];
                   InputGuard.sanitizeInput_enabled := false |} in
  InputGuard.isAllowedDomain Samples.sample_hostname config
    "https://api.openai.com/v1" = true.
Proof.
  cbn zeta.
  apply (proj1 (isAllowedDomain_iff Samples.sample_hostname
                  {| InputGuard.maxInputLength := None;
                     InputGuard.allowedDomains := Some ["openai.com"];
                     InputGuard.sanitizeInput_enabled := false |}
                  ["openai.com"] "https://api.openai.com/v1" eq_refl)).
  exists "api.openai.com", "openai.com". split_and!; [done|left|].
  right. by exists "api".
Defined.

Lemma validateInput_valid_guarantees_witness :
  let config := {| InputGuard.maxInputLength := Some 100;
                   InputGuard.allowedDomains := Some ["openai.com"];
                   InputGuard.sanitizeInput_enabled := true |} in
  ∃ text,
    Some (JStr "  see   https://api.openai.com/v1 ") = Some (JStr text)
    ∧ InputGuard.containsMaliciousContent
        (GuardSteps.sanitized_text config text) = false.
Proof.
  cbn zeta.
  destruct (validateInput_valid_guarantees Samples.sample_hostname
              {| InputGuard.maxInputLength := Some 100;
                 InputGuard.allowedDomains := Some ["openai.com"];
                 InputGuard.sanitizeInput_enabled := true |}
              (Some (JStr "  see   https://api.openai.com/v1 ")))
    as (text & Hin & _ & _ & _ & Hmal & _).
  { vm_compute. reflexivity. }
  by exists text.
Defined.

Lemma empty_allowlist_rejects_urls_witness :
  InputGuard.isValid
    (InputGuard.validateInput Samples.sample_hostname
       {| InputGuard.maxInputLength := None;
          InputGuard.allowedDomains := Some [];
          InputGuard.sanitizeInput_enabled := true |}
       (Some (JStr "see https://api.openai.com/v1"))) = false.
Proof.
  apply (empty_allowlist_rejects_urls Samples.sample_hostname
           {| InputGuard.maxInputLength := None;
              InputGuard.allowedDomains := Some [];
              InputGuard.sanitizeInput_enabled := true |}
           "s" "ee https://api.openai.com/v1" eq_refl).
  vm_compute. reflexivity.
Defined.

(** ** More on the parameter resolver *)

Section ResolverMore.
Import JsString ToolStrategy ResolverShape.

Variable platform : Platform.

Lemma extract_from_string_optional input params :
  (∀ q c, (q, c) ∈ params → required c = false) →
  ∀ acc has, ∃ out, extract_from_string input params acc has = Ok out.
Proof.
  induction params as [|[q c] params IH]; intros Hopt acc has.
  - by eexists.
  - cbn [extract_from_string].
    assert (Hrest : ∀ q' c', (q', c') ∈ params → required c' = false).
    { intros q' c' Hin. apply (Hopt q' c'). by right. }
    destruct (extractParameterFromString input q); [by apply IH|].
    rewrite (Hopt q c) by left. by apply IH.
Qed.

(** X12. Only a required parameter can make resolution fail: for a tool
    without parameters, or whose parameters are all optional,
    [parseInput] returns a value on every input. Without parameters, a
    text that is not JSON, and the JSON text of [null], come back as the
    raw text. *)
Theorem parseInput_total_without_required (tool : ToolMetadata)
    (input : string) :
  (∀ params q c, parameters tool = Some params → (q, c) ∈ params →
                 required c = false) →
  (∃ value, parseInput platform input tool = Ok value)
  ∧ (parameters tool = None →
     (∀ e, JSON_parse platform input = Throw e →
           parseInput platform input tool = Ok (JStr input))
     ∧ (JSON_parse platform input = Ok JNull →
        parseInput platform input tool = Ok (JStr input))).
Proof.
  intros Hopt. split.
  - unfold parseInput.
    destruct (parse_structured platform input tool); [by eexists|].
    cbn. unfold parse_free_text.
    destruct (parameters tool) as [params|] eqn:Hp; [|by eexists].
    destruct (extract_from_string_optional input params
                (λ q c, Hopt params q c eq_refl) [] false)
      as [[acc has] ->].
    cbn. destruct has; by eexists.
  - intros Hnone. unfold parseInput, parse_structured, parse_free_text.
    rewrite Hnone. split.
    + by intros e ->.
    + by intros ->.
Qed.

Lemma extract_from_string_throws input params : ∀ acc has message,
  extract_from_string input params acc has = Throw message →
  ∃ before q c after,
    params = before ++ (q, c) :: after
    ∧ required c = true
    ∧ extractParameterFromString input q = None
    ∧ message = missing_in_string q input
    ∧ (∀ q' c', (q', c') ∈ before →
         required c' = false
         ∨ is_Some (extractParameterFromString input q')).
Proof.
  induction params as [|[q c] params IH]; intros acc has message; [done|].
  cbn [extract_from_string].
  destruct (extractParameterFromString input q) as [v|] eqn:Hq.
  - intros (before & q0 & c0 & after & -> & ? & ? & ? & Hbefore)%IH.
    exists ((q, c) :: before), q0, c0, after. split_and!; try done.
    intros q' c' [[= -> ->]|Hin]%elem_of_cons; [|by apply Hbefore].
    right. by rewrite Hq.
  - destruct (required c) eqn:Hc.
    + intros [= <-]. exists [], q, c, params. split_and!; try done.
      intros q' c' Hin. by apply elem_of_nil in Hin.
    + intros (before & q0 & c0 & after & -> & ? & ? & ? & Hbefore)%IH.
      exists ((q, c) :: before), q0, c0, after. split_and!; try done.
      intros q' c' [[= -> ->]|Hin]%elem_of_cons; [|by apply Hbefore].
      by left.
Qed.

(** X13. The one error [parseInput] throws is the error of the free-text
    path: it names the first declared parameter, in declaration order,
    that is required and that the patterns cannot extract from the text,
    and it quotes the input. The error of the structured path, and a
    parse error, are never seen by the caller. *)
Theorem parseInput_error (tool : ToolMetadata) (input message : string) :
  parseInput platform input tool = Throw message →
  ∃ params before q c after,
    parameters tool = Some params
    ∧ params = before ++ (q, c) :: after
    ∧ required c = true
    ∧ extractParameterFromString input q = None
    ∧ message = missing_in_string q input
    ∧ (∀ q' c', (q', c') ∈ before →
         required c' = false
         ∨ is_Some (extractParameterFromString input q')).
Proof.
  unfold parseInput.
  destruct (parse_structured platform input tool); [done|]. cbn.
  unfold parse_free_text.
  destruct (parameters tool) as [params|]; [|done].
  destruct (extract_from_string input params [] false)
    as [[acc has]|e] eqn:Hrun.
  - cbn. by destruct has.
  - cbn. intros [= <-].
    destruct (extract_from_string_throws _ _ _ _ _ Hrun)
      as (before & q & c & after & H).
    by exists params, before, q, c, after.
Qed.

Lemma extract_from_json_same input json ps ps' :
  same_names ps ps' →
  ∀ acc has locked,
    extract_from_json platform input json ps acc has locked
    = extract_from_json platform input json ps' acc has locked.
Proof.
  induction 1 as [|[q c] [q' c'] ps ps' [Hq Hc] _ IH];
    intros acc has locked; [done|].
  cbn in Hq, Hc. subst q'. cbn [extract_from_json].
  destruct (js_get platform json q) as [[v|]|e]; cbn [bind]; [| |done].
  - destruct (assign locked q v acc); cbn [bind]; [apply IH|done].
  - rewrite <- Hc. destruct (required c); [|apply IH].
    destruct (extractParameterFromString input q) as [x|]; [|done].
    destruct (assign locked q x acc); cbn [bind]; [apply IH|done].
Qed.

Lemma extract_from_string_same input ps ps' :
  same_names ps ps' →
  ∀ acc has, extract_from_string input ps acc has
             = extract_from_string input ps' acc has.
Proof.
  induction 1 as [|[q c] [q' c'] ps ps' [Hq Hc] _ IH]; intros acc has;
    [done|].
  cbn in Hq, Hc. subst q'. cbn [extract_from_string].
  destruct (extractParameterFromString input q); [apply IH|].
  rewrite <- Hc. destruct (required c); [done|apply IH].
Qed.

(** X14. The resolver never looks at the declared type, description or
    enumeration of a parameter, nor at the tool's name, description,
    method or instance: two tools whose parameters have the same names
    and the same required flags, in the same order, resolve every input
    alike. In particular a value outside a declared enumeration is passed
    on as it is. *)
Theorem parseInput_ignores_types (tool tool' : ToolMetadata)
    (ps ps' : list (string * ToolParameter)) (input : string) :
  parameters tool = Some ps → parameters tool' = Some ps' →
  same_names ps ps' →
  parseInput platform input tool = parseInput platform input tool'.
Proof.
  intros Hp Hp' Hsame.
  unfold parseInput, parse_structured, parse_free_text.
  rewrite Hp, Hp'.
  rewrite (extract_from_string_same input ps ps' Hsame).
  destruct (JSON_parse platform input) as [json|e]; [|done].
  cbn [bind]. by rewrite (extract_from_json_same input json ps ps' Hsame).
Qed.

End ResolverMore.

Lemma parseInput_total_without_required_witness :
  ToolStrategy.parseInput Samples.sample_platform "say hello"
    SamplesMore.echo_tool
  = Ok (JStr "say hello").
Proof.
  apply (proj1 (proj2 (parseInput_total_without_required
                         Samples.sample_platform SamplesMore.echo_tool
                         "say hello" ltac:(by intros params q c [=]))
                  eq_refl) "Unexpected token in JSON at position 0").
  reflexivity.
Defined.

Lemma parseInput_error_witness :
  ∃ params before q c after,
    ToolStrategy.parameters Samples.weather_tool = Some params
    ∧ params = before ++ (q, c) :: after
    ∧ q = "zip".
Proof.
  destruct (parseInput_error Samples.sample_platform Samples.weather_tool
              "how is the weather"
              (ToolStrategy.missing_in_string "zip" "how is the weather"))
    as (params & before & q & c & after & Hp & Hsplit & _ & _ & Hmsg & _).
  { vm_compute. reflexivity. }
  exists params, before, q, c, after. split_and!; [done..|].
  injection Hp as <-.
  destruct before as [|b before]; [by injection Hsplit as <- _|].
  injection Hsplit as _ Hrest. by destruct before.
Defined.

Lemma parseInput_ignores_types_witness :
  ToolStrategy.parseInput Samples.sample_platform Samples.zip_payload
    Samples.weather_tool
  = ToolStrategy.parseInput Samples.sample_platform Samples.zip_payload
      SamplesMore.other_zip_tool.
Proof.
  apply (parseInput_ignores_types Samples.sample_platform
           Samples.weather_tool SamplesMore.other_zip_tool
           [("zip", Samples.zip_parameter)]
           [("zip", SamplesMore.typed_zip_parameter)]
           Samples.zip_payload eq_refl eq_refl).
  by repeat constructor.
Defined.

(** ** What the extraction patterns return *)

Section ExtractionProperties.
Import JsString Regex ToolStrategy ResolverShape.

Lemma string_length_app (x y : string) :
  String.length (x +:+ y) = (String.length x + String.length y)%nat.
Proof.
  induction x as [|c x IH]; [done|].
  change (String c x +:+ y) with (String c (x +:+ y)). cbn. by rewrite IH.
Qed.

Lemma substring_prefix (x y : string) :
  String.substring 0 (String.length x) (x +:+ y) = x.
Proof.
  induction x as [|c x IH]; [by destruct y|].
  change (String c x +:+ y) with (String c (x +:+ y)). cbn. by rewrite IH.
Qed.

(** A literal pattern, matched without regard to case, consumes a text
    that is the literal up to case. *)
Lemma run_lit_char c p k q :
  run (lit_char true c) p k = Some q →
  ∃ x s', rest p = String x s'
          ∧ lower_char x = lower_char c
          ∧ k {| prev := Some x; rest := s'; caps := caps p |} = Some q.
Proof.
  unfold lit_char. cbn [run].
  destruct (rest p) as [|x s']; [done|].
  destruct (Ascii.eqb_spec x c) as [->|_]; cbn.
  - intros H. by exists c, s'.
  - destruct (is_alpha c && is_alpha x) eqn:Ha; cbn; [|done].
    destruct (Ascii.eqb_spec (lower_char x) (lower_char c)); [|done].
    intros H. by exists x, s'.
Qed.

Lemma run_lit w : ∀ p k q,
  run (lit true w) p k = Some q →
  ∃ x p', rest p = x +:+ rest p'
          ∧ toLowerCase x = toLowerCase w
          ∧ caps p' = caps p
          ∧ k p' = Some q.
Proof.
  induction w as [|c w IH]; intros p k q.
  - cbn. intros H. by exists EmptyString, p.
  - destruct w as [|d w].
    + cbn [lit]. intros (x & s' & Hrest & Hlow & Hk)%run_lit_char.
      exists (String x EmptyString),
        {| prev := Some x; rest := s'; caps := caps p |}.
      split_and!; [done| |done|done].
      cbn. by rewrite Hlow.
    + change (lit true (String c (String d w)))
        with (Seq (lit_char true c) (lit true (String d w))).
      cbn [run]. intros (x & s' & Hrest & Hlow & Hk)%run_lit_char.
      apply IH in Hk as (y & p' & Hrest' & Hlow' & Hcaps & Hk).
      cbn in Hrest', Hcaps.
      exists (String x y), p'. split_and!; [|  |done|done].
      * by rewrite Hrest, Hrest'.
      * cbn [toLowerCase]. by rewrite Hlow, Hlow'.
Qed.

Lemma run_words ws : ∀ p k q,
  run (words true ws) p k = Some q →
  ∃ w x p', w ∈ ws
            ∧ rest p = x +:+ rest p'
            ∧ toLowerCase x = toLowerCase w
            ∧ caps p' = caps p
            ∧ k p' = Some q.
Proof.
  unfold words. induction ws as [|w ws IH]; intros p k q.
  - cbn. by destruct (rest p).
  - destruct ws as [|w' ws].
    + cbn [fmap list_fmap alt].
      intros (x & p' & H)%run_lit. exists w, x, p'.
      split; [left|done].
    + change (alt (lit true <$> w :: w' :: ws))
        with (Alt (lit true w) (alt (lit true <$> w' :: ws))).
      cbn [run].
      destruct (run (lit true w) p k) as [q'|] eqn:Hw.
      * intros [= <-]. apply run_lit in Hw as (x & p' & H).
        exists w, x, p'. split; [left|done].
      * intros (w0 & x & p' & Hin & H)%IH.
        exists w0, x, p'. split; [by right|done].
Qed.

Lemma search_from_match r s : ∀ before m,
  search_from r before s = Some m →
  ∃ before' s', match_at r before' s' = Some m.
Proof.
  induction s as [|c s IH]; intros before m; cbn [search_from].
  - destruct (match_at r before EmptyString) eqn:H; [|done].
    intros [= <-]. eauto.
  - destruct (match_at r before (String c s)) eqn:H.
    + intros [= <-]. eauto.
    + apply IH.
Qed.

Lemma operation_match input m :
  exec operationPattern input = Some m →
  ∃ w, w ∈ operation_words ∧ toLowerCase (group1 m) = toLowerCase w.
Proof.
  unfold exec. intros (before & s & Hm)%search_from_match.
  unfold match_at, operationPattern in Hm. cbn [run] in Hm.
  destruct (run (words true _) _ _) as [q|] eqn:Hrun; [|done].
  injection Hm as <-.
  apply run_words in Hrun as (w & x & p' & Hin & Hrest & Hlow & _ & Hk).
  cbn [rest caps prev] in *. injection Hk as <-.
  exists w. split; [done|].
  unfold group1, group. cbn.
  rewrite Hrest, string_length_app.
  replace (String.length x + String.length (rest p')
           - String.length (rest p'))%nat with (String.length x) by lia.
  by rewrite substring_prefix.
Qed.

(** X15. What [extractParameterFromString] can return, by parameter
    name: for [operation], one of the six words add, subtract, multiply,
    divide, power and sqrt, in lower case whatever the case in the text;
    for [city] and [text], a string with no white space at either end;
    for [a] and [b], a number; and nothing for any other name but
    [email]. *)
Theorem extractParameterFromString_results (input paramName : string)
    (value : Json) :
  extractParameterFromString input paramName = Some value →
  (paramName = "operation" →
     ∃ w, w ∈ operation_words ∧ value = JStr w)
  ∧ (paramName = "city" ∨ paramName = "text" →
     ∃ s, value = JStr s ∧ trim s = s)
  ∧ (paramName = "a" ∨ paramName = "b" → ∃ q, value = JNum q)
  ∧ paramName ∈ extraction_table.
Proof.
  intros Hex. split_and!.
  - intros ->.
    change (extractParameterFromString input "operation")
      with (match exec operationPattern input with
            | Some operationMatch =>
                Some (JStr (toLowerCase (group1 operationMatch)))
            | None => None
            end) in Hex.
    destruct (exec operationPattern input) as [m|] eqn:Hm; [|done].
    injection Hex as <-.
    destruct (operation_match input m Hm) as (w & Hin & ->).
    exists w. split; [done|]. f_equal.
    unfold operation_words in Hin.
    repeat (apply elem_of_cons in Hin as [->|Hin]; [reflexivity|]).
    by apply elem_of_nil in Hin.
  - intros [-> | ->].
    + change (extractParameterFromString input "city")
        with (match exec cityPattern input with
              | Some cityMatch => Some (JStr (trim (group1 cityMatch)))
              | None =>
                  match exec quotedPattern input with
                  | Some quotedCityMatch =>
                      Some (JStr (trim (group1 quotedCityMatch)))
                  | None => None
                  end
              end) in Hex.
      destruct (exec cityPattern input); [|destruct (exec quotedPattern input)];
        try done; injection Hex as <-; eexists; split; try done;
        apply trim_idem.
    + change (extractParameterFromString input "text")
        with (match exec quotedPattern input with
              | Some textMatch => Some (JStr (trim (group1 textMatch)))
              | None => None
              end) in Hex.
      destruct (exec quotedPattern input); [|done].
      injection Hex as <-. eexists. split; [done|apply trim_idem].
  - intros [-> | ->].
    + change (extractParameterFromString input "a")
        with (match match_all numberPattern input with
              | Some numberMatch =>
                  let numbers := parseFloat <$> numberMatch in
                  if (0 <? length numbers)%nat
                  then JNum <$> numbers !! 0%nat else None
              | None => None
              end) in Hex.
      destruct (match_all numberPattern input) as [ms|]; [|done].
      cbn zeta in Hex. destruct (0 <? _)%nat; [|done].
      destruct ((parseFloat <$> ms) !! 0%nat) as [q|]; [|done].
      injection Hex as <-. by exists q.
    + change (extractParameterFromString input "b")
        with (match match_all numberPattern input with
              | Some numberMatch =>
                  let numbers := parseFloat <$> numberMatch in
                  if (1 <? length numbers)%nat
                  then JNum <$> numbers !! 1%nat else None
              | None => None
              end) in Hex.
      destruct (match_all numberPattern input) as [ms|]; [|done].
      cbn zeta in Hex. destruct (1 <? _)%nat; [|done].
      destruct ((parseFloat <$> ms) !! 1%nat) as [q|]; [|done].
      injection Hex as <-. by exists q.
  - destruct (decide (paramName ∈ extraction_table)) as [|Hout]; [done|].
    by rewrite (extract_outside_table input paramName Hout) in Hex.
Qed.

End ExtractionProperties.

Lemma extractParameterFromString_results_witness :
  ToolStrategy.extractParameterFromString "Please MULTIPLY 3 by 4" "operation"
  = Some (JStr "multiply")
  ∧ ∃ w, w ∈ ResolverShape.operation_words ∧ JStr "multiply" = JStr w.
Proof.
  assert (H : ToolStrategy.extractParameterFromString
                "Please MULTIPLY 3 by 4" "operation"
              = Some (JStr "multiply")) by (vm_compute; reflexivity).
  split; [exact H|].
  exact (proj1 (extractParameterFromString_results _ _ _ H) eq_refl).
Defined.

(** ** More on the fallback dispatcher and the orchestrator *)

Section DispatcherMore.
Import JsString ToolStrategy Repository AgentService.

(** X16. The dispatcher never throws. Its answer is the apology, or
    "Based on the <name> information: <result>" for a tool of the list
    that is relevant to the input and whose callable returned the result;
    on an empty list, and on an input that is not a string, it is the
    apology. *)
Theorem executeToolsDirectly_answers (tools : list DynamicTool)
    (input : JsVal) :
  ∃ answer,
    executeToolsDirectly tools input = Ok answer
    ∧ (answer = apology
       ∨ ∃ tool text result,
           input = Some (JStr text) ∧ tool ∈ tools
           ∧ relevant tool text ∧ func tool text = Ok result
           ∧ answer = "Based on the " +:+ tool_name tool
                      +:+ " information: " +:+ result)
    ∧ (tools = [] → answer = apology)
    ∧ ((∀ text, input ≠ Some (JStr text)) → answer = apology).
Proof.
  induction tools as [|tool tools IH].
  - exists apology. split_and!; try done. by left.
  - destruct IH as (rest_answer & Hrest & Hshape & _ & Hnot).
    assert (Hskip : executeToolsDirectly tools input = Ok rest_answer →
      ∃ answer, Ok rest_answer = Ok answer
        ∧ (answer = apology
           ∨ ∃ tool0 text result,
               input = Some (JStr text) ∧ tool0 ∈ tool :: tools
               ∧ relevant tool0 text ∧ func tool0 text = Ok result
               ∧ answer = "Based on the " +:+ tool_name tool0
                          +:+ " information: " +:+ result)
        ∧ (tool :: tools = [] → answer = apology)
        ∧ ((∀ text, input ≠ Some (JStr text)) → answer = apology)).
    { intros _. exists rest_answer. split_and!; try done.
      destruct Hshape as [->|(t & text & r & ? & ? & ?)]; [by left|].
      right. exists t, text, r. split_and!; try done;
        [by right|tauto|tauto|tauto]. }
    destruct input as [[| | |text| | |]|];
      try (cbn [executeToolsDirectly try_catch]; rewrite Hrest;
           by apply Hskip).
    rewrite executeToolsDirectly_cons.
    destruct (isRelevant tool (toLowerCase text)) eqn:Hrel;
      [|rewrite Hrest; by apply Hskip].
    destruct (func tool text) as [result|e] eqn:Hres;
      [|rewrite Hrest; by apply Hskip].
    eexists. split; [done|]. split_and!.
    + right. exists tool, text, result. split_and!; try done; [left|].
      by apply isRelevant_spec.
    + done.
    + intros Hno. by destruct (Hno text).
Qed.

Lemma includes_empty s : includes s EmptyString = true.
Proof. by destruct s. Qed.

Lemma split_trailing sep s :
  ∃ parts, parts ≠ []
           ∧ split sep (s +:+ String sep EmptyString)
             = parts ++ [EmptyString].
Proof.
  induction s as [|c s (parts & Hne & IH)].
  - exists [EmptyString]. split; [done|].
    change (EmptyString +:+ String sep EmptyString)
      with (String sep EmptyString).
    cbn. by rewrite Ascii.eqb_refl.
  - change (String c s +:+ String sep EmptyString)
      with (String c (s +:+ String sep EmptyString)).
    cbn [split]. rewrite IH.
    destruct (Ascii.eqb c sep).
    + exists (EmptyString :: parts). by split.
    + destruct parts as [|h t]; [done|].
      exists (String c h :: t). by split.
Qed.

Lemma toLowerCase_app x y :
  toLowerCase (x +:+ y) = toLowerCase x +:+ toLowerCase y.
Proof.
  induction x as [|c x IH]; [done|].
  change (String c x +:+ y) with (String c (x +:+ y)).
  cbn [toLowerCase]. by rewrite IH.
Qed.

(** X17. A tool whose name has an empty part between hyphens is relevant
    to every input, since every text includes the empty word: so it is
    for a tool with an empty name, and for a tool whose name ends with a
    hyphen. *)
Theorem empty_name_part_always_relevant (tool : DynamicTool)
    (text : string) :
  (EmptyString ∈ split "-" (toLowerCase (tool_name tool)) →
   isRelevant tool (toLowerCase text) = true)
  ∧ (tool_name tool = EmptyString →
     isRelevant tool (toLowerCase text) = true)
  ∧ (∀ front, tool_name tool = front +:+ "-" →
     isRelevant tool (toLowerCase text) = true).
Proof.
  assert (Hpart : EmptyString ∈ split "-" (toLowerCase (tool_name tool)) →
                  isRelevant tool (toLowerCase text) = true).
  { intros Hin. apply isRelevant_spec. right; left.
    exists EmptyString. split; [done|apply includes_empty]. }
  split_and!; [done| |].
  - intros Hname. apply Hpart. rewrite Hname. left.
  - intros front Hname. apply Hpart. rewrite Hname, toLowerCase_app.
    destruct (split_trailing "-" (toLowerCase front)) as (parts & _ & Hs).
    change (toLowerCase "-") with "-". rewrite Hs.
    apply elem_of_app. right. left.
Qed.

Variable world : World.
Variable aiProviderConfig : option AIProviderConfig.



(** X19. [executeAgent] never changes the repository, and it emits at
    most one event: none when it refuses the call, and otherwise one
    [AgentExecuted] event with the response it returns, or one
    [AgentError] event with the message it throws. *)
Theorem executeAgent_state name context st :
  let out := executeAgent world aiProviderConfig name context st in
  repo out.2 = repo st
  ∧ (out.2 = st
     ∨ (∃ ctx response, context = Some ctx ∧ out.1 = Ok response
          ∧ events out.2
            = events st ++ [AgentExecuted name ctx response])
     ∨ (∃ message, out.1 = Throw message
          ∧ events out.2 = events st ++ [AgentError name message]))
  ∧ (out.2 = st ↔
     context = None
     ∨ (∃ ctx, context = Some ctx ∧ invalid_input (input ctx) = true)
     ∨ getAgent name (repo st) = None).
Proof.
  cbn zeta. unfold executeAgent.
  assert (Hgrow : ∀ e, emit e st ≠ st).
  { intros e Heq. apply (f_equal events) in Heq. cbn in Heq.
    apply (f_equal length) in Heq. rewrite length_app in Heq.
    cbn in Heq. lia. }
  destruct context as [ctx|]; cbn; [|split_and!; try tauto; by left].
  destruct (invalid_input (input ctx)) eqn:Hinv; cbn.
  { split_and!; [done|by left|]. split; [|done].
    intros _. right; left. by exists ctx. }
  destruct (getAgent name (repo st)) as [agent|] eqn:Hagent; cbn.
  2: { split_and!; [done|by left|]. split; [|done]. intros _. by do 2 right. }
  destruct (executeAgentInternal _ _ _ _ _) as [response|message]; cbn.
  - split_and!; [done| |].
    + right; left. by exists ctx, response.
    + split; [intros H; by destruct (Hgrow _ H)|].
      intros [?|[(c & [= <-] & ?)|?]]; congruence.
  - split_and!; [done| |].
    + right; right. by exists message.
    + split; [intros H; by destruct (Hgrow _ H)|].
      intros [?|[(c & [= <-] & ?)|?]]; congruence.
Qed.

End DispatcherMore.

Lemma empty_name_part_always_relevant_witness :
  AgentService.isRelevant
    {| ToolStrategy.tool_name := "lookup-";
       ToolStrategy.tool_description := "x";
       ToolStrategy.func := fun _ => Ok "found" |}
    (JsString.toLowerCase "What time is it?") = true.
Proof.
  apply (proj2 (proj2 (empty_name_part_always_relevant
                         {| ToolStrategy.tool_name := "lookup-";
                            ToolStrategy.tool_description := "x";
                            ToolStrategy.func := fun _ => Ok "found" |}
                         "What time is it?")) "lookup").
  reflexivity.
Defined.


(** ** Registration: the repository as the service fills and reads it *)

Section MapEntries.
Import Repository Registry.
Context {V : Type}.
Implicit Types (entries : list (string * V)) (key : string) (value : V).

Lemma map_get_set_eq key value entries :
  map_get key (map_set key value entries) = Some value.
Proof.
  induction entries as [|[k v] rest IH]; cbn.
  - by rewrite String.eqb_refl.
  - destruct (String.eqb k key) eqn:Hk; cbn.
    + by rewrite String.eqb_refl.
    + by rewrite Hk.
Qed.

Lemma map_get_set_ne key key' value entries :
  key' ≠ key →
  map_get key' (map_set key value entries) = map_get key' entries.
Proof.
  intros Hne. induction entries as [|[k v] rest IH]; cbn.
  - by destruct (String.eqb_spec key key').
  - destruct (String.eqb_spec k key) as [->|Hk]; cbn.
    + by destruct (String.eqb_spec key key').
    + by rewrite IH.
Qed.

Lemma map_get_None key entries :
  map_get key entries = None ↔ key ∉ fst <$> entries.
Proof.
  induction entries as [|[k v] rest IH]; cbn.
  - split; [intros _; apply not_elem_of_nil|done].
  - rewrite not_elem_of_cons.
    destruct (String.eqb_spec k key) as [->|Hne]; [split; [done|tauto]|].
    rewrite IH. split; [|tauto]. intros ?. split; [congruence|done].
Qed.

Lemma map_get_elem key value entries :
  NoDup (fst <$> entries) →
  map_get key entries = Some value ↔ (key, value) ∈ entries.
Proof.
  induction entries as [|[k v] rest IH]; cbn; intros Hnd.
  - split; [done|]. intros H. by apply elem_of_nil in H.
  - apply NoDup_cons in Hnd as [Hk Hnd]. rewrite elem_of_cons.
    destruct (String.eqb_spec k key) as [->|Hne].
    + split; [intros [= ->]; by left|].
      intros [[= ->]|Hin]; [done|]. destruct Hk.
      apply list_elem_of_fmap. by exists (key, value).
    + rewrite (IH Hnd). split; [tauto|].
      intros [[= ? ?]|?]; [congruence|done].
Qed.

Lemma names_map_set key value entries :
  fst <$> map_set key value entries
  = if decide (key ∈ fst <$> entries) then fst <$> entries
    else (fst <$> entries) ++ [key].
Proof.
  induction entries as [|[k v] rest IH]; cbn.
  - destruct (decide (key ∈ [])) as [H|]; [by apply elem_of_nil in H|done].
  - destruct (String.eqb_spec k key) as [->|Hne]; cbn.
    + destruct (decide (key ∈ key :: (fst <$> rest))) as [|H]; [done|].
      destruct H. left.
    + rewrite IH. destruct (decide (key ∈ fst <$> rest)) as [Hin|Hout];
        destruct (decide (key ∈ k :: (fst <$> rest))) as [Hin'|Hout'];
        try done.
      * destruct Hout'. by right.
      * apply elem_of_cons in Hin' as [?|?]; congruence.
Qed.

Lemma NoDup_map_set key value entries :
  NoDup (fst <$> entries) → NoDup (fst <$> map_set key value entries).
Proof.
  intros Hnd. rewrite names_map_set.
  destruct (decide (key ∈ fst <$> entries)); [done|].
  apply NoDup_app. split_and!; [done| |apply NoDup_singleton].
  intros x Hx Hin. apply list_elem_of_singleton in Hin. congruence.
Qed.

(** Overwriting an entry with a value the selection leaves out removes
    its key from the selection, and moves nothing else. *)
Lemma filter_map_set_out (keep : V → bool) key value entries :
  keep value = false → NoDup (fst <$> entries) →
  fst <$> List.filter (λ entry, keep entry.2) (map_set key value entries)
  = List.filter (λ n, negb (String.eqb n key))
      (fst <$> List.filter (λ entry, keep entry.2) entries).
Proof.
  intros Hout. induction entries as [|[k v] rest IH]; cbn; intros Hnd.
  - by rewrite Hout.
  - apply NoDup_cons in Hnd as [Hk Hnd].
    destruct (String.eqb_spec k key) as [->|Hne]; cbn.
    + rewrite Hout.
      assert (Hsame : ∀ names : list string, key ∉ names →
                List.filter (λ n, negb (String.eqb n key)) names = names).
      { induction names as [|n names IHn]; [done|]. cbn.
        rewrite not_elem_of_cons. intros [Hn Hrest].
        apply not_eq_sym in Hn. apply String.eqb_neq in Hn as ->. cbn.
        by rewrite IHn. }
      assert (Hnot : key ∉ fst <$> List.filter (λ entry, keep entry.2) rest).
      { intros Hin. apply Hk. apply list_elem_of_fmap in Hin as (e & -> & He).
        apply list_elem_of_fmap. exists e. split; [done|].
        apply list_elem_of_In. apply list_elem_of_In in He.
        by apply List.filter_In in He as [? _]. }
      destruct (keep v); cbn.
      * rewrite String.eqb_refl. cbn. by rewrite Hsame.
      * by rewrite Hsame.
    + destruct (keep v); cbn; [|by apply IH].
      apply String.eqb_neq in Hne as ->. cbn. by rewrite IH.
Qed.

Lemma filter_filter_names (names : list string) (p q : string → bool) :
  List.filter p (List.filter q names)
  = List.filter (λ n, q n && p n) names.
Proof.
  induction names as [|n names IH]; [done|]. cbn.
  destruct (q n); cbn; [destruct (p n); by rewrite IH|done].
Qed.

End MapEntries.

Section RegistryProperties.
Import ToolStrategy Repository AgentService Registry.

Lemma registerTools_snoc ts tool i st :
  registerTools (Some (ts ++ [tool])) i st
  = register_one i (registerTools (Some ts) i st) tool.
Proof. cbn. by rewrite fold_left_app. Qed.

Lemma registerTools_names_NoDup ts i st :
  NoDup (getRegisteredTools st) →
  NoDup (getRegisteredTools (registerTools (Some ts) i st)).
Proof.
  induction ts as [|tool ts IH] using rev_ind; [done|]. intros Hnd.
  rewrite registerTools_snoc. by apply NoDup_map_set, IH.
Qed.

(** The tool a name leads to after [registerTools]: the last declared
    tool of that name, with the instance; the one it led to before when
    none is declared under it. *)
Lemma registerTools_getTool ts i st n :
  getTool n (repo (registerTools (Some ts) i st))
  = match List.find (λ t, String.eqb (name t) n) (rev ts) with
    | Some t => Some (with_instance t i)
    | None => getTool n (repo st)
    end.
Proof.
  induction ts as [|tool ts IH] using rev_ind; [done|].
  rewrite registerTools_snoc, rev_unit. cbn [List.find].
  unfold register_one, getTool. cbn [repo emit saveTool Repository.tools].
  destruct (String.eqb_spec (name tool) n) as [->|Hne].
  - apply map_get_set_eq.
  - rewrite map_get_set_ne by done. exact IH.
Qed.

Lemma tool_names_of_spec agent r n :
  NoDup (fst <$> Repository.tools r) →
  n ∈ tool_names_of agent r
  ↔ ∃ t, getTool n r = Some t ∧ instance t = agent_instance agent.
Proof.
  intros Hnd. unfold tool_names_of, getAllTools, getTool.
  rewrite list_elem_of_fmap. split.
  - intros ([k t] & -> & Hin). apply list_elem_of_In in Hin.
    apply List.filter_In in Hin as [Hin Hi]. cbn in *.
    exists t. split; [|by apply Nat.eqb_eq].
    apply map_get_elem; [done|]. by apply list_elem_of_In.
  - intros (t & Hget & Hi). exists (n, t). split; [done|].
    apply list_elem_of_In, List.filter_In. split.
    + apply list_elem_of_In. by apply map_get_elem.
    + cbn. by apply Nat.eqb_eq.
Qed.

(** X20. [registerTools] for an instance: the events it emits are one
    [ToolRegistered] per declared tool, in order; no agent changes; a
    name leads to the last tool declared under it, carrying the
    instance, and to what it led to before if none is; the names stay
    distinct; and every declared name is among the tools [executeAgent]
    hands to an agent with that instance. *)
Theorem registerTools_effect (ts : list ToolMetadata) (i : nat)
    (st : State) (agent : AgentEntry) :
  NoDup (getRegisteredTools st) →
  agent_instance agent = i →
  let st' := registerTools (Some ts) i st in
  events st' = events st ++ ((λ t, ToolRegistered (name t)) <$> ts)
  ∧ agents (repo st') = agents (repo st)
  ∧ (∀ n, getTool n (repo st')
          = match List.find (λ t, String.eqb (name t) n) (rev ts) with
            | Some t => Some (with_instance t i)
            | None => getTool n (repo st)
            end)
  ∧ NoDup (getRegisteredTools st')
  ∧ (∀ t, t ∈ ts → name t ∈ tool_names_of agent (repo st')).
Proof.
  intros Hnd Hi st'. subst st'.
  assert (Hev : events (registerTools (Some ts) i st)
                = events st ++ ((λ t, ToolRegistered (name t)) <$> ts)
                ∧ agents (repo (registerTools (Some ts) i st))
                  = agents (repo st)).
  { induction ts as [|tool ts [IH1 IH2]] using rev_ind.
    - cbn. by rewrite app_nil_r.
    - rewrite registerTools_snoc. unfold register_one.
      cbn [emit events repo saveTool agents].
      rewrite IH1, IH2, fmap_app. by rewrite <- app_assoc. }
  destruct Hev as [Hev Hag].
  split_and!; [done|done|apply registerTools_getTool
              |by apply registerTools_names_NoDup|].
  intros t Hin.
  apply tool_names_of_spec; [by apply registerTools_names_NoDup|].
  rewrite registerTools_getTool.
  destruct (List.find _ (rev ts)) as [t'|] eqn:Hfind.
  - exists (with_instance t' i). by split.
  - apply list_elem_of_In, in_rev in Hin.
    pose proof (List.find_none _ _ Hfind _ Hin) as Hno. cbn in Hno.
    by rewrite String.eqb_refl in Hno.
Qed.

Lemma register_one_steals i st tool agent :
  NoDup (getRegisteredTools st) → agent_instance agent ≠ i →
  tool_names_of agent (repo (register_one i st tool))
  = List.filter (λ n, negb (String.eqb n (name tool)))
      (tool_names_of agent (repo st)).
Proof.
  intros Hnd Hne. unfold tool_names_of, register_one, getAllTools.
  cbn [repo emit saveTool Repository.tools].
  apply (filter_map_set_out
           (λ t, Nat.eqb (instance t) (agent_instance agent))); [|done].
  cbn. apply Nat.eqb_neq. congruence.
Qed.

(** X21. Tool names are global. When [registerTools] runs for another
    instance, an agent keeps, in their order, exactly those of its tools
    whose names are not declared there: a tool declared under a name the
    agent already uses is taken from the agent. *)
Theorem registerTools_takes_names (ts : list ToolMetadata) (i : nat)
    (st : State) (agent : AgentEntry) :
  NoDup (getRegisteredTools st) →
  agent_instance agent ≠ i →
  tool_names_of agent (repo (registerTools (Some ts) i st))
  = List.filter (λ n, forallb (λ t, negb (String.eqb n (name t))) ts)
      (tool_names_of agent (repo st)).
Proof.
  intros Hnd Hne. induction ts as [|tool ts IH] using rev_ind.
  - cbn. induction (tool_names_of agent (repo st)) as [|n l IHl]; [done|].
    cbn. by rewrite <- IHl.
  - rewrite registerTools_snoc, register_one_steals, IH;
      [|by apply registerTools_names_NoDup|done].
    rewrite filter_filter_names. apply List.filter_ext. intros n.
    rewrite forallb_app. cbn. by rewrite andb_true_r.
Qed.

(** X22. [registerCustomTool] stores the tool as it is given, under its
    name: a tool already listed under the name is replaced in place and
    a new name goes last, and one [ToolRegistered] event is emitted.
    The tool is handed to an agent by [executeAgent] only if the
    instance it carries is the agent's; carrying another, it is in no
    agent's tools, and it takes its name from the agent that had it. *)
Theorem registerCustomTool_effect (tool : ToolMetadata) (st : State)
    (agent : AgentEntry) :
  NoDup (getRegisteredTools st) →
  let st' := registerCustomTool tool st in
  getTool (name tool) (repo st') = Some tool
  ∧ (∀ n, n ≠ name tool → getTool n (repo st') = getTool n (repo st))
  ∧ getRegisteredTools st'
    = (if decide (name tool ∈ getRegisteredTools st)
       then getRegisteredTools st
       else getRegisteredTools st ++ [name tool])
  ∧ events st' = events st ++ [ToolRegistered (name tool)]
  ∧ (name tool ∈ tool_names_of agent (repo st')
     ↔ instance tool = agent_instance agent)
  ∧ (instance tool ≠ agent_instance agent →
     tool_names_of agent (repo st')
     = List.filter (λ n, negb (String.eqb n (name tool)))
         (tool_names_of agent (repo st))).
Proof.
  intros Hnd st'. subst st'.
  assert (Hget : getTool (name tool) (repo (registerCustomTool tool st))
                 = Some tool) by apply map_get_set_eq.
  split_and!.
  - done.
  - intros n Hn. by apply map_get_set_ne.
  - apply names_map_set.
  - done.
  - rewrite tool_names_of_spec by by apply NoDup_map_set.
    rewrite Hget. split; [by intros (t & [= <-] & ?)|].
    intros ?. by exists tool.
  - intros Hne. unfold tool_names_of, registerCustomTool, getAllTools.
    cbn [repo emit saveTool Repository.tools].
    apply (filter_map_set_out
             (λ t, Nat.eqb (instance t) (agent_instance agent))); [|done].
    cbn. by apply Nat.eqb_neq.
Qed.

(** [registerAgent] with metadata stores the pair of metadata and
    instance under the metadata's name, replacing an agent registered
    under that name before, touches no other agent and no tool, and
    emits one [AgentRegistered] event; without metadata it does
    nothing. The tools of the registered agent are those carrying its
    instance, registered before or not. *)
Lemma registerAgent_effect (m : AgentConfig) (i : nat) (st : State) :
  let st' := registerAgent (Some m) i st in
  let entry := {| metadata := m; agent_instance := i |} in
  getAgent (agent_name m) (repo st') = Some entry
  ∧ (∀ n, n ≠ agent_name m → getAgent n (repo st') = getAgent n (repo st))
  ∧ getAllTools (repo st') = getAllTools (repo st)
  ∧ events st' = events st ++ [AgentRegistered (agent_name m)]
  ∧ tool_names_of entry (repo st') = tool_names_of entry (repo st)
  ∧ registerAgent None i st = st.
Proof.
  cbn zeta. unfold getAgent. cbn. split_and!; try done.
  - apply lookup_insert_eq.
  - intros n Hn. by apply lookup_insert_ne.
Qed.

End RegistryProperties.

Lemma registerTools_effect_witness :
  "echo" ∈
    AgentService.tool_names_of
      {| Repository.metadata := Samples.weather_agent;
         Repository.agent_instance := 1 |}
      (AgentService.repo
         (Registry.registerTools (Some [SamplesMore.echo_tool]) 1%nat
            Samples.sample_state)).
Proof.
  pose proof (registerTools_effect [SamplesMore.echo_tool] 1%nat
                Samples.sample_state
                {| Repository.metadata := Samples.weather_agent;
                   Repository.agent_instance := 1 |}) as H.
  cbn zeta in H.
  destruct H as (_ & _ & _ & _ & H).
  - vm_compute. repeat constructor; set_solver.
  - reflexivity.
  - apply (H SamplesMore.echo_tool). left.
Defined.

Lemma registerTools_takes_names_witness :
  AgentService.tool_names_of
    {| Repository.metadata := Samples.weather_agent;
       Repository.agent_instance := 1 |}
    (AgentService.repo Samples.sample_state) = ["get-weather"]
  ∧ AgentService.tool_names_of
      {| Repository.metadata := Samples.weather_agent;
         Repository.agent_instance := 1 |}
      (AgentService.repo
         (Registry.registerTools (Some [Samples.weather_tool]) 2%nat
            Samples.sample_state)) = [].
Proof.
  split; [reflexivity|].
  rewrite (registerTools_takes_names [Samples.weather_tool] 2%nat
             Samples.sample_state
             {| Repository.metadata := Samples.weather_agent;
                Repository.agent_instance := 1 |}).
  - reflexivity.
  - vm_compute. repeat constructor; set_solver.
  - discriminate.
Defined.

Lemma registerCustomTool_effect_witness :
  Registry.getTool "other"
    (AgentService.repo
       (Registry.registerCustomTool SamplesMore.other_zip_tool
          Samples.sample_state)) = Some SamplesMore.other_zip_tool
  ∧ Registry.getRegisteredTools
      (Registry.registerCustomTool SamplesMore.other_zip_tool
         Samples.sample_state) = ["get-weather"; "other"].
Proof.
  pose proof (registerCustomTool_effect SamplesMore.other_zip_tool
                Samples.sample_state
                {| Repository.metadata := Samples.weather_agent;
                   Repository.agent_instance := 1 |}) as H.
  cbn zeta in H.
  destruct H as (Hget & _ & Hnames & _).
  - vm_compute. repeat constructor; set_solver.
  - split; [exact Hget|]. rewrite Hnames. reflexivity.
Defined.

(** ** Providers: the pipeline around the core execution, and their
    registry *)

Section MapDelete.
Import Repository Registry.
Context {V : Type}.
Implicit Types (entries : list (string * V)) (key : string) (value : V).

Lemma map_delete_found key entries :
  (map_delete key entries).2
  = match map_get key entries with Some _ => true | None => false end.
Proof.
  induction entries as [|[k v] rest IH]; [done|]. cbn.
  destruct (String.eqb k key); [done|].
  destruct (map_delete key rest) as [rest' found]. exact IH.
Qed.

Lemma map_delete_names key entries :
  NoDup (fst <$> entries) →
  fst <$> (map_delete key entries).1
  = List.filter (λ n, negb (String.eqb n key)) (fst <$> entries).
Proof.
  induction entries as [|[k v] rest IH]; [done|]. cbn. intros Hnd.
  apply NoDup_cons in Hnd as [Hk Hnd].
  destruct (String.eqb_spec k key) as [->|Hne]; cbn.
  - clear IH Hnd. induction rest as [|[k' v'] rest IH]; [done|].
    cbn in *. apply not_elem_of_cons in Hk as [Hk Hrest].
    apply not_eq_sym in Hk. apply String.eqb_neq in Hk as ->. cbn.
    by rewrite <- IH.
  - specialize (IH Hnd).
    destruct (map_delete key rest) as [rest' found]. cbn in *.
    by rewrite IH.
Qed.

Lemma map_get_delete_ne key key' entries :
  key' ≠ key →
  map_get key' (map_delete key entries).1 = map_get key' entries.
Proof.
  intros Hne. induction entries as [|[k v] rest IH]; [done|]. cbn.
  destruct (String.eqb_spec k key) as [->|Hk]; cbn.
  - by destruct (String.eqb_spec key key').
  - destruct (map_delete key rest) as [rest' found]. cbn in *.
    by rewrite IH.
Qed.

Lemma map_get_delete_eq key entries :
  NoDup (fst <$> entries) →
  map_get key (map_delete key entries).1 = None.
Proof.
  intros Hnd. apply map_get_None. rewrite map_delete_names by done.
  intros Hin. apply list_elem_of_In, List.filter_In in Hin as [_ Hin].
  by rewrite String.eqb_refl in Hin.
Qed.

Lemma map_delete_NoDup key entries :
  NoDup (fst <$> entries) → NoDup (fst <$> (map_delete key entries).1).
Proof.
  intros Hnd. rewrite map_delete_names by done.
  apply NoDup_ListNoDup, List.NoDup_filter. by apply NoDup_ListNoDup.
Qed.

End MapDelete.

Section ProviderProperties.
Import JsString ToolStrategy Repository AgentService BaseAgentProvider.
Import Registry.

Variable world : World.
Variable aiProviderConfig : option AIProviderConfig.

Lemma execute_state provider ctx st :
  (execute world aiProviderConfig provider (Some ctx) st).2
  = (executeAgent world aiProviderConfig (agentName provider)
       (Some (before_stage provider ctx)) st).2.
Proof.
  unfold execute.
  destruct (executeAgent _ _ _ _ _) as [[result|error] st']; [|done].
  by destruct (js_length (input ctx)).
Qed.

Lemma executeAgent_unknown name context st :
  getAgent name (repo st) = None →
  ∃ message,
    executeAgent world aiProviderConfig name context st
    = (Throw message, st).
Proof.
  intros Hnone. unfold executeAgent.
  destruct context as [ctx|]; [|by eexists].
  destruct (invalid_input (input ctx)); [by eexists|].
  rewrite Hnone. by eexists.
Qed.

(** X23. A provider that implements neither hook behaves exactly as the
    agent service called with the provider's agent name: same result and
    same state for every context, an absent context and an ill-typed
    input included. *)
Theorem execute_without_hooks (provider : Provider)
    (context : option AgentContext) (st : State) :
  beforeModelCall provider = None →
  afterModelCall provider = None →
  execute world aiProviderConfig provider context st
  = executeAgent world aiProviderConfig (agentName provider) context st.
Proof.
  intros Hbefore Hafter. destruct context as [ctx|]; [|done].
  unfold execute, before_stage, after_stage. rewrite Hbefore, Hafter.
  destruct (executeAgent _ _ _ _ _) as [[result|error] st'] eqn:Hcore;
    [|done].
  by destruct (executeAgent_ok_input _ _ _ _ _ _ _ Hcore) as [text ->].
Qed.

(** X24. [execute] reads the length of the input of the context it was
    given, not of the one the before hook returned. On a context whose
    input is undefined or null it therefore never returns a response,
    whatever the hooks do: when the before hook supplies an input, the
    core execution runs and leaves its event, and [execute] throws all
    the same. *)
Theorem execute_needs_original_input (provider : Provider)
    (ctx : AgentContext) (st : State) :
  input ctx = None ∨ input ctx = Some JNull →
  let run := execute world aiProviderConfig provider (Some ctx) st in
  let core :=
    executeAgent world aiProviderConfig (agentName provider)
      (Some (before_stage provider ctx)) st in
  (∃ message, run.1 = Throw message)
  ∧ run.2 = core.2
  ∧ (∀ response, core.1 = Ok response →
       events run.2
       = events st
         ++ [AgentExecuted (agentName provider)
               (before_stage provider ctx) response])
  ∧ (beforeModelCall provider = None →
     run = (Throw "Valid input string is required for agent execution",
            st)).
Proof.
  intros Hinput. cbn zeta. split_and!.
  - unfold execute.
    destruct (executeAgent _ _ _ _ _) as [[result|error] st'];
      [|by eexists].
    destruct Hinput as [-> | ->]; by eexists.
  - apply execute_state.
  - intros response Hcore. rewrite execute_state.
    revert Hcore. unfold executeAgent.
    destruct (invalid_input _); [done|].
    destruct (getAgent _ _); [|done].
    destruct (executeAgentInternal _ _ _ _ _); [|done].
    by intros [= ->].
  - intros Hbefore. unfold execute, before_stage. rewrite Hbefore.
    unfold executeAgent. by destruct Hinput as [-> | ->].
Qed.

Variable detailedExecution : bool.

(** X25. Registering a provider does not register its agent. Executing
    a registered provider whose agent name the agent service does not
    know throws for every context and changes nothing; and executing a
    name under which no provider is registered throws the "not found"
    error of the provider service, whether the agent service knows the
    name or not. *)
Theorem provider_needs_registered_agent
    (providers : list (string * Provider)) (name : string)
    (ctx : AgentContext) (st : State) :
  (∀ provider,
     AgentProviderService.getAgentProvider name providers = Some provider →
     getAgent (agentName provider) (repo st) = None →
      ∃ message,
       AgentProviderService.executeAgent world aiProviderConfig
         detailedExecution providers name (Some ctx) st
       = (Throw message, st))
  ∧ (AgentProviderService.getAgentProvider name providers = None →
     AgentProviderService.executeAgent world aiProviderConfig
       detailedExecution providers name (Some ctx) st
     = (Throw ("Agent provider '" +:+ name +:+ "' not found"), st)).
Proof.
  unfold AgentProviderService.getAgentProvider,
    AgentProviderService.executeAgent.
  split.
  - intros provider -> Hnone. unfold execute.
    destruct (executeAgent_unknown (agentName provider)
                (Some (before_stage provider ctx)) st Hnone)
      as [message ->].
    by exists message.
  - by intros ->.
Qed.

Lemma registerAgentProviders_snoc new provider providers :
  AgentProviderService.registerAgentProviders (new ++ [provider]) providers
  = AgentProviderService.registerAgentProvider provider
      (AgentProviderService.registerAgentProviders new providers).
Proof.
  unfold AgentProviderService.registerAgentProviders.
  by rewrite fold_left_app.
Qed.

Lemma registerAgentProviders_NoDup new providers :
  NoDup (AgentProviderService.getRegisteredAgentNames providers) →
  NoDup (AgentProviderService.getRegisteredAgentNames
           (AgentProviderService.registerAgentProviders new providers)).
Proof.
  intros Hnd. induction new as [|provider new IH] using rev_ind; [done|].
  rewrite registerAgentProviders_snoc. by apply NoDup_map_set.
Qed.

(** X26. After [registerAgentProviders], a name leads to the last
    provider of the list that carries it, and to the provider it led to
    before when none does; the registered names stay distinct. After
    [unregisterAgentProvider] the name leads to no provider, so that
    executing it throws the "not found" error; the other names lead
    where they did, and the flag returned tells whether a provider was
    registered under the name. *)
Theorem provider_registry_lookup (new : list Provider)
    (providers : list (string * Provider)) (name : string) :
  NoDup (AgentProviderService.getRegisteredAgentNames providers) →
  let registered :=
    AgentProviderService.registerAgentProviders new providers in
  let left := AgentProviderService.unregisterAgentProvider name registered in
  AgentProviderService.getAgentProvider name registered
  = match List.find (λ p, String.eqb (agentName p) name) (rev new) with
    | Some p => Some p
    | None => AgentProviderService.getAgentProvider name providers
    end
  ∧ NoDup (AgentProviderService.getRegisteredAgentNames registered)
  ∧ AgentProviderService.getAgentProvider name left.1 = None
  ∧ (∀ other, other ≠ name →
       AgentProviderService.getAgentProvider other left.1
       = AgentProviderService.getAgentProvider other registered)
  ∧ left.2 = AgentProviderService.isAgentRegistered name registered
  ∧ (∀ ctx st,
       AgentProviderService.executeAgent world aiProviderConfig
         detailedExecution left.1 name (Some ctx) st
       = (Throw ("Agent provider '" +:+ name +:+ "' not found"), st)).
Proof.
  intros Hnd. cbn zeta.
  pose proof (registerAgentProviders_NoDup new providers Hnd) as Hnd'.
  set (registered :=
         AgentProviderService.registerAgentProviders new providers) in *.
  assert (Hgone : AgentProviderService.getAgentProvider name
                    (AgentProviderService.unregisterAgentProvider name
                       registered).1 = None).
  { unfold AgentProviderService.unregisterAgentProvider,
      AgentProviderService.isAgentRegistered,
      AgentProviderService.getAgentProvider.
    destruct (map_get name registered) eqn:Hget; cbn; [|done].
    by apply map_get_delete_eq. }
  split_and!.
  - subst registered. clear Hnd Hnd' Hgone.
    unfold AgentProviderService.getAgentProvider.
    induction new as [|provider new IH] using rev_ind; [done|].
    rewrite registerAgentProviders_snoc, rev_unit. cbn [List.find].
    unfold AgentProviderService.registerAgentProvider.
    destruct (String.eqb_spec (agentName provider) name) as [->|Hne].
    + apply map_get_set_eq.
    + by rewrite map_get_set_ne.
  - done.
  - done.
  - intros other Hother.
    unfold AgentProviderService.unregisterAgentProvider,
      AgentProviderService.isAgentRegistered,
      AgentProviderService.getAgentProvider.
    destruct (map_get name registered); cbn; [|done].
    by apply map_get_delete_ne.
  - unfold AgentProviderService.unregisterAgentProvider.
    by destruct (AgentProviderService.isAgentRegistered name registered).
  - intros ctx st. unfold AgentProviderService.executeAgent.
    unfold AgentProviderService.getAgentProvider in Hgone.
    by rewrite Hgone.
Qed.

(** [deleteTool] takes the name out of the tools of every agent
    and leaves the other tools where they were; it answers whether the
    name was there. *)
Lemma deleteTool_effect (n : string) (r : Repo) (agent : AgentEntry) :
  NoDup (fst <$> getAllTools r) →
  let out := deleteTool n r in
  getTool n out.1 = None
  ∧ (∀ other, other ≠ n → getTool other out.1 = getTool other r)
  ∧ out.2 = match getTool n r with Some _ => true | None => false end
  ∧ (n ∉ tool_names_of agent (out.1))
  ∧ (∀ other, other ≠ n →
       other ∈ tool_names_of agent (out.1) ↔ other ∈ tool_names_of agent r)
  ∧ agents out.1 = agents r.
Proof.
  intros Hnd. cbn zeta. unfold getAllTools in Hnd.
  assert (Hout : deleteTool n r
                 = ({| agents := agents r;
                       Repository.tools :=
                         (map_delete n (Repository.tools r)).1 |},
                    (map_delete n (Repository.tools r)).2)).
  { unfold deleteTool. by destruct (map_delete n (Repository.tools r)). }
  rewrite Hout. cbn [fst snd].
  assert (Hgone : getTool n
                    {| agents := agents r;
                       Repository.tools :=
                         (map_delete n (Repository.tools r)).1 |} = None)
    by by apply map_get_delete_eq.
  assert (Hkeep : ∀ other, other ≠ n →
            getTool other
              {| agents := agents r;
                 Repository.tools :=
                   (map_delete n (Repository.tools r)).1 |}
            = getTool other r)
    by (intros other Hother; by apply map_get_delete_ne).
  split_and!; try done.
  - apply map_delete_found.
  - rewrite tool_names_of_spec by by apply map_delete_NoDup.
    rewrite Hgone. by intros (t & ? & _).
  - intros other Hother.
    rewrite !tool_names_of_spec; [|done|by apply map_delete_NoDup].
    by rewrite Hkeep.
Qed.

End ProviderProperties.

Lemma execute_without_hooks_witness :
  BaseAgentProvider.execute Samples.stopping_world None
    {| BaseAgentProvider.agentName := "assistant";
       BaseAgentProvider.reflected_metadata := None;
       BaseAgentProvider.beforeModelCall := None;
       BaseAgentProvider.afterModelCall := None |}
    (Some (Samples.sample_context "how is the weather")) Samples.sample_state
  = AgentService.executeAgent Samples.stopping_world None "assistant"
      (Some (Samples.sample_context "how is the weather"))
      Samples.sample_state.
Proof.
  apply (execute_without_hooks Samples.stopping_world None
           {| BaseAgentProvider.agentName := "assistant";
              BaseAgentProvider.reflected_metadata := None;
              BaseAgentProvider.beforeModelCall := None;
              BaseAgentProvider.afterModelCall := None |});
    reflexivity.
Defined.

Lemma execute_needs_original_input_witness :
  ∃ message,
    (BaseAgentProvider.execute Samples.stopping_world None
       {| BaseAgentProvider.agentName := "assistant";
          BaseAgentProvider.reflected_metadata := None;
          BaseAgentProvider.beforeModelCall :=
            Some (λ _ _, Ok (Samples.sample_context "how is the weather"));
          BaseAgentProvider.afterModelCall := None |}
       (Some {| AgentService.input := None; AgentService.history := None;
                AgentService.sessionId := None |})
       Samples.sample_state).1 = Throw message.
Proof.
  apply (execute_needs_original_input Samples.stopping_world None
           {| BaseAgentProvider.agentName := "assistant";
              BaseAgentProvider.reflected_metadata := None;
              BaseAgentProvider.beforeModelCall :=
                Some (λ _ _, Ok (Samples.sample_context "how is the weather"));
              BaseAgentProvider.afterModelCall := None |}
           {| AgentService.input := None; AgentService.history := None;
              AgentService.sessionId := None |}
           Samples.sample_state).
  left. reflexivity.
Defined.

Lemma provider_registry_lookup_witness :
  AgentProviderService.getAgentProvider "assistant"
    (AgentProviderService.registerAgentProviders
       [SampleProviders.failing_hooks] [])
  = Some SampleProviders.failing_hooks.
Proof.
  rewrite (proj1 (provider_registry_lookup Samples.stopping_world None false
                    [SampleProviders.failing_hooks] [] "assistant"
                    (NoDup_nil_2 : NoDup
                       (AgentProviderService.getRegisteredAgentNames [])))).
  reflexivity.
Defined.

(** ** The store of the limiter as the statistics see it *)

Section StoreGrowth.
Import RateLimiter SecurityStats.

Lemma rateLimit_dom rl now key (store : gmap string RateWindowEntry) :
  dom (rateLimit (Some rl) now key store).2 = {[key]} ∪ dom store.
Proof.
  unfold rateLimit. destruct (store !! key) as [current|] eqn:Hkey; cbn.
  - assert (Hin : key ∈ dom store) by (apply elem_of_dom; by eexists).
    destruct (resetTime current <=? now); cbn;
      [by rewrite dom_insert_L|].
    destruct (maxRequests rl <=? count current); cbn;
      [|by rewrite dom_insert_L].
    symmetry. apply subseteq_union_1_L. by apply singleton_subseteq_l.
  - by rewrite dom_insert_L.
Qed.

Lemma run_dom rl reqs : ∀ store : gmap string RateWindowEntry,
  dom (run (Some rl) reqs store).2
  = list_to_set (snd <$> reqs) ∪ dom store.
Proof.
  induction reqs as [|[now key] reqs IH]; intros store.
  - cbn. by rewrite (left_id_L ∅ (∪)).
  - cbn [run]. pose proof (rateLimit_dom rl now key store) as Hstep.
    destruct (rateLimit (Some rl) now key store) as [r store'].
    specialize (IH store').
    destruct (run (Some rl) reqs store') as [rs store'']. cbn in *.
    rewrite IH, Hstep, !(assoc_L (∪)).
    by rewrite (comm_L (∪) (list_to_set (snd <$> reqs)) {[key]}).
Qed.

(** X27. The limiter never drops an entry: after any run of checks the
    store holds exactly the keys it held before and the keys checked,
    expired windows included, so that the [rateLimitEntries] statistic
    only grows, by at most one per check, until the clean-up runs; the
    clean-up never makes it grow. The [blockedRequests] statistic is 0
    whatever was denied. *)
Theorem rateLimit_store_only_grows (rl : RateLimitConfig)
    (reqs : list (Z * string)) (now : Z) (store : gmap string RateWindowEntry) :
  let after := (run (Some rl) reqs store).2 in
  dom after = list_to_set (snd <$> reqs) ∪ dom store
  ∧ rateLimitEntries (getSecurityStats store)
    ≤ rateLimitEntries (getSecurityStats after)
  ∧ rateLimitEntries (getSecurityStats after)
    ≤ rateLimitEntries (getSecurityStats store) + Z.of_nat (length reqs)
  ∧ rateLimitEntries (getSecurityStats (cleanupRateLimitStore now after))
    ≤ rateLimitEntries (getSecurityStats after)
  ∧ blockedRequests (getSecurityStats after) = 0.
Proof.
  cbn zeta. pose proof (run_dom rl reqs store) as Hdom.
  split_and!; [done| | | |done]; cbn.
  - apply inj_le. rewrite <- !size_dom, Hdom.
    apply subseteq_size, union_subseteq_r.
  - rewrite <- Nat2Z.inj_add. apply inj_le.
    rewrite <- !size_dom, Hdom, size_union_alt.
    assert (size (list_to_set (C := gset string) (snd <$> reqs))
            ≤ length reqs)%nat.
    { clear. induction reqs as [|[t k] reqs IH]; cbn.
      - by rewrite size_empty.
      - rewrite size_union_alt, size_singleton.
        assert (size (list_to_set (C := gset string) (snd <$> reqs)
                      ∖ {[k]})
                ≤ size (list_to_set (C := gset string) (snd <$> reqs)))%nat
          by (apply subseteq_size, subseteq_difference_l; reflexivity).
        lia. }
    assert (size (dom store ∖ list_to_set (snd <$> reqs))
            ≤ size (dom store))%nat
      by (apply subseteq_size, subseteq_difference_l; reflexivity).
    lia.
  - apply inj_le. apply map_subseteq_size, map_filter_subseteq.
Qed.

End StoreGrowth.

(** ** Observers *)

Section Observers.
Import AgentService EventSubject.

Lemma removeObserver_absent o obs :
  o ∉ obs → removeObserver o obs = obs.
Proof.
  induction obs as [|x obs IH]; [done|]. cbn.
  rewrite not_elem_of_cons. intros [Hne Hrest].
  apply not_eq_sym in Hne. apply Nat.eqb_neq in Hne as ->.
  by rewrite IH.
Qed.

Lemma removeObserver_first o pre post :
  o ∉ pre → removeObserver o (pre ++ o :: post) = pre ++ post.
Proof.
  induction pre as [|x pre IH]; cbn.
  - by rewrite Nat.eqb_refl.
  - rewrite not_elem_of_cons. intros [Hne Hrest].
    apply not_eq_sym in Hne. apply Nat.eqb_neq in Hne as ->.
    by rewrite IH.
Qed.

(** X28. [removeObserver] takes out the first registration of the
    observer and nothing else, and does nothing for an observer that is
    not registered; [notifyObservers] calls every registration once, in
    the order of registration. So an observer added twice is called
    twice for each event, and still once after it has been removed
    once. *)
Theorem removeObserver_first_only (o : nat) (obs : list nat)
    (event : AgentEvent) :
  (o ∉ obs → removeObserver o obs = obs)
  ∧ (∀ pre post, o ∉ pre →
       removeObserver o (pre ++ o :: post) = pre ++ post)
  ∧ fst <$> notifyObservers event obs = obs
  ∧ (∀ call, call ∈ notifyObservers event obs → call.2 = event)
  ∧ (o ∉ obs →
     notifyObservers event
       (removeObserver o (addObserver o (addObserver o obs)))
     = notifyObservers event obs ++ [(o, event)]).
Proof.
  split_and!.
  - apply removeObserver_absent.
  - apply removeObserver_first.
  - unfold notifyObservers. rewrite <- list_fmap_compose.
    induction obs as [|x obs IH]; [done|]. cbn. by rewrite IH.
  - intros call Hin. unfold notifyObservers in Hin.
    by apply list_elem_of_fmap in Hin as (x & -> & _).
  - intros Hout. unfold addObserver. rewrite <- app_assoc. cbn.
    rewrite removeObserver_first by done.
    unfold notifyObservers. by rewrite fmap_app.
Qed.

End Observers.

(** ** The level filter of the logger *)

Section LoggerLevels.
Import Logger.

Lemma indexOf_levels value :
  (value ∈ levels ∧ 0 ≤ indexOf value levels ≤ 3)
  ∨ ((value ∉ levels) ∧ indexOf value levels = -1).
Proof.
  unfold indexOf, levels. cbn [indexOf_from].
  destruct (String.eqb_spec "debug" value) as [<-|H1].
  { left. split; [left|lia]. }
  destruct (String.eqb_spec "info" value) as [<-|H2].
  { left. split; [right; left|lia]. }
  destruct (String.eqb_spec "warn" value) as [<-|H3].
  { left. split; [do 2 right; left|lia]. }
  destruct (String.eqb_spec "error" value) as [<-|H4].
  { left. split; [do 3 right; left|lia]. }
  right. split; [|done].
  rewrite !not_elem_of_cons. split_and!; try done. apply not_elem_of_nil.
Qed.

(** X29. What [shouldLog] lets through. A disabled logger logs nothing.
    An enabled one always logs errors, and what it logs is closed
    upwards in the order debug, info, warn, error; without a configured
    level (or with an empty one) it logs from info on; with a level
    that is none of the four it logs everything, messages of an unknown
    level included; and with one of the four it logs no message of an
    unknown level. *)
Theorem shouldLog_levels (config : LoggingConfig) :
  (isEnabled config = false → ∀ current, shouldLog config current = false)
  ∧ (isEnabled config = true →
     shouldLog config "error" = true
     ∧ (∀ l l', shouldLog config l = true →
          indexOf l levels ≤ indexOf l' levels →
          shouldLog config l' = true)
     ∧ (level config = None ∨ level config = Some EmptyString →
        shouldLog config "debug" = false
        ∧ shouldLog config "info" = true
        ∧ shouldLog config "warn" = true)
     ∧ (∀ l, level config = Some l → l ≠ EmptyString → l ∉ levels →
          ∀ current, shouldLog config current = true)
     ∧ (∀ l, level config = Some l → l ∈ levels →
          ∀ current, current ∉ levels → shouldLog config current = false)).
Proof.
  unfold shouldLog. split; [by intros ->|]. intros ->. cbn [negb].
  split_and!.
  - apply Z.leb_le.
    match goal with |- indexOf ?l levels ≤ _ =>
      destruct (indexOf_levels l) as [[_ ?]|[_ ?]] end;
      change (indexOf "error" levels) with 3; lia.
  - intros l l' Hl Hle. apply Z.leb_le. apply Z.leb_le in Hl. lia.
  - intros [-> | ->]; by cbn.
  - intros l -> Hne Hout current. destruct l as [|a l]; [done|].
    apply Z.leb_le.
    destruct (indexOf_levels (String a l)) as [[? _]|[_ ->]]; [done|].
    destruct (indexOf_levels current) as [[_ ?]|[_ ->]]; lia.
  - intros l -> Hin current Hout. destruct l as [|a l].
    { exfalso. revert Hin. unfold levels.
      rewrite !elem_of_cons, elem_of_nil. intros [?|[?|[?|[?|[]]]]]; done. }
    apply Z.leb_gt.
    destruct (indexOf_levels (String a l)) as [[_ ?]|[? _]]; [|done].
    destruct (indexOf_levels current) as [[? _]|[_ ->]]; [done|lia].
Qed.

End LoggerLevels.

(** ** The model factory *)

Section Factory.
Import Repository AgentService.

Variable world : World.

(** X30. The errors of [createLLM]. For the openai and azure types an
    error is the one the model constructor threw. For the anthropic and
    google types every failure, whatever its cause, is replaced by the
    message asking to install the package. For the custom type the only
    error is the missing instance. Without a provider configuration the
    type comes from the environment and is never custom. *)
Theorem createLLM_errors (aiProviderConfig : option AIProviderConfig)
    (config : AgentConfig) (e : string) :
  createLLM world aiProviderConfig config = Throw e →
  let providerConfig :=
    match aiProviderConfig with
    | Some c => c
    | None => getDefaultProviderConfig world
    end in
  match provider_type providerConfig with
  | openai => new_model world openai config providerConfig = Throw e
  | azure => new_model world azure config providerConfig = Throw e
  | anthropic =>
      (∃ cause, new_model world anthropic config providerConfig
                = Throw cause)
      ∧ e = "Anthropic provider requires @langchain/anthropic package. "
            +:+ "Install it with: npm install @langchain/anthropic"
  | google =>
      (∃ cause, new_model world google config providerConfig = Throw cause)
      ∧ e = "Google provider requires @langchain/google-genai package. "
            +:+ "Install it with: npm install @langchain/google-genai"
  | custom =>
      aiProviderConfig ≠ None
      ∧ customLLM providerConfig = None
      ∧ e = "Custom LLM instance is required when using custom provider type"
  end.
Proof.
  unfold createLLM. cbn zeta.
  set (providerConfig := match aiProviderConfig with
                         | Some c => c
                         | None => getDefaultProviderConfig world
                         end).
  destruct (provider_type providerConfig) eqn:Htype; try done.
  - destruct (new_model world anthropic config providerConfig) as [|cause];
      [done|]. cbn. intros [= <-]. split; [by exists cause|done].
  - destruct (new_model world google config providerConfig) as [|cause];
      [done|]. cbn. intros [= <-]. split; [by exists cause|done].
  - unfold createCustomLLM.
    destruct (customLLM providerConfig) eqn:Hllm; [done|].
    intros [= <-]. split_and!; try done.
    intros ->. subst providerConfig. revert Htype.
    unfold getDefaultProviderConfig.
    repeat (destruct (is_set _); [done|]). done.
Qed.

End Factory.

Lemma createLLM_errors_witness :
  AgentService.customLLM Samples.custom_without_model = None.
Proof.
  apply (createLLM_errors Samples.stopping_world
           (Some Samples.custom_without_model) Samples.weather_agent
           "Custom LLM instance is required when using custom provider type").
  reflexivity.
Defined.
